(** * py-objectstorage: the version-chain engine of [backend/s3_routes.py]

    A shallow embedding of the S3 routes ([put_object], [get_object],
    [delete_object], [ui_rollback], [create_bucket]) together with the blob
    helpers of [backend/storage.py] and the record types of
    [backend/models.py], followed by the properties of the version chains. *)

From Stdlib Require Import ZArith Lia List Ascii String.
From Stdlib.Strings Require Import Byte.
From stdpp Require Import gmap strings list fin_maps pretty.

Local Open Scope string_scope.
Local Open Scope list_scope.
Local Open Scope Z_scope.

(** ** Library functions the code calls *)

(** [hashlib.md5], as RFC 1321 defines it, over 32-bit words held in [Z]. *)
Module Hashlib.

Definition w32 (x : Z) : Z := x mod 2 ^ 32.

Definition rotl32 (x c : Z) : Z :=
  w32 (Z.lor (Z.shiftl x c) (Z.shiftr x (32 - c))).

Definition not32 (x : Z) : Z := Z.lxor x (2 ^ 32 - 1).

Definition K : list Z :=
  [ 3614090360; 3905402710; 606105819; 3250441966; 4118548399; 1200080426;
    2821735955; 4249261313; 1770035416; 2336552879; 4294925233; 2304563134;
    1804603682; 4254626195; 2792965006; 1236535329; 4129170786; 3225465664;
    643717713; 3921069994; 3593408605; 38016083; 3634488961; 3889429448;
    568446438; 3275163606; 4107603335; 1163531501; 2850285829; 4243563512;
    1735328473; 2368359562; 4294588738; 2272392833; 1839030562; 4259657740;
    2763975236; 1272893353; 4139469664; 3200236656; 681279174; 3936430074;
    3572445317; 76029189; 3654602809; 3873151461; 530742520; 3299628645;
    4096336452; 1126891415; 2878612391; 4237533241; 1700485571; 2399980690;
    4293915773; 2240044497; 1873313359; 4264355552; 2734768916; 1309151649;
    4149444226; 3174756917; 718787259; 3951481745 ].

Definition shifts : list Z :=
  [ 7; 12; 17; 22; 7; 12; 17; 22; 7; 12; 17; 22; 7; 12; 17; 22;
    5; 9; 14; 20; 5; 9; 14; 20; 5; 9; 14; 20; 5; 9; 14; 20;
    4; 11; 16; 23; 4; 11; 16; 23; 4; 11; 16; 23; 4; 11; 16; 23;
    6; 10; 15; 21; 6; 10; 15; 21; 6; 10; 15; 21; 6; 10; 15; 21 ].

Definition byte_to_Z (b : byte) : Z := Z.of_N (Byte.to_N b).

Definition byte_of_Z (x : Z) : byte :=
  match Byte.of_N (Z.to_N (x mod 256)) with
  | Some b => b
  | None => x00
  end.

(** [n] little-endian bytes of [x]. *)
Fixpoint le_bytes (n : nat) (x : Z) : list byte :=
  match n with
  | O => []
  | S n' => byte_of_Z x :: le_bytes n' (Z.shiftr x 8)
  end.

Fixpoint le_word (bs : list byte) : Z :=
  match bs with
  | [] => 0
  | b :: bs' => byte_to_Z b + 256 * le_word bs'
  end.

Definition pad (msg : list byte) : list byte :=
  let len := Z.of_nat (List.length msg) in
  msg ++ [x80] ++ List.repeat x00 (Z.to_nat ((55 - len) mod 64))
      ++ le_bytes 8 (8 * len).

(** The words of one block: [count] words of four bytes each. *)
Fixpoint words (count : nat) (bs : list byte) : list Z :=
  match count with
  | O => []
  | S c => le_word (firstn 4 bs) :: words c (skipn 4 bs)
  end.

Definition state : Type := Z * Z * Z * Z.

Definition round (M : list Z) (i : Z) (st : state) : state :=
  let '(a, b, c, d) := st in
  let '(f, g) :=
    if i <? 16 then (Z.lor (Z.land b c) (Z.land (not32 b) d), i)
    else if i <? 32 then
      (Z.lor (Z.land d b) (Z.land (not32 d) c), (5 * i + 1) mod 16)
    else if i <? 48 then (Z.lxor (Z.lxor b c) d, (3 * i + 5) mod 16)
    else (Z.lxor c (Z.lor b (not32 d)), (7 * i) mod 16) in
  let f' := w32 (f + a + nth (Z.to_nat i) K 0 + nth (Z.to_nat g) M 0) in
  (d, w32 (b + rotl32 f' (nth (Z.to_nat i) shifts 0)), b, c).

Definition compress (st : state) (block : list byte) : state :=
  let M := words 16 block in
  let '(a, b, c, d) :=
    fold_left (fun s i => round M (Z.of_nat i) s) (seq 0 64) st in
  let '(a0, b0, c0, d0) := st in
  (w32 (a0 + a), w32 (b0 + b), w32 (c0 + c), w32 (d0 + d)).

Fixpoint blocks (count : nat) (st : state) (bs : list byte) : state :=
  match count with
  | O => st
  | S c => blocks c (compress st (firstn 64 bs)) (skipn 64 bs)
  end.

Definition md5 (msg : list byte) : list byte :=
  let p := pad msg in
  let '(a, b, c, d) :=
    blocks (List.length p / 64)
      (1732584193, 4023233417, 2562383102, 271733878) p in
  le_bytes 4 a ++ le_bytes 4 b ++ le_bytes 4 c ++ le_bytes 4 d.

(** One lowercase hexadecimal digit. *)
Definition hexdigit (n : Z) : ascii :=
  nth (Z.to_nat n)
    [ "0"; "1"; "2"; "3"; "4"; "5"; "6"; "7";
      "8"; "9"; "a"; "b"; "c"; "d"; "e"; "f" ]%char "0"%char.

Fixpoint hex (bs : list byte) : string :=
  match bs with
  | [] => ""
  | b :: bs' =>
      String (hexdigit (byte_to_Z b / 16))
        (String (hexdigit (byte_to_Z b mod 16)) (hex bs'))
  end.

(** A hash object: [update] feeds bytes, [hexdigest] renders the digest of
    everything fed so far. *)
Record md5_hash : Type := { fed : list byte }.

Definition new : md5_hash := {| fed := [] |}.
Definition update (h : md5_hash) (chunk : list byte) : md5_hash :=
  {| fed := fed h ++ chunk |}.
Definition hexdigest (h : md5_hash) : string := hex (md5 (fed h)).

End Hashlib.

(** [os.path.join] in its POSIX form ([STORAGE_ROOT] is written with
    forward slashes): a component that starts with the separator restarts
    the path, otherwise it is appended after exactly one separator. *)
Module PosixPath.

Definition sep : ascii := "/"%char.

Definition startswith_sep (s : string) : bool :=
  match s with
  | String c _ => bool_decide (c = sep)
  | EmptyString => false
  end.

Fixpoint endswith_sep (s : string) : bool :=
  match s with
  | EmptyString => false
  | String c EmptyString => bool_decide (c = sep)
  | String _ s' => endswith_sep s'
  end.

Definition join2 (path b : string) : string :=
  if startswith_sep b then b
  else if bool_decide (path = "") || endswith_sep path then path +:+ b
  else path +:+ String sep b.

Definition join (a : string) (p : list string) : string :=
  fold_left join2 p a.

End PosixPath.

(** [str(uuid.uuid4())]: 36 characters, lowercase hexadecimal digits in
    groups of 8-4-4-4-12 separated by dashes. The value itself is drawn at
    random, so the routes below take it as an input. *)
Definition is_hex_char (c : ascii) : bool :=
  bool_decide (c ∈ [ "0"; "1"; "2"; "3"; "4"; "5"; "6"; "7";
                     "8"; "9"; "a"; "b"; "c"; "d"; "e"; "f" ]%char).

Fixpoint uuid_chars (i : nat) (s : string) : bool :=
  match s with
  | EmptyString => true
  | String c s' =>
      (if bool_decide (i ∈ [8; 13; 18; 23]%nat)
       then bool_decide (c = "-"%char) else is_hex_char c)
      && uuid_chars (S i) s'
  end.

Definition uuid_shaped (s : string) : bool :=
  bool_decide (String.length s = 36%nat) && uuid_chars 0 s.

(** Python truthiness of an [Optional[str]]: [None] and the empty string
    are false. *)
Definition truthy (o : option string) : bool :=
  match o with
  | Some s => negb (bool_decide (s = ""))
  | None => false
  end.

Definition bytes_of (s : string) : list byte := list_byte_of_string s.

(** ** backend/models.py *)

Record Bucket : Type := {
  name : string;
  creation_date : Z;
  versioning_enabled : bool
}.

Record ObjectVersion : Type := {
  id : option nat;
  bucket_name : string;
  key : string;
  version_id : string;
  is_latest : bool;
  is_delete_marker : bool;
  size : Z;
  etag : string;
  last_modified : Z;
  content_type : string;
  storage_path : option string
}.

Definition set_id (i : option nat) (r : ObjectVersion) : ObjectVersion :=
  {| id := i; bucket_name := bucket_name r; key := key r;
     version_id := version_id r; is_latest := is_latest r;
     is_delete_marker := is_delete_marker r; size := size r; etag := etag r;
     last_modified := last_modified r; content_type := content_type r;
     storage_path := storage_path r |}.

Definition set_is_latest (b : bool) (r : ObjectVersion) : ObjectVersion :=
  {| id := id r; bucket_name := bucket_name r; key := key r;
     version_id := version_id r; is_latest := b;
     is_delete_marker := is_delete_marker r; size := size r; etag := etag r;
     last_modified := last_modified r; content_type := content_type r;
     storage_path := storage_path r |}.

(** ** backend/storage.py *)

Definition STORAGE_ROOT : string :=
  "d:/WorkShop/Practice/PythonWorkSpace/ObjectStorage/data".

(** The blob medium: full path to content. Paths are compared as strings,
    which tells files apart as long as every path is one the routes build:
    [STORAGE_ROOT], a bucket, the hash of a key and a UUID. Directories,
    other spellings of a path, and the failure of [open] on a version id
    that is no file name are outside this medium. *)
Abbreviation filesystem := (gmap string (list byte)).

(** [io.BytesIO]: a buffer and a cursor. *)
Record BytesIO : Type := { buf : list byte; pos : nat }.

Definition seek (f : BytesIO) (p : nat) : BytesIO :=
  {| buf := buf f; pos := p |}.

Definition read (f : BytesIO) (n : nat) : list byte * BytesIO :=
  let chunk := firstn n (skipn (pos f) (buf f)) in
  (chunk, {| buf := buf f; pos := (pos f + List.length chunk)%nat |}).

(** Reading to the end, as [shutil.copyfileobj] does from the cursor. *)
Definition read_all (f : BytesIO) : list byte * BytesIO :=
  let rest := skipn (pos f) (buf f) in
  (rest, {| buf := buf f; pos := (pos f + List.length rest)%nat |}).

Definition get_file_path (storage_path : string) : string :=
  PosixPath.join STORAGE_ROOT [storage_path].

Definition save_file (file_obj : BytesIO) (bucket key version_id : string)
    (fs : filesystem) : (string * BytesIO) * filesystem :=
  let key_hash := Hashlib.hex (Hashlib.md5 (bytes_of key)) in
  let directory := PosixPath.join STORAGE_ROOT [bucket; key_hash] in
  let filename := version_id in
  let file_path := PosixPath.join directory [filename] in
  let '(data, file_obj') := read_all file_obj in
  ((PosixPath.join bucket [key_hash; filename], file_obj'),
   <[file_path := data]> fs).

Definition get_file_content (storage_path : string) (fs : filesystem)
    : option (list byte) :=
  fs !! get_file_path storage_path.

Definition delete_physical_file (storage_path : string) (fs : filesystem)
    : filesystem :=
  delete (get_file_path storage_path) fs.

Definition dquote : string := String "034"%char EmptyString.

(** The loop [for chunk in iter(lambda: file.read(4096), b"")]: it stops at
    the first empty chunk. [fuel] bounds the number of reads. *)
Fixpoint read_chunks (n fuel : nat) (f : BytesIO) (h : Hashlib.md5_hash)
    : BytesIO * Hashlib.md5_hash :=
  match fuel with
  | O => (f, h)
  | S fuel' =>
      let '(chunk, f') := read f n in
      match chunk with
      | [] => (f', h)
      | _ => read_chunks n fuel' f' (Hashlib.update h chunk)
      end
  end.

Definition calculate_etag (file_obj : BytesIO) : string * BytesIO :=
  let f0 := seek file_obj 0 in
  let '(f1, hash_md5) :=
    read_chunks 4096 (S (List.length (buf f0))) f0 Hashlib.new in
  let f2 := seek f1 0 in
  (dquote +:+ Hashlib.hexdigest hash_md5 +:+ dquote, f2).

(** ** The metadata repository and the request session *)

Record database : Type := {
  buckets : list Bucket;
  object_versions : list ObjectVersion
}.

(** What outlives a request: the committed tables and the blob medium. *)
Record world : Type := {
  w_db : database;
  w_files : filesystem
}.

Definition empty_world : world :=
  {| w_db := {| buckets := []; object_versions := [] |}; w_files := ∅ |}.

(** Modelled from the spec: [backend/database.py] ([get_session]) is not
    among the sources. The spec takes the repository to be an ACID record
    store reached by predicate queries and ordered scans. A request works on
    a session: a private image of the tables that starts as the committed
    tables, receives every [session.add] and [session.delete], and replaces
    the committed tables at [session.commit()] only. A request that raises
    before its commit leaves the committed tables as they were; what it did
    to the blob medium stays done. [commits] is the history of the request:
    the tables as each [session.commit()] installed them, oldest first.
    Nothing reads it; it is there to say how often, and with what, a
    request commits. *)
Record request_state : Type := {
  committed : database;
  session : database;
  files : filesystem;
  commits : list database
}.

Inductive result (A : Type) : Type :=
  | Return (a : A)
  | Raise (status_code : Z) (detail : string).
Arguments Return {A} a.
Arguments Raise {A} status_code detail.

Definition handler (A : Type) : Type := request_state → result A * request_state.

Global Instance handler_ret : MRet handler := λ A a s, (Return a, s).
Global Instance handler_bind : MBind handler := λ A B k m s,
  match m s with
  | (Return a, s') => k a s'
  | (Raise c d, s') => (Raise c d, s')
  end.

Definition raise_http {A} (status_code : Z) (detail : string) : handler A :=
  λ s, (Raise status_code detail, s).

Definition skip : handler unit := mret tt.

(** The primary key given to an inserted row: one more than the largest
    key in the table. *)
Definition next_id (rows : list ObjectVersion) : nat :=
  S (foldr (λ r m, Nat.max (default 0%nat (id r)) m) 0%nat rows).

Definition update_row (r : ObjectVersion) (rows : list ObjectVersion)
    : list ObjectVersion :=
  (λ x, if decide (id x = id r) then r else x) <$> rows.

Definition delete_row (r : ObjectVersion) (rows : list ObjectVersion)
    : list ObjectVersion :=
  filter (λ x, id x ≠ id r) rows.

Definition with_versions (f : list ObjectVersion → list ObjectVersion)
    (s : request_state) : request_state :=
  {| committed := committed s;
     session := {| buckets := buckets (session s);
                   object_versions := f (object_versions (session s)) |};
     files := files s; commits := commits s |}.

(** [session.add(obj)]: an object without a primary key is a new row, one
    with a primary key replaces the row that has it. *)
Definition added (r : ObjectVersion) (rows : list ObjectVersion)
    : list ObjectVersion :=
  match id r with
  | None => rows ++ [set_id (Some (next_id rows)) r]
  | Some _ => update_row r rows
  end.

Definition session_add (r : ObjectVersion) : handler unit := λ s,
  (Return tt, with_versions (added r) s).

Definition session_add_bucket (b : Bucket) : handler unit := λ s,
  (Return tt,
   {| committed := committed s;
      session := {| buckets := buckets (session s) ++ [b];
                    object_versions := object_versions (session s) |};
      files := files s; commits := commits s |}).

Definition session_delete (r : ObjectVersion) : handler unit := λ s,
  (Return tt, with_versions (delete_row r) s).

Definition session_commit : handler unit := λ s,
  (Return tt,
   {| committed := session s; session := session s; files := files s;
      commits := commits s ++ [session s] |}).

(** [session.exec(select(ObjectVersion).where(...)).all()], in table order. *)
Definition select_versions (P : ObjectVersion → Prop)
    `{∀ r, Decision (P r)} : handler (list ObjectVersion) := λ s,
  (Return (filter P (object_versions (session s))), s).

Definition select_buckets (P : Bucket → Prop)
    `{∀ b, Decision (P b)} : handler (list Bucket) := λ s,
  (Return (filter P (buckets (session s))), s).

(** [.order_by(ObjectVersion.last_modified.desc())]; rows with equal
    timestamps keep their table order. *)
Fixpoint insert_desc (r : ObjectVersion) (l : list ObjectVersion)
    : list ObjectVersion :=
  match l with
  | [] => [r]
  | x :: l' =>
      if last_modified x <=? last_modified r then r :: x :: l'
      else x :: insert_desc r l'
  end.

Definition order_by_last_modified_desc (l : list ObjectVersion)
    : list ObjectVersion :=
  foldr insert_desc [] l.

(** [.first()] *)
Definition first {A} (l : list A) : option A := head l.

Definition with_files (f : filesystem → filesystem) : handler unit := λ s,
  (Return tt,
   {| committed := committed s; session := session s; files := f (files s);
      commits := commits s |}).

Definition read_files : handler filesystem := λ s, (Return (files s), s).

Definition on_files {A} (f : filesystem → A * filesystem) : handler A := λ s,
  let '(a, fs) := f (files s) in
  (Return a,
   {| committed := committed s; session := session s; files := fs;
      commits := commits s |}).

(** A [for] loop whose body updates one local variable. *)
Fixpoint for_each {A L} (l : list A) (body : L → A → handler L) (local : L)
    : handler L :=
  match l with
  | [] => mret local
  | x :: l' => local' ← body local x; for_each l' body local'
  end.

(** What a route answers. *)
Inductive http_response : Type :=
  | Response (status_code : Z) (headers : list (string * string))
  | StreamingResponse (content : list byte) (headers : list (string * string))
  | JSONResponse (fields : list (string * string))
  | HTTPException (status_code : Z) (detail : string).

(** The state in which a request starts: a session opened on the committed
    tables, and nothing committed yet. *)
Definition open_session (w : world) : request_state :=
  {| committed := w_db w; session := w_db w; files := w_files w;
     commits := [] |}.

(** One request: a session opened on the committed tables, the route, and
    what is left when the session is closed. *)
Definition run_request (h : handler http_response) (w : world)
    : world * http_response :=
  match h (open_session w) with
  | (Return r, s) => ({| w_db := committed s; w_files := files s |}, r)
  | (Raise c d, s) =>
      ({| w_db := committed s; w_files := files s |}, HTTPException c d)
  end.

(** ** backend/s3_routes.py *)

Definition in_chain (bucket_name0 key0 : string) (r : ObjectVersion) : Prop :=
  bucket_name r = bucket_name0 ∧ key r = key0.

Global Instance in_chain_dec b k r : Decision (in_chain b k r).
Proof. unfold in_chain. apply _. Defined.

(** The body of the loop of [ui_rollback]; [target_found] is its local. *)
Definition rollback_body (version_id0 : string) (target_found : bool)
    (ver : ObjectVersion) : handler bool :=
  if decide (version_id ver = version_id0) then
    session_add (set_is_latest true ver);; mret true
  else if negb target_found then
    (if truthy (storage_path ver)
     then with_files (delete_physical_file (default "" (storage_path ver)))
     else skip);;
    session_delete ver;;
    mret target_found
  else
    (if is_latest ver then session_add (set_is_latest false ver) else skip);;
    mret target_found.

(** [POST /api/ui/{bucket_name}/rollback], for an authenticated caller. *)
Definition ui_rollback (bucket_name0 key0 version_id0 : string)
    : handler http_response :=
  chain ← select_versions (in_chain bucket_name0 key0);
  let all_versions := order_by_last_modified_desc chain in
  target_found ← for_each all_versions (rollback_body version_id0) false;
  if negb target_found then
    raise_http 404 "Target version not found in history"
  else
    session_commit;;
    mret (JSONResponse
            [("status", "success");
             ("message", "Rolled back to " +:+ version_id0
                           +:+ ", newer versions deleted.")]).

(** [PUT /{bucket_name}] *)
Definition create_bucket (bucket_name0 : string) (utcnow : Z)
    : handler http_response :=
  found ← select_buckets (λ b, name b = bucket_name0);
  let existing := first found in
  if existing is Some _ then raise_http 409 "BucketAlreadyExists"
  else
    session_add_bucket {| name := bucket_name0; creation_date := utcnow;
                          versioning_enabled := true |};;
    session_commit;;
    mret (Response 200 []).

(** [PUT /{bucket_name}/{key:path}]; [uuid4] and [utcnow] are what
    [uuid.uuid4()] and [datetime.utcnow()] give during the request. *)
Definition put_object (bucket_name0 key0 : string) (body : list byte)
    (content_type_header : option string) (uuid4 : string) (utcnow : Z)
    : handler http_response :=
  found ← select_buckets (λ b, name b = bucket_name0);
  let bucket := first found in
  if bucket is None then raise_http 404 "NoSuchBucket"
  else
    let content_type0 :=
      default "application/octet-stream" content_type_header in
    let file_mock := {| buf := body; pos := 0 |} in
    let '(hash_md5, file_mock) := calculate_etag file_mock in
    let size0 := Z.of_nat (List.length body) in
    let version_id0 := uuid4 in
    saved ← on_files (save_file file_mock bucket_name0 key0 version_id0);
    let storage_path0 := saved.1 in
    latest ← select_versions
      (λ r, in_chain bucket_name0 key0 r ∧ is_latest r = true);
    let old_latest := first latest in
    (if old_latest is Some o then session_add (set_is_latest false o)
     else skip);;
    let new_obj :=
      {| id := None; bucket_name := bucket_name0; key := key0;
         version_id := version_id0; is_latest := true;
         is_delete_marker := false; size := size0; etag := hash_md5;
         last_modified := utcnow; content_type := content_type0;
         storage_path := Some storage_path0 |} in
    session_add new_obj;;
    session_commit;;
    mret (Response 200 [("x-amz-version-id", version_id0);
                        ("ETag", hash_md5)]).

(** [GET /{bucket_name}/{key:path}] *)
Definition get_object (bucket_name0 key0 : string) (versionId : option string)
    : handler http_response :=
  found ←
    (if truthy versionId then
       select_versions (λ r, in_chain bucket_name0 key0 r
                             ∧ version_id r = default "" versionId)
     else
       select_versions (λ r, in_chain bucket_name0 key0 r
                             ∧ is_latest r = true));
  match first found with
  | None => raise_http 404 "NoSuchKey"
  | Some obj =>
      if is_delete_marker obj then raise_http 404 "NoSuchKey"
      else
        fs ← read_files;
        match storage_path obj with
        | None => raise_http 500 "Internal Server Error"
        | Some p =>
            match get_file_content p fs with
            | None => raise_http 500 "InternalError: File missing on disk"
            | Some file_stream =>
                mret (StreamingResponse file_stream
                        [("x-amz-version-id", version_id obj);
                         ("ETag", etag obj);
                         ("Content-Type", content_type obj);
                         ("Content-Length", pretty (size obj))])
            end
        end
  end.

(** [DELETE /{bucket_name}/{key:path}] *)
Definition delete_object (bucket_name0 key0 : string)
    (versionId : option string) (uuid4 : string) (utcnow : Z)
    : handler http_response :=
  if truthy versionId then
    found ← select_versions (λ r, in_chain bucket_name0 key0 r
                                  ∧ version_id r = default "" versionId);
    match first found with
    | Some obj =>
        (if is_latest obj then
           others ← select_versions
             (λ r, in_chain bucket_name0 key0 r
                   ∧ version_id r ≠ default "" versionId);
           let next_latest := first (order_by_last_modified_desc others) in
           if next_latest is Some n then session_add (set_is_latest true n)
           else skip
         else skip);;
        (if truthy (storage_path obj)
         then with_files (delete_physical_file (default "" (storage_path obj)))
         else skip);;
        session_delete obj;;
        session_commit;;
        mret (Response 204 [])
    | None => mret (Response 204 [])
    end
  else
    found ← select_buckets (λ b, name b = bucket_name0);
    let bucket := first found in
    if bucket is None then raise_http 404 "NoSuchBucket"
    else
      latest ← select_versions
        (λ r, in_chain bucket_name0 key0 r ∧ is_latest r = true);
      let old_latest := first latest in
      (if old_latest is Some o then session_add (set_is_latest false o)
       else skip);;
      let version_id0 := uuid4 in
      let delete_marker :=
        {| id := None; bucket_name := bucket_name0; key := key0;
           version_id := version_id0; is_latest := true;
           is_delete_marker := true; size := 0; etag := "";
           last_modified := utcnow;
           content_type := "application/octet-stream";
           storage_path := None |} in
      session_add delete_marker;;
      session_commit;;
      mret (Response 204 [("x-amz-version-id", version_id0);
                          ("x-amz-delete-marker", "true")]).

(** ** Requests against the store *)

Inductive request : Type :=
  | CreateBucket (bucket_name0 : string) (utcnow : Z)
  | PutObject (bucket_name0 key0 : string) (body : list byte)
      (content_type_header : option string) (uuid4 : string) (utcnow : Z)
  | GetObject (bucket_name0 key0 : string) (versionId : option string)
  | DeleteObject (bucket_name0 key0 : string) (versionId : option string)
      (uuid4 : string) (utcnow : Z)
  | Rollback (bucket_name0 key0 version_id0 : string).

Definition route (q : request) : handler http_response :=
  match q with
  | CreateBucket b t => create_bucket b t
  | PutObject b k body ct u t => put_object b k body ct u t
  | GetObject b k v => get_object b k v
  | DeleteObject b k v u t => delete_object b k v u t
  | Rollback b k v => ui_rollback b k v
  end.

Definition serve (w : world) (q : request) : world * http_response :=
  run_request (route q) w.

Definition serve_all (w : world) (qs : list request) : world :=
  fold_left (λ w q, (serve w q).1) qs w.

Definition rows (w : world) : list ObjectVersion := object_versions (w_db w).

(** The chain of a key: its rows, in table order. *)
Definition chain (w : world) (b k : string) : list ObjectVersion :=
  filter (in_chain b k) (rows w).

(** ** backend/auth.py

    A [datetime] is held as a number of microseconds, so that
    [timedelta(hours=1)] is 3600000000. The token is what
    [secrets.token_hex(16)] gives, the time what [datetime.utcnow()] gives. *)
Module Auth.

Record token_session : Type := { username : string; expires : Z }.

Abbreviation token_store := (gmap string token_session).

Definition VALID_CREDENTIALS : gmap string string :=
  {[ "admin" := "password" ]}.

Definition timedelta_hours (h : Z) : Z := h * 3600000000.

Definition create_token (username0 : string) (token_hex : string) (utcnow : Z)
    (TOKENS : token_store) : string * token_store :=
  let token := token_hex in
  let expiration := utcnow + timedelta_hours 1 in
  (token,
   <[token := {| username := username0; expires := expiration |}]> TOKENS).

Definition validate_token (token : string) (utcnow : Z)
    (TOKENS : token_store) : bool * token_store :=
  if bool_decide (token = "") then (false, TOKENS)
  else
    match TOKENS !! token with
    | None => (false, TOKENS)
    | Some session0 =>
        if expires session0 <? utcnow then (false, delete token TOKENS)
        else (true, TOKENS)
    end.

(** [TOKENS[x_auth_token]] of a token that is not there would be a
    [KeyError], which the framework answers with a 500. *)
Definition get_current_user (x_auth_token : option string) (utcnow : Z)
    (TOKENS : token_store) : result string * token_store :=
  if negb (truthy x_auth_token) then
    (Raise 401 "Invalid or expired token", TOKENS)
  else
    let token := default "" x_auth_token in
    let '(valid, TOKENS') := validate_token token utcnow TOKENS in
    if negb valid then (Raise 401 "Invalid or expired token", TOKENS')
    else
      match TOKENS' !! token with
      | Some session0 => (Return (username session0), TOKENS')
      | None => (Raise 500 "Internal Server Error", TOKENS')
      end.

End Auth.

(** ** The interface for the GUI, in backend/s3_routes.py *)

Record LoginRequest : Type := { username : string; password : string }.

(** [POST /api/login] *)
Definition login (creds : LoginRequest) (token_hex : string) (utcnow : Z)
    (TOKENS : Auth.token_store)
    : result (list (string * string)) * Auth.token_store :=
  match Auth.VALID_CREDENTIALS !! username creds with
  | Some p =>
      if bool_decide (p = password creds) then
        let '(token, TOKENS') :=
          Auth.create_token (username creds) token_hex utcnow TOKENS in
        (Return [("token", token)], TOKENS')
      else (Raise 401 "Invalid credentials", TOKENS)
  | None => (Raise 401 "Invalid credentials", TOKENS)
  end.

(** A route that does not answer an [http_response]: a session opened on
    the committed tables, the route, and what is left afterwards. *)
Definition run_handler {A} (h : handler A) (w : world) : world * result A :=
  match h (open_session w) with
  | (r, s) => ({| w_db := committed s; w_files := files s |}, r)
  end.

(** [GET /api/ui/buckets] *)
Definition ui_list_buckets : handler (list (string * Z)) :=
  all_buckets ← select_buckets (λ _, True);
  mret ((λ b, (name b, creation_date b)) <$> all_buckets).

(** [.order_by(ObjectVersion.key, ObjectVersion.last_modified.desc())]:
    keys in the order of their characters, and under one key the rows as
    [order_by_last_modified_desc] puts them. *)
Definition sorts_before (r x : ObjectVersion) : bool :=
  if decide (key r = key x) then last_modified x <=? last_modified r
  else bool_decide (String.le (key r) (key x)).

Fixpoint insert_key_desc (r : ObjectVersion) (l : list ObjectVersion)
    : list ObjectVersion :=
  match l with
  | [] => [r]
  | x :: l' =>
      if sorts_before r x then r :: x :: l' else x :: insert_key_desc r l'
  end.

Definition order_by_key_last_modified_desc (l : list ObjectVersion)
    : list ObjectVersion :=
  foldr insert_key_desc [] l.

(** One entry of the lists that [ui_list_objects] answers. *)
Record version_info : Type := {
  info_version_id : string;
  info_is_latest : bool;
  info_is_delete_marker : bool;
  info_last_modified : Z;
  info_size : Z;
  info_etag : string
}.

Definition version_info_of (v : ObjectVersion) : version_info :=
  {| info_version_id := version_id v; info_is_latest := is_latest v;
     info_is_delete_marker := is_delete_marker v;
     info_last_modified := last_modified v; info_size := size v;
     info_etag := etag v |}.

(** The body of the loop of [ui_list_objects] over the dictionary [data]. *)
Definition ui_list_objects_body (data : gmap string (list version_info))
    (v : ObjectVersion) : gmap string (list version_info) :=
  let data :=
    if decide (data !! key v = None) then <[key v := []]> data else data in
  alter (λ l, l ++ [version_info_of v]) (key v) data.

(** [GET /api/ui/{bucket_name}/objects] *)
Definition ui_list_objects (bucket_name0 : string)
    : handler (gmap string (list version_info)) :=
  found ← select_versions (λ r, bucket_name r = bucket_name0);
  let all_versions := order_by_key_last_modified_desc found in
  mret (fold_left ui_list_objects_body all_versions ∅).

(** *** The listings of a bucket *)

Record xml_response : Type := {
  xml_content : string;
  xml_media_type : string;
  xml_status_code : Z
}.

Definition generate_xml_response (content : string) (status_code : Z)
    : xml_response :=
  {| xml_content := content; xml_media_type := "application/xml";
     xml_status_code := status_code |}.

Module Owner.
Definition ID : string := "00000000000000000000000000000000".
Definition DisplayName : string := "antigravity".
End Owner.

(** [str.join] on the empty separator, and [str(b).lower()]. *)
Definition join_parts (parts : list string) : string :=
  foldr String.append "" parts.

Definition str_lower_bool (b : bool) : string :=
  if b then "true" else "false".

Definition xmlns : string :=
  " xmlns=" +:+ dquote +:+ "http://s3.amazonaws.com/doc/2006-03-01/"
    +:+ dquote.

Definition owner_xml : string :=
  "<Owner><ID>" +:+ Owner.ID +:+ "</ID><DisplayName>" +:+ Owner.DisplayName
    +:+ "</DisplayName></Owner>".

Section Listing.

(** [datetime.strftime], of the standard library. *)
Variable strftime : Z → string → string.

Definition get_iso_timestamp (dt : Z) : string :=
  strftime dt "%Y-%m-%dT%H:%M:%S.000Z".

Definition delete_marker_xml (ver : ObjectVersion) : string :=
  "<DeleteMarker><Key>" +:+ key ver +:+ "</Key><VersionId>"
    +:+ version_id ver +:+ "</VersionId><IsLatest>"
    +:+ str_lower_bool (is_latest ver) +:+ "</IsLatest><LastModified>"
    +:+ get_iso_timestamp (last_modified ver) +:+ "</LastModified>"
    +:+ owner_xml +:+ "</DeleteMarker>".

Definition version_xml (ver : ObjectVersion) : string :=
  "<Version><Key>" +:+ key ver +:+ "</Key><VersionId>"
    +:+ version_id ver +:+ "</VersionId><IsLatest>"
    +:+ str_lower_bool (is_latest ver) +:+ "</IsLatest><LastModified>"
    +:+ get_iso_timestamp (last_modified ver) +:+ "</LastModified><ETag>"
    +:+ etag ver +:+ "</ETag><Size>" +:+ pretty (size ver) +:+ "</Size>"
    +:+ owner_xml +:+ "<StorageClass>STANDARD</StorageClass></Version>".

Definition contents_xml (obj : ObjectVersion) : string :=
  "<Contents><Key>" +:+ key obj +:+ "</Key><LastModified>"
    +:+ get_iso_timestamp (last_modified obj) +:+ "</LastModified><ETag>"
    +:+ etag obj +:+ "</ETag><Size>" +:+ pretty (size obj) +:+ "</Size>"
    +:+ owner_xml +:+ "<StorageClass>STANDARD</StorageClass></Contents>".

(** [GET /{bucket_name}] *)
Definition list_objects (bucket_name0 : string) (versions : bool)
    : handler xml_response :=
  found ← select_buckets (λ b, name b = bucket_name0);
  let bucket := first found in
  if bucket is None then raise_http 404 "NoSuchBucket"
  else if versions then
    rows_found ← select_versions (λ r, bucket_name r = bucket_name0);
    let results := order_by_key_last_modified_desc rows_found in
    let xml_parts :=
      [ "<ListVersionsResult" +:+ xmlns +:+ ">";
        "<Name>" +:+ bucket_name0 +:+ "</Name>";
        "<Prefix></Prefix>";
        "<KeyMarker></KeyMarker>";
        "<VersionIdMarker></VersionIdMarker>";
        "<IsTruncated>false</IsTruncated>" ]
      ++ ((λ ver, if is_delete_marker ver then delete_marker_xml ver
                  else version_xml ver) <$> results)
      ++ [ "</ListVersionsResult>" ] in
    mret (generate_xml_response (join_parts xml_parts) 200)
  else
    results ← select_versions
      (λ r, bucket_name r = bucket_name0 ∧ is_latest r = true
            ∧ is_delete_marker r = false);
    let xml_parts :=
      [ "<ListBucketResult" +:+ xmlns +:+ ">";
        "<Name>" +:+ bucket_name0 +:+ "</Name>";
        "<Prefix></Prefix>";
        "<Marker></Marker>";
        "<MaxKeys>1000</MaxKeys>";
        "<IsTruncated>false</IsTruncated>" ]
      ++ (contents_xml <$> results)
      ++ [ "</ListBucketResult>" ] in
    mret (generate_xml_response (join_parts xml_parts) 200).

End Listing.

(** ** Routes behind [Depends(get_current_user)]

    The framework resolves the dependency before it calls the route, and
    answers the [HTTPException] of the dependency without calling the
    route. *)
Record server : Type := { store : world; TOKENS : Auth.token_store }.

Definition authenticated {A} (x_auth_token : option string) (utcnow : Z)
    (h : handler A) (sv : server) : server * result A :=
  match Auth.get_current_user x_auth_token utcnow (TOKENS sv) with
  | (Raise c d, toks) => ({| store := store sv; TOKENS := toks |}, Raise c d)
  | (Return user, toks) =>
      let '(w, r) := run_handler h (store sv) in
      ({| store := w; TOKENS := toks |}, r)
  end.

(** * Auxiliary definitions

    ** Digests and paths *)

(** Reading a hexadecimal rendering back. *)
Definition unhexdigit (c : ascii) : Z :=
  let n := Z.of_nat (nat_of_ascii c) in
  if n <? 58 then n - 48 else n - 87.

Fixpoint unhex (s : string) : list byte :=
  match s with
  | String hi (String lo s') =>
      Hashlib.byte_of_Z (16 * unhexdigit hi + unhexdigit lo) :: unhex s'
  | _ => []
  end.

(** A component that does not restart the path is appended, after one
    separator when the path needs it. *)
Definition glue (path : string) : string :=
  if bool_decide (path = "") || PosixPath.endswith_sep path then ""
  else String PosixPath.sep "".


(** The relative path [save_file] returns for a version, and the full path
    it writes. *)
Definition locator (b k v : string) : string :=
  PosixPath.join b [Hashlib.hex (Hashlib.md5 (bytes_of k)); v].

Definition blob_path (b k v : string) : string :=
  PosixPath.join
    (PosixPath.join STORAGE_ROOT [b; Hashlib.hex (Hashlib.md5 (bytes_of k))])
    [v].

(** ** The store between requests *)

(** A bucket is known when a row of the bucket table has its name. *)
Definition bucket_exists (w : world) (b : string) : Prop :=
  b ∈ name <$> buckets (w_db w).

Global Instance bucket_exists_dec w b : Decision (bucket_exists w b).
Proof. unfold bucket_exists. apply _. Defined.

(** What is assumed of the version id a request draws with
    [uuid.uuid4()]: it has the shape of a UUID and is not the version id of
    any row. [delete_object] draws only when it writes a delete marker. *)
Definition uuid_fresh (w : world) (u : string) : Prop :=
  uuid_shaped u = true ∧ u ∉ version_id <$> rows w.

Definition draws_ok (w : world) (q : request) : Prop :=
  match q with
  | PutObject _ _ _ _ u _ => uuid_fresh w u
  | DeleteObject _ _ v u _ => if truthy v then True else uuid_fresh w u
  | _ => True
  end.

Global Instance uuid_fresh_dec w u : Decision (uuid_fresh w u).
Proof. unfold uuid_fresh. apply _. Defined.

Global Instance draws_ok_dec w q : Decision (draws_ok w q).
Proof.
  destruct q as [| | |? ? v ? ?|]; simpl; try apply _.
  destruct (truthy v); apply _.
Defined.

(** The draws of a sequence of requests, each against the store its
    predecessors left. *)
Fixpoint draws_ok_all (w : world) (qs : list request) : Prop :=
  match qs with
  | [] => True
  | q :: qs' => draws_ok w q ∧ draws_ok_all (serve w q).1 qs'
  end.

Global Instance draws_ok_all_dec w qs : Decision (draws_ok_all w qs).
Proof. revert w. induction qs; intros w; cbn [draws_ok_all]; apply _. Defined.

(** The worlds the routes can produce from the empty store. *)
Inductive reachable : world → Prop :=
  | reachable_empty : reachable empty_world
  | reachable_serve w q :
      reachable w → draws_ok w q → reachable (serve w q).1.

(** The number of current rows of a chain. *)
Definition latest_count (l : list ObjectVersion) : nat :=
  List.length (filter (λ r, is_latest r = true) l).

(** The row a request for a key selects: the one with the version id given,
    or the current one when none is given. A version id counts as given
    when it is not empty, which is the test the routes make. *)
Definition selected (v : option string) (r : ObjectVersion) : Prop :=
  if truthy v then version_id r = default "" v else is_latest r = true.

Global Instance selected_dec v r : Decision (selected v r).
Proof. unfold selected. destruct (truthy v); apply _. Defined.

(** ** The transitions of the routes, on the tables

    The row of a chain that the routes take for current, the row a version
    id selects, and what demotion, promotion and insertion make of the
    version table. *)
Definition latest_of (b k : string) (l : list ObjectVersion)
    : option ObjectVersion :=
  first (filter (λ r, in_chain b k r ∧ is_latest r = true) l).

Definition version_of (b k v : string) (l : list ObjectVersion)
    : option ObjectVersion :=
  first (filter (λ r, in_chain b k r ∧ version_id r = v) l).

Definition demoted (b k : string) (l : list ObjectVersion)
    : list ObjectVersion :=
  match latest_of b k l with
  | Some o => added (set_is_latest false o) l
  | None => l
  end.

Definition next_latest_of (b k v : string) (l : list ObjectVersion)
    : option ObjectVersion :=
  first (order_by_last_modified_desc
           (filter (λ r, in_chain b k r ∧ version_id r ≠ v) l)).

Definition promoted (b k v : string) (l : list ObjectVersion)
    : list ObjectVersion :=
  match next_latest_of b k v l with
  | Some n => added (set_is_latest true n) l
  | None => l
  end.

Definition etag_of (body : list byte) : string :=
  dquote +:+ Hashlib.hex (Hashlib.md5 body) +:+ dquote.

Definition new_object (b k : string) (body : list byte)
    (ct : option string) (u : string) (t : Z) : ObjectVersion :=
  {| id := None; bucket_name := b; key := k; version_id := u;
     is_latest := true; is_delete_marker := false;
     size := Z.of_nat (List.length body); etag := etag_of body;
     last_modified := t;
     content_type := default "application/octet-stream" ct;
     storage_path := Some (locator b k u) |}.

Definition new_delete_marker (b k u : string) (t : Z) : ObjectVersion :=
  {| id := None; bucket_name := b; key := k; version_id := u;
     is_latest := true; is_delete_marker := true; size := 0; etag := "";
     last_modified := t; content_type := "application/octet-stream";
     storage_path := None |}.

Definition with_rows (w : world) (l : list ObjectVersion) : world :=
  {| w_db := {| buckets := buckets (w_db w); object_versions := l |};
     w_files := w_files w |}.

Definition with_blobs (w : world) (fs : filesystem) : world :=
  {| w_db := w_db w; w_files := fs |}.

(** The blob of a row, removed when the row has one. *)
Definition without_blob (r : ObjectVersion) (fs : filesystem) : filesystem :=
  if truthy (storage_path r)
  then delete_physical_file (default "" (storage_path r)) fs
  else fs.

Global Instance ObjectVersion_eq_dec : EqDecision ObjectVersion.
Proof. solve_decision. Defined.

(** Rewriting the current flag of a row, and the flag that singles out one
    row. *)
Definition reflag (f : ObjectVersion → bool) (x : ObjectVersion)
    : ObjectVersion :=
  set_is_latest (f x) x.

Definition flag_at (o : ObjectVersion) (c : bool) (x : ObjectVersion) : bool :=
  if decide (x = o) then c else is_latest x.

(** The flag after a delete by version id: the next row is promoted when
    the deleted row was current. *)
Definition promote_flag (obj : ObjectVersion) (n : option ObjectVersion)
    (x : ObjectVersion) : bool :=
  if decide (is_latest obj = true ∧ n = Some x) then true else is_latest x.

(** The flag after a rollback: among the rows kept, the target alone. *)
Definition rollback_flag (v : string) (kept : list ObjectVersion)
    (x : ObjectVersion) : bool :=
  if decide (x ∈ kept) then bool_decide (version_id x = v) else is_latest x.

Definition rollback_ok (v : string) : http_response :=
  JSONResponse
    [("status", "success");
     ("message", "Rolled back to " +:+ v +:+ ", newer versions deleted.")].

(** The loop of [ui_rollback] on the version table and the blob medium. *)
Fixpoint rollback_scan (v : string) (found : bool) (l : list ObjectVersion)
    (tbl : list ObjectVersion) (fs : filesystem)
    : bool * list ObjectVersion * filesystem :=
  match l with
  | [] => (found, tbl, fs)
  | ver :: l' =>
      if decide (version_id ver = v) then
        rollback_scan v true l' (added (set_is_latest true ver) tbl) fs
      else if negb found then
        rollback_scan v found l' (delete_row ver tbl) (without_blob ver fs)
      else
        rollback_scan v found l'
          (if is_latest ver then added (set_is_latest false ver) tbl else tbl)
          fs
  end.

Fixpoint blobs_removed (l : list ObjectVersion) (fs : filesystem)
    : filesystem :=
  match l with
  | [] => fs
  | r :: l' => blobs_removed l' (without_blob r fs)
  end.

(** Newest first: each row is at least as recent as every row after it. *)
Fixpoint newest_first (l : list ObjectVersion) : Prop :=
  match l with
  | [] => True
  | x :: l' =>
      (∀ y, y ∈ l' → last_modified y ≤ last_modified x) ∧ newest_first l'
  end.

(** ** Invariants of the version table *)

(** What never depends on the current flags: primary keys and version ids
    are not shared, version ids are UUIDs, and a row has a blob exactly when
    it is not a delete marker, at the path derived from its bucket, key and
    version id. *)
Record rows_wf (l : list ObjectVersion) : Prop := {
  wf_ids : NoDup (id <$> l);
  wf_ids_some : Forall (λ r, is_Some (id r)) l;
  wf_vids : NoDup (version_id <$> l);
  wf_uuid : Forall (λ r, uuid_shaped (version_id r) = true) l;
  wf_blob :
    Forall (λ r, storage_path r =
                   if is_delete_marker r then None
                   else Some (locator (bucket_name r) (key r) (version_id r)))
           l
}.

(** Every chain that has a row has exactly one current row. *)
Definition one_latest (l : list ObjectVersion) : Prop :=
  ∀ b k, filter (in_chain b k) l ≠ [] →
         latest_count (filter (in_chain b k) l) = 1%nat.

Record store_inv (w : world) : Prop := {
  inv_wf : rows_wf (rows w);
  inv_latest : one_latest (rows w)
}.


(** ** A sample store

    One bucket, one key written three times. *)
Definition sample_u1 : string := "11111111-1111-4111-8111-111111111111".
Definition sample_u2 : string := "22222222-2222-4222-8222-222222222222".
Definition sample_u3 : string := "33333333-3333-4333-8333-333333333333".
Definition sample_u4 : string := "44444444-4444-4444-8444-444444444444".

Definition sample_w0 : world := (serve empty_world (CreateBucket "b" 0)).1.
Definition sample_w1 : world :=
  (serve sample_w0 (PutObject "b" "k" (bytes_of "A") None sample_u1 1)).1.
Definition sample_w2 : world :=
  (serve sample_w1 (PutObject "b" "k" (bytes_of "B") None sample_u2 2)).1.
Definition sample_w3 : world :=
  (serve sample_w2 (PutObject "b" "k" (bytes_of "C") None sample_u3 3)).1.

Definition sample_requests : list request :=
  [ CreateBucket "b" 0;
    PutObject "b" "k" (bytes_of "A") None sample_u1 1;
    PutObject "b" "k" (bytes_of "B") None sample_u2 2;
    DeleteObject "b" "k" None sample_u3 3;
    Rollback "b" "k" sample_u1;
    DeleteObject "b" "k" (Some sample_u1) "" 5 ].

(** One key written three times within one tick of the clock: the three
    rows carry the same [last_modified]. *)
Definition tied_requests : list request :=
  [ CreateBucket "b" 0;
    PutObject "b" "k" (bytes_of "A") None sample_u1 7;
    PutObject "b" "k" (bytes_of "B") None sample_u2 7;
    PutObject "b" "k" (bytes_of "C") None sample_u3 7 ].

Definition tied_w : world := serve_all empty_world tied_requests.
(** ** Further auxiliary definitions *)

(** The full path of the blob of a row. *)
Definition row_blob_path (r : ObjectVersion) : string :=
  blob_path (bucket_name r) (key r) (version_id r).

(** A bucket name as the router hands it over: a path segment, which is
    not empty and holds no separator. *)
Fixpoint has_sep (s : string) : bool :=
  match s with
  | EmptyString => false
  | String c s' => bool_decide (c = PosixPath.sep) || has_sep s'
  end.

Definition path_segment (s : string) : bool :=
  negb (bool_decide (s = "")) && negb (has_sep s).

(** No blob without a row: every file of the blob medium is the blob of a
    row that is not a delete marker. *)
Definition no_orphans (w : world) : Prop :=
  ∀ p body, w_files w !! p = Some body →
    ∃ r, r ∈ rows w ∧ is_delete_marker r = false ∧ p = row_blob_path r.

(** No row without its blob: every row that is not a delete marker finds
    its content, and carries the digest and the size of that content. *)
Definition blob_intact (w : world) : Prop :=
  ∀ r, r ∈ rows w → is_delete_marker r = false →
    ∃ body, w_files w !! row_blob_path r = Some body
            ∧ etag r = etag_of body
            ∧ size r = Z.of_nat (List.length body).

(** A rollback whose target is in the chain; any request but a rollback. *)
Definition target_known (w : world) (q : request) : Prop :=
  match q with
  | Rollback b k v => v ∈ version_id <$> chain w b k
  | _ => True
  end.

Global Instance target_known_dec w q : Decision (target_known w q).
Proof. destruct q; simpl; apply _. Defined.

Fixpoint targets_known_all (w : world) (qs : list request) : Prop :=
  match qs with
  | [] => True
  | q :: qs' => target_known w q ∧ targets_known_all (serve w q).1 qs'
  end.

Global Instance targets_known_all_dec w qs : Decision (targets_known_all w qs).
Proof.
  revert w. induction qs; intros w; cbn [targets_known_all]; apply _.
Defined.

(** The bucket table: names are not shared, every bucket is versioned, and
    every version row belongs to a bucket of the table. *)
Record buckets_ok (w : world) : Prop := {
  buckets_nodup : NoDup (name <$> buckets (w_db w));
  buckets_versioned :
    Forall (λ b, versioning_enabled b = true) (buckets (w_db w));
  rows_in_buckets : Forall (λ r, bucket_exists w (bucket_name r)) (rows w)
}.

(** The current row of the chain is more recent than every other row. *)
Definition current_is_newest (w : world) (b k : string) : Prop :=
  ∀ o x, o ∈ chain w b k → is_latest o = true → x ∈ chain w b k → x ≠ o →
         last_modified x < last_modified o.

Global Instance current_is_newest_dec w b k :
  Decision (current_is_newest w b k).
Proof.
  refine (cast_if (decide (Forall (λ o, is_latest o = true →
            Forall (λ x, x ≠ o → last_modified x < last_modified o)
                   (chain w b k)) (chain w b k))));
    unfold current_is_newest; rewrite Forall_forall in *.
  - intros o x Ho Hl Hx. specialize (f o Ho Hl).
    rewrite Forall_forall in f. by apply f.
  - intros H. apply n. intros o Ho Hl. apply Forall_forall. intros x Hx.
    by apply H.
Defined.

(** Rows of one key sorted as [order_by_key_last_modified_desc] sorts. *)
Fixpoint key_sorted (l : list ObjectVersion) : Prop :=
  match l with
  | [] => True
  | x :: l' => (∀ y, y ∈ l' → String.le (key x) (key y)) ∧ key_sorted l'
  end.


(** What is assumed of the time a request reads with [datetime.utcnow()]
    when it writes a row: it is later than the time of every row of the
    table. *)
Definition clock_ok (w : world) (q : request) : Prop :=
  match q with
  | PutObject _ _ _ _ _ t => Forall (λ r, last_modified r < t) (rows w)
  | DeleteObject _ _ v _ t =>
      if truthy v then True else Forall (λ r, last_modified r < t) (rows w)
  | _ => True
  end.

Global Instance clock_ok_dec w q : Decision (clock_ok w q).
Proof.
  destruct q as [| | |? ? v ? ?|]; simpl; try apply _.
  destruct (truthy v); apply _.
Defined.

Fixpoint clocks_ok_all (w : world) (qs : list request) : Prop :=
  match qs with
  | [] => True
  | q :: qs' => clock_ok w q ∧ clocks_ok_all (serve w q).1 qs'
  end.

Global Instance clocks_ok_all_dec w qs : Decision (clocks_ok_all w qs).
Proof.
  revert w. induction qs; intros w; cbn [clocks_ok_all]; apply _.
Defined.

(** No two rows were written at the same time, and the current row of a
    key is more recent than every other row of the key. *)
Definition newest_current (l : list ObjectVersion) : Prop :=
  ∀ o x, o ∈ l → x ∈ l →
    bucket_name x = bucket_name o → key x = key o →
    is_latest o = true → x ≠ o → last_modified x < last_modified o.

Record clock_inv (l : list ObjectVersion) : Prop := {
  stamps_nodup : NoDup (last_modified <$> l);
  current_newest : newest_current l
}.
(** ** The digest computer *)

Section Digest.

(** The test suite of RFC 1321. *)
Example md5_empty :
  Hashlib.hex (Hashlib.md5 []) = "d41d8cd98f00b204e9800998ecf8427e".
Proof. by vm_compute. Qed.

Example md5_abc :
  Hashlib.hex (Hashlib.md5 (bytes_of "abc"))
    = "900150983cd24fb0d6963f7d28e17f72".
Proof. by vm_compute. Qed.

Example md5_message_digest :
  Hashlib.hex (Hashlib.md5 (bytes_of "message digest"))
    = "f96b697d7cb7938d525a2f31aaf161d0".
Proof. by vm_compute. Qed.

Example md5_two_blocks :
  Hashlib.hex
    (Hashlib.md5
       (bytes_of ("1234567890123456789012345678901234567890"
                    +:+ "1234567890123456789012345678901234567890")))
    = "57edf4a22be3c955ac49da2e2107b67a".
Proof. by vm_compute. Qed.

Lemma read_chunks_all n fuel f h :
  (0 < n)%nat →
  (List.length (skipn (pos f) (buf f)) < fuel)%nat →
  read_chunks n fuel f h =
    ({| buf := buf f;
        pos := (pos f + List.length (skipn (pos f) (buf f)))%nat |},
     {| Hashlib.fed := Hashlib.fed h ++ skipn (pos f) (buf f) |}).
Proof.
  intros Hn. revert f h.
  induction fuel as [|fuel IH]; intros [bs p] h Hfuel; [lia|].
  cbn [read_chunks read buf pos] in *.
  destruct (firstn n (skipn p bs)) as [|c chunk] eqn:Hchunk.
  - assert (skipn p bs = []) as ->.
    { destruct n; [lia|]. destruct (skipn p bs); [done|discriminate]. }
    cbn. rewrite app_nil_r. by destruct h.
  - pose proof (firstn_skipn n (skipn p bs)) as Hsplit.
    rewrite Hchunk in Hsplit.
    assert (skipn (p + List.length (c :: chunk)) bs
            = skipn n (skipn p bs)) as Hrest.
    { rewrite <- Hchunk, !skipn_skipn, length_firstn, length_skipn.
      destruct (decide (n ≤ List.length bs - p)%nat).
      - f_equal. lia.
      - rewrite !skipn_all2 by lia. done. }
    rewrite IH; cbn [buf pos Hashlib.update Hashlib.fed].
    + rewrite Hrest. f_equal.
      * f_equal. rewrite <- Hsplit at 2. rewrite length_app. lia.
      * f_equal. rewrite <- Hsplit at 2. by rewrite <- app_assoc.
    + rewrite Hrest. rewrite <- Hsplit in Hfuel.
      rewrite length_app in Hfuel. cbn [List.length] in *. lia.
Qed.

(** The ETag is the quoted hexadecimal MD5 of the whole buffer, wherever
    the cursor was, and the cursor is left at the start. *)
Lemma calculate_etag_spec f :
  calculate_etag f =
    (dquote +:+ Hashlib.hex (Hashlib.md5 (buf f)) +:+ dquote,
     {| buf := buf f; pos := 0 |}).
Proof.
  unfold calculate_etag. destruct f as [bs p].
  rewrite read_chunks_all; cbn [seek buf pos]; rewrite ?drop_0; [done|lia|lia].
Qed.

Lemma le_bytes_length n x : List.length (Hashlib.le_bytes n x) = n.
Proof. revert x. induction n; intros; cbn; [done|]. by rewrite IHn. Qed.

Lemma md5_length msg : List.length (Hashlib.md5 msg) = 16%nat.
Proof.
  unfold Hashlib.md5.
  destruct (Hashlib.blocks _ _ _) as [[[a b] c] d].
  rewrite !length_app, !le_bytes_length. done.
Qed.

Lemma unhex_hex bs : unhex (Hashlib.hex bs) = bs.
Proof.
  induction bs as [|b bs IH]; [done|].
  cbn [Hashlib.hex unhex]. rewrite IH. f_equal.
  destruct b; vm_compute; reflexivity.
Qed.

Lemma hex_inj bs1 bs2 : Hashlib.hex bs1 = Hashlib.hex bs2 → bs1 = bs2.
Proof. intros H. rewrite <- (unhex_hex bs1), H. apply unhex_hex. Qed.

Lemma hex_length bs :
  String.length (Hashlib.hex bs) = (2 * List.length bs)%nat.
Proof. induction bs; cbn; [done|]. rewrite IHbs. lia. Qed.

Lemma hex_chars bs :
  Forall (λ c, is_hex_char c = true) (list_ascii_of_string (Hashlib.hex bs)).
Proof.
  induction bs as [|b bs IH]; cbn; [constructor|].
  repeat constructor; [destruct b; vm_compute; reflexivity ..|done].
Qed.

End Digest.

(** ** Strings and paths *)

Section Paths.

Import PosixPath.

Lemma string_app_cons c s t : String c s +:+ t = String c (s +:+ t).
Proof. reflexivity. Qed.

Lemma string_app_nil_l t : "" +:+ t = t.
Proof. reflexivity. Qed.

Lemma string_app_nil_r s : s +:+ "" = s.
Proof.
  induction s as [|c s IH]; [done|]. by rewrite string_app_cons, IH.
Qed.

Lemma string_app_assoc s1 s2 s3 : (s1 +:+ s2) +:+ s3 = s1 +:+ (s2 +:+ s3).
Proof.
  induction s1 as [|c s1 IH]; [done|]. by rewrite !string_app_cons, IH.
Qed.

Lemma string_app_length s1 s2 :
  String.length (s1 +:+ s2) = (String.length s1 + String.length s2)%nat.
Proof.
  induction s1 as [|c s1 IH]; [done|].
  rewrite string_app_cons. cbn. by rewrite IH.
Qed.

Lemma string_app_inj_suffix s1 s2 t1 t2 :
  String.length t1 = String.length t2 → s1 +:+ t1 = s2 +:+ t2 → t1 = t2.
Proof.
  revert s2. induction s1 as [|c s1 IH]; intros [|d s2] Hlen Heq;
    rewrite ?string_app_cons, ?string_app_nil_l in Heq.
  - done.
  - subst t1. cbn in Hlen. rewrite string_app_length in Hlen. lia.
  - subst t2. cbn in Hlen. rewrite string_app_length in Hlen. lia.
  - injection Heq as _ Heq. by apply (IH s2).
Qed.

Lemma string_app_inj_prefix s1 s2 t1 t2 :
  String.length s1 = String.length s2 → s1 +:+ t1 = s2 +:+ t2 → s1 = s2.
Proof.
  revert s2. induction s1 as [|c s1 IH]; intros [|d s2] Hlen Heq; try done.
  rewrite !string_app_cons in Heq. injection Heq as -> Heq.
  f_equal. apply IH; [|done]. cbn in Hlen. lia.
Qed.

Lemma endswith_sep_app s t :
  endswith_sep (s +:+ t) =
    if bool_decide (t = "") then endswith_sep s else endswith_sep t.
Proof.
  destruct t as [|d t]; [by rewrite string_app_nil_r|].
  rewrite bool_decide_false by done.
  induction s as [|c s IH]; [done|].
  rewrite string_app_cons. cbn [endswith_sep]. rewrite IH.
  destruct s; done.
Qed.

Lemma startswith_sep_app s t :
  startswith_sep (s +:+ t) =
    if bool_decide (s = "") then startswith_sep t else startswith_sep s.
Proof. by destruct s. Qed.

Lemma join2_glue path b :
  startswith_sep b = false → join2 path b = path +:+ glue path +:+ b.
Proof.
  intros Hb. unfold join2, glue. rewrite Hb.
  by destruct (bool_decide (path = "") || endswith_sep path).
Qed.

Lemma glue_app_cons r c p : glue (r +:+ String c p) = glue (String c p).
Proof.
  unfold glue. rewrite endswith_sep_app.
  rewrite !(bool_decide_false (String c p = "")) by done.
  rewrite bool_decide_false; [done|]. by destruct r.
Qed.

Lemma glue_glue r : glue (r +:+ glue r) = "".
Proof.
  unfold glue at 2.
  destruct (bool_decide (r = "") || endswith_sep r) eqn:Hr.
  - rewrite string_app_nil_r. unfold glue. by rewrite Hr.
  - rewrite glue_app_cons. done.
Qed.

Lemma join2_assoc r p x :
  startswith_sep x = false → join2 r (join2 p x) = join2 (join2 r p) x.
Proof.
  intros Hx. rewrite (join2_glue p x) by done.
  destruct (startswith_sep p) eqn:Hp.
  - (* [p] restarts the path *)
    assert (join2 r p = p) as -> by (unfold join2; by rewrite Hp).
    rewrite (join2_glue p x) by done.
    unfold join2 at 1. rewrite startswith_sep_app.
    destruct p; [done|]. rewrite bool_decide_false by done. by rewrite Hp.
  - destruct p as [|c p].
    + (* an empty component *)
      change (glue "") with "". rewrite !string_app_nil_l.
      rewrite (join2_glue r "") by done. rewrite string_app_nil_r.
      rewrite !join2_glue by done.
      rewrite glue_glue, string_app_nil_l. by rewrite string_app_assoc.
    + rewrite (join2_glue r) by (by rewrite startswith_sep_app).
      rewrite (join2_glue r (String c p)) by done.
      rewrite (join2_glue _ x) by done.
      rewrite <- !string_app_assoc, glue_app_cons.
      by rewrite !string_app_assoc.
Qed.

Lemma hex_not_sep bs : startswith_sep (Hashlib.hex bs) = false.
Proof. destruct bs as [|b bs]; [done|]. destruct b; reflexivity. Qed.

Lemma hex_char_not_sep c : is_hex_char c = true → bool_decide (c = sep) = false.
Proof.
  intros Hc. apply bool_decide_eq_false. intros ->.
  vm_compute in Hc. discriminate.
Qed.

Lemma uuid_shaped_length u : uuid_shaped u = true → String.length u = 36%nat.
Proof.
  unfold uuid_shaped. intros [Hl _]%andb_prop.
  by apply bool_decide_eq_true in Hl.
Qed.

Lemma uuid_shaped_not_sep u : uuid_shaped u = true → startswith_sep u = false.
Proof.
  unfold uuid_shaped. intros [_ Hc]%andb_prop.
  destruct u as [|c u]; [done|].
  cbn in Hc. apply andb_prop in Hc as [Hc _].
  by apply hex_char_not_sep.
Qed.

Lemma uuid_shaped_nonempty u : uuid_shaped u = true → u ≠ "".
Proof. by intros Hu ->. Qed.

(** [get_file_content] and [delete_physical_file] look where [save_file]
    wrote. *)
Lemma get_file_path_locator b k v :
  startswith_sep v = false → get_file_path (locator b k v) = blob_path b k v.
Proof.
  intros Hv. unfold get_file_path, locator, blob_path, join.
  cbn [fold_left].
  rewrite join2_assoc by done.
  rewrite join2_assoc by apply hex_not_sep. done.
Qed.

Lemma blob_path_suffix b k v :
  startswith_sep v = false → ∃ pre, blob_path b k v = pre +:+ v.
Proof.
  intros Hv. unfold blob_path, join. cbn [fold_left].
  rewrite (join2_glue _ v) by done.
  eexists. by rewrite <- string_app_assoc.
Qed.

(** Blobs of different versions never share a path. *)
Lemma blob_path_inj b1 k1 v1 b2 k2 v2 :
  uuid_shaped v1 = true → uuid_shaped v2 = true →
  blob_path b1 k1 v1 = blob_path b2 k2 v2 → v1 = v2.
Proof.
  intros H1 H2 Heq.
  destruct (blob_path_suffix b1 k1 v1) as [p1 E1];
    [by apply uuid_shaped_not_sep|].
  destruct (blob_path_suffix b2 k2 v2) as [p2 E2];
    [by apply uuid_shaped_not_sep|].
  rewrite E1, E2 in Heq.
  eapply string_app_inj_suffix; [|done].
  by rewrite !uuid_shaped_length.
Qed.

End Paths.

(** ** The routes in closed form *)

Section Routes.

Lemma world_eta w : {| w_db := w_db w; w_files := w_files w |} = w.
Proof. by destruct w. Qed.

Lemma first_bucket_Some w b :
  bucket_exists w b →
  ∃ bk, first (filter (λ b0, name b0 = b) (buckets (w_db w))) = Some bk.
Proof.
  unfold bucket_exists. intros (bk & -> & Hin)%list_elem_of_fmap.
  destruct (filter (λ b0, name b0 = name bk) (buckets (w_db w))) as [|x l]
    eqn:Hf; [|by exists x].
  assert (bk ∈ filter (λ b0, name b0 = name bk) (buckets (w_db w))) as Hbk
    by (by apply list_elem_of_filter).
  rewrite Hf in Hbk. by apply not_elem_of_nil in Hbk.
Qed.

Lemma first_bucket_None w b :
  ¬ bucket_exists w b →
  first (filter (λ b0, name b0 = b) (buckets (w_db w))) = None.
Proof.
  intros Hno.
  destruct (filter (λ b0, name b0 = b) (buckets (w_db w))) as [|x l]
    eqn:Hf; [done|].
  exfalso. apply Hno.
  assert (x ∈ filter (λ b0, name b0 = b) (buckets (w_db w))) as Hx
    by (rewrite Hf; left).
  apply list_elem_of_filter in Hx as [<- Hx].
  apply list_elem_of_fmap. eauto.
Qed.

Ltac run_route :=
  unfold serve, run_request, route, mbind, handler_bind, mret, handler_ret,
    select_buckets, select_versions, session_add, session_delete,
    session_commit, session_add_bucket, on_files, with_files, read_files,
    raise_http, skip, with_versions, open_session;
  cbn [committed session files commits fst snd buckets object_versions].

Lemma serve_put_object w b k body ct u t :
  bucket_exists w b →
  serve w (PutObject b k body ct u t) =
    (with_blobs
       (with_rows w (added (new_object b k body ct u t)
                              (demoted b k (rows w))))
       (<[blob_path b k u := body]> (w_files w)),
     Response 200 [("x-amz-version-id", u); ("ETag", etag_of body)]).
Proof.
  intros [bk Hbk]%first_bucket_Some.
  run_route. unfold put_object. run_route. rewrite Hbk.
  rewrite calculate_etag_spec. cbn [buf pos].
  unfold save_file, read_all. cbn [buf pos fst snd]. rewrite drop_0.
  run_route.
  unfold with_blobs, with_rows, demoted, latest_of, rows.
  destruct (first (filter _ (object_versions (w_db w)))) as [o|];
    reflexivity.
Qed.


Lemma serve_put_object_no_bucket w b k body ct u t :
  ¬ bucket_exists w b →
  serve w (PutObject b k body ct u t) = (w, HTTPException 404 "NoSuchBucket").
Proof.
  intros Hb%first_bucket_None.
  run_route. unfold put_object. run_route. rewrite Hb. run_route.
  by rewrite world_eta.
Qed.

Lemma serve_create_bucket w b t :
  serve w (CreateBucket b t) =
    if decide (bucket_exists w b)
    then (w, HTTPException 409 "BucketAlreadyExists")
    else ({| w_db :=
               {| buckets := buckets (w_db w) ++
                    [{| name := b; creation_date := t;
                        versioning_enabled := true |}];
                  object_versions := rows w |};
             w_files := w_files w |}, Response 200 []).
Proof.
  run_route. unfold create_bucket. run_route.
  destruct (decide (bucket_exists w b)) as [Hb|Hb].
  - apply first_bucket_Some in Hb as [bk ->]. run_route.
    by rewrite world_eta.
  - apply first_bucket_None in Hb as ->. done.
Qed.

(** [delete_object] without a version id: a delete marker is written. *)
Lemma serve_delete_marker w b k v u t :
  truthy v = false → bucket_exists w b →
  serve w (DeleteObject b k v u t) =
    (with_rows w (added (new_delete_marker b k u t) (demoted b k (rows w))),
     Response 204 [("x-amz-version-id", u); ("x-amz-delete-marker", "true")]).
Proof.
  intros Hv [bk Hbk]%first_bucket_Some.
  run_route. unfold delete_object. rewrite Hv. run_route. rewrite Hbk.
  run_route. unfold with_rows, demoted, latest_of, rows.
  destruct (first (filter _ (object_versions (w_db w)))) as [o|];
    reflexivity.
Qed.

Lemma serve_delete_marker_no_bucket w b k v u t :
  truthy v = false → ¬ bucket_exists w b →
  serve w (DeleteObject b k v u t) = (w, HTTPException 404 "NoSuchBucket").
Proof.
  intros Hv Hb%first_bucket_None.
  run_route. unfold delete_object. rewrite Hv. run_route. rewrite Hb.
  run_route. by rewrite world_eta.
Qed.

(** [delete_object] with a version id. *)
Lemma serve_delete_version w b k v u t :
  v ≠ "" →
  serve w (DeleteObject b k (Some v) u t) =
    match version_of b k v (rows w) with
    | Some obj =>
        (with_blobs
           (with_rows w
              (delete_row obj
                 (if is_latest obj then promoted b k v (rows w) else rows w)))
           (without_blob obj (w_files w)),
         Response 204 [])
    | None => (w, Response 204 [])
    end.
Proof.
  intros Hv.
  assert (truthy (Some v) = true) as Ht
    by (cbn; by rewrite bool_decide_false).
  run_route. unfold delete_object. rewrite Ht. run_route.
  cbn [default]. unfold version_of, rows.
  destruct (first (filter _ (object_versions (w_db w)))) as [obj|];
    [|run_route; by rewrite world_eta].
  unfold with_blobs, with_rows, promoted, next_latest_of, without_blob, rows.
  destruct (is_latest obj); run_route.
  - destruct (first (order_by_last_modified_desc _)) as [n|];
      destruct (truthy (storage_path obj)); reflexivity.
  - destruct (truthy (storage_path obj)); reflexivity.
Qed.

Lemma serve_get_object w b k v :
  serve w (GetObject b k v) =
    (w,
     match (if truthy v then version_of b k (default "" v) (rows w)
            else latest_of b k (rows w)) with
     | None => HTTPException 404 "NoSuchKey"
     | Some obj =>
         if is_delete_marker obj then HTTPException 404 "NoSuchKey"
         else match storage_path obj with
              | None => HTTPException 500 "Internal Server Error"
              | Some p =>
                  match w_files w !! get_file_path p with
                  | None =>
                      HTTPException 500 "InternalError: File missing on disk"
                  | Some content =>
                      StreamingResponse content
                        [("x-amz-version-id", version_id obj);
                         ("ETag", etag obj);
                         ("Content-Type", content_type obj);
                         ("Content-Length", pretty (size obj))]
                  end
              end
     end).
Proof.
  run_route. unfold get_object, version_of, latest_of, rows.
  destruct (truthy v); run_route;
    (destruct (first (filter _ (object_versions (w_db w)))) as [obj|];
       [|run_route; by rewrite world_eta]);
    (destruct (is_delete_marker obj); [run_route; by rewrite world_eta|]);
    run_route;
    (destruct (storage_path obj) as [p|];
       [|run_route; by rewrite world_eta]);
    unfold get_file_content;
    (destruct (w_files w !! get_file_path p); run_route;
       by rewrite world_eta).
Qed.

Lemma rollback_body_run v found ver s :
  rollback_body v found ver s =
    let tbl := object_versions (session s) in
    (Return (if decide (version_id ver = v) then true else found),
     {| committed := committed s;
        session :=
          {| buckets := buckets (session s);
             object_versions :=
               if decide (version_id ver = v)
               then added (set_is_latest true ver) tbl
               else if negb found then delete_row ver tbl
               else if is_latest ver
                    then added (set_is_latest false ver) tbl else tbl |};
        files :=
          if decide (version_id ver = v) then files s
          else if negb found then without_blob ver (files s)
          else files s;
        commits := commits s |}).
Proof.
  unfold rollback_body, without_blob.
  destruct (decide (version_id ver = v)); [by run_route|].
  destruct found; cbn [negb].
  - destruct (is_latest ver); run_route; [done|].
    by destruct s as [c [bs ovs] fs cm].
  - by destruct (truthy (storage_path ver)); run_route.
Qed.

Lemma for_each_rollback l v found s :
  for_each l (rollback_body v) found s =
    let '(fnd, tbl, fs) :=
      rollback_scan v found l (object_versions (session s)) (files s) in
    (Return fnd,
     {| committed := committed s;
        session := {| buckets := buckets (session s);
                      object_versions := tbl |};
        files := fs; commits := commits s |}).
Proof.
  revert found s. induction l as [|ver l IH]; intros found s.
  - cbn. by destruct s as [c [bs ovs] fs cm].
  - cbn [for_each rollback_scan]. unfold mbind, handler_bind.
    rewrite rollback_body_run. lazy beta iota zeta. rewrite IH.
    cbn [committed session files commits buckets object_versions].
    destruct (decide (version_id ver = v)); [done|].
    by destruct found.
Qed.

Lemma serve_rollback w b k v :
  serve w (Rollback b k v) =
    let '(fnd, tbl, fs) :=
      rollback_scan v false (order_by_last_modified_desc (chain w b k))
        (rows w) (w_files w) in
    if fnd then
      (with_blobs (with_rows w tbl) fs,
       JSONResponse
         [("status", "success");
          ("message", "Rolled back to " +:+ v
                        +:+ ", newer versions deleted.")])
    else
      (with_blobs w fs,
       HTTPException 404 "Target version not found in history").
Proof.
  run_route. unfold ui_rollback. run_route.
  rewrite for_each_rollback.
  cbn [committed session files commits object_versions].
  unfold chain, rows.
  destruct (rollback_scan _ _ _ _ _) as [[fnd tbl] fs].
  by destruct fnd.
Qed.

End Routes.

(** ** The version table under updates *)

Section Tables.

Lemma filter_ext_elem {A} (P Q : A → Prop) `{∀ x, Decision (P x)}
    `{∀ x, Decision (Q x)} (l : list A) :
  (∀ x, x ∈ l → (P x ↔ Q x)) → filter P l = filter Q l.
Proof.
  induction l as [|a l IH]; intros Hext; [done|].
  rewrite !filter_cons.
  rewrite IH by (intros; apply Hext; by right).
  destruct (decide (P a)) as [HP|HP], (decide (Q a)) as [HQ|HQ];
    try done; exfalso; apply (Hext a) in HP || apply (Hext a) in HQ;
    done || left.
Qed.

Lemma fmap_ext_elem {A B} (f g : A → B) (l : list A) :
  (∀ x, x ∈ l → f x = g x) → f <$> l = g <$> l.
Proof. intros Hext. apply Forall_fmap_ext_1, Forall_forall, Hext. Qed.

Implicit Types (l : list ObjectVersion) (x o r : ObjectVersion).

Lemma set_is_latest_same x : set_is_latest (is_latest x) x = x.
Proof. by destruct x. Qed.

Lemma reflag_same l : reflag is_latest <$> l = l.
Proof.
  induction l as [|x l IH]; [done|].
  cbn. unfold reflag at 1. by rewrite set_is_latest_same, IH.
Qed.

(** Rows are told apart by any column that has no repeated value: the
    primary key, the version id, and the timestamp where timestamps differ. *)
Lemma by_field {B} (g : ObjectVersion → B) l x o :
  NoDup (g <$> l) → x ∈ l → o ∈ l → g x = g o → x = o.
Proof.
  induction l as [|a l IH]; intros Hnd Hx Ho Hg;
    [by apply not_elem_of_nil in Hx|].
  cbn in Hnd. apply NoDup_cons in Hnd as [Ha Hnd].
  apply elem_of_cons in Hx as [->|Hx];
    apply elem_of_cons in Ho as [->|Ho]; try done.
  - exfalso. apply Ha. rewrite Hg. by apply list_elem_of_fmap_2.
  - exfalso. apply Ha. rewrite <- Hg. by apply list_elem_of_fmap_2.
  - by apply IH.
Qed.

Lemma by_id l x o :
  NoDup (id <$> l) → x ∈ l → o ∈ l → id x = id o → x = o.
Proof. apply by_field. Qed.

Lemma by_version_id l x o :
  NoDup (version_id <$> l) → x ∈ l → o ∈ l →
  version_id x = version_id o → x = o.
Proof. apply by_field. Qed.

(** [session.add] of a fetched row whose flag was set. *)
Lemma added_existing l o c :
  NoDup (id <$> l) → is_Some (id o) → o ∈ l →
  added (set_is_latest c o) l = reflag (flag_at o c) <$> l.
Proof.
  intros Hnd [i Hi] Ho. unfold added, update_row. cbn [id set_is_latest].
  rewrite Hi. apply fmap_ext_elem. intros x Hx.
  unfold reflag, flag_at. rewrite <- Hi.
  destruct (decide (id x = id o)) as [Hid|Hid].
  - apply (by_id l) in Hid as ->; [|done..]. by rewrite decide_True.
  - rewrite decide_False by congruence. by rewrite set_is_latest_same.
Qed.

(** [session.delete] of a fetched row. *)
Lemma delete_row_existing l o :
  NoDup (id <$> l) → o ∈ l → delete_row o l = filter (λ x, x ≠ o) l.
Proof.
  intros Hnd Ho. unfold delete_row. apply filter_ext_elem.
  intros x Hx. split; [congruence|].
  intros Hne Hid. apply Hne. by apply (by_id l).
Qed.

Lemma delete_row_reflag f l o :
  delete_row o (reflag f <$> l) = reflag f <$> delete_row o l.
Proof.
  unfold delete_row. induction l as [|x l IH]; [done|].
  cbn [fmap list_fmap]. rewrite !filter_cons. cbn [id reflag set_is_latest].
  destruct (decide (id x ≠ id o)); cbn [fmap list_fmap]; by rewrite IH.
Qed.

Lemma filter_reflag (P : ObjectVersion → Prop) `{∀ x, Decision (P x)} f l :
  (∀ x c, P (set_is_latest c x) ↔ P x) →
  filter P (reflag f <$> l) = reflag f <$> filter P l.
Proof.
  intros HP. induction l as [|x l IH]; [done|].
  cbn [fmap list_fmap]. rewrite !filter_cons.
  destruct (decide (P (reflag f x))) as [H1|H1],
           (decide (P x)) as [H2|H2]; cbn [fmap list_fmap];
    rewrite ?IH; try done; exfalso; unfold reflag in H1;
    apply HP in H1 || apply H1, HP; done.
Qed.

Lemma in_chain_set_is_latest b k x c :
  in_chain b k (set_is_latest c x) ↔ in_chain b k x.
Proof. done. Qed.

Lemma chain_reflag b k f l :
  filter (in_chain b k) (reflag f <$> l) = reflag f <$> filter (in_chain b k) l.
Proof. apply filter_reflag. intros. apply in_chain_set_is_latest. Qed.

Lemma latest_count_reflag f l :
  latest_count (reflag f <$> l) = List.length (filter (λ x, f x = true) l).
Proof.
  unfold latest_count. induction l as [|x l IH]; [done|].
  cbn [fmap list_fmap]. rewrite !filter_cons. cbn [is_latest reflag set_is_latest].
  destruct (decide (f x = true)); cbn [List.length]; by rewrite IH.
Qed.

Lemma latest_count_app l1 l2 :
  latest_count (l1 ++ l2) = (latest_count l1 + latest_count l2)%nat.
Proof. unfold latest_count. by rewrite filter_app, length_app. Qed.

Lemma latest_count_demoted_all l : latest_count (set_is_latest false <$> l) = 0%nat.
Proof.
  change (set_is_latest false) with (reflag (λ _, false)).
  rewrite latest_count_reflag.
  induction l as [|x l IH]; [done|]. by rewrite filter_cons_False.
Qed.

(** *** Primary keys *)

Lemma id_lt_next_id l x n : x ∈ l → id x = Some n → (n < next_id l)%nat.
Proof.
  unfold next_id. induction l as [|a l IH]; intros Hx Hn;
    [by apply not_elem_of_nil in Hx|].
  cbn [foldr]. apply elem_of_cons in Hx as [->|Hx].
  - rewrite Hn. cbn. lia.
  - specialize (IH Hx Hn). lia.
Qed.

Lemma next_id_fresh l : Some (next_id l) ∉ id <$> l.
Proof.
  intros (x & Hid & Hx)%list_elem_of_fmap.
  pose proof (id_lt_next_id l x (next_id l) Hx (eq_sym Hid)). lia.
Qed.

(** *** Well-formed tables stay well formed *)

Lemma fmap_reflag {B} (g : ObjectVersion → B) f l :
  (∀ x c, g (set_is_latest c x) = g x) → g <$> (reflag f <$> l) = g <$> l.
Proof.
  intros Hg. rewrite <- list_fmap_compose. apply fmap_ext_elem.
  intros x _. apply Hg.
Qed.

Lemma rows_wf_reflag f l : rows_wf l → rows_wf (reflag f <$> l).
Proof.
  intros [H1 H2 H3 H4 H5]. split.
  - by rewrite fmap_reflag.
  - apply Forall_fmap. eapply Forall_impl; [exact H2|]. by intros x.
  - by rewrite fmap_reflag.
  - apply Forall_fmap. eapply Forall_impl; [exact H4|]. by intros x.
  - apply Forall_fmap. eapply Forall_impl; [exact H5|]. by intros x.
Qed.

Lemma NoDup_fmap_filter {B} (g : ObjectVersion → B)
    (P : ObjectVersion → Prop) `{∀ x, Decision (P x)} l :
  NoDup (g <$> l) → NoDup (g <$> filter P l).
Proof.
  induction l as [|x l IH]; intros Hnd; [done|].
  cbn in Hnd. apply NoDup_cons in Hnd as [Hx Hnd].
  rewrite filter_cons. destruct (decide (P x)); [|by apply IH].
  cbn. apply NoDup_cons. split; [|by apply IH].
  intros (y & Hy & Hin)%list_elem_of_fmap.
  apply list_elem_of_filter in Hin as [_ Hin].
  apply Hx. rewrite Hy. by apply list_elem_of_fmap_2.
Qed.

Lemma Forall_filter_keep {A} (Q P : A → Prop) `{∀ a, Decision (P a)}
    (l : list A) :
  Forall Q l → Forall Q (filter P l).
Proof.
  rewrite !Forall_forall. intros HQ a [_ Ha]%list_elem_of_filter. by apply HQ.
Qed.

Lemma rows_wf_filter (P : ObjectVersion → Prop) `{∀ x, Decision (P x)} l :
  rows_wf l → rows_wf (filter P l).
Proof.
  intros [H1 H2 H3 H4 H5].
  split; by apply NoDup_fmap_filter || apply Forall_filter_keep.
Qed.

Lemma rows_wf_added_new r l :
  rows_wf l → id r = None →
  uuid_shaped (version_id r) = true → version_id r ∉ version_id <$> l →
  storage_path r =
    (if is_delete_marker r then None
     else Some (locator (bucket_name r) (key r) (version_id r))) →
  rows_wf (added r l).
Proof.
  intros [H1 H2 H3 H4 H5] Hid Hu Hv Hp. unfold added. rewrite Hid.
  split; rewrite ?fmap_app; cbn [fmap list_fmap id version_id set_id].
  - apply NoDup_app. split; [done|]. split; [|apply NoDup_singleton].
    intros i Hi ->%list_elem_of_singleton. by apply next_id_fresh in Hi.
  - apply Forall_app. split; [done|]. by repeat constructor.
  - apply NoDup_app. split; [done|]. split; [|apply NoDup_singleton].
    by intros i Hi ->%list_elem_of_singleton.
  - apply Forall_app. split; [done|]. by repeat constructor.
  - apply Forall_app. split; [done|]. by repeat constructor.
Qed.

(** *** The ordered scan *)

Lemma insert_desc_elem x r l : x ∈ insert_desc r l ↔ x = r ∨ x ∈ l.
Proof.
  induction l as [|a l IH]; cbn [insert_desc].
  - rewrite list_elem_of_singleton, elem_of_nil. tauto.
  - destruct (last_modified a <=? last_modified r).
    + by rewrite elem_of_cons.
    + rewrite !elem_of_cons, IH. tauto.
Qed.

Lemma order_by_elem x l : x ∈ order_by_last_modified_desc l ↔ x ∈ l.
Proof.
  induction l as [|a l IH]; [done|].
  cbn [order_by_last_modified_desc foldr].
  rewrite insert_desc_elem, elem_of_cons.
  unfold order_by_last_modified_desc in IH. by rewrite IH.
Qed.

Lemma insert_desc_newest_first r l :
  newest_first l → newest_first (insert_desc r l).
Proof.
  induction l as [|a l IH]; intros Hs; cbn [insert_desc].
  - split; [|done]. by intros y Hy%elem_of_nil.
  - destruct Hs as [Ha Hs].
    destruct (last_modified a <=? last_modified r) eqn:Hle.
    + apply Z.leb_le in Hle. split; [|by split].
      intros y [->|Hy]%elem_of_cons; [done|].
      specialize (Ha y Hy). lia.
    + apply Z.leb_gt in Hle. split; [|by apply IH].
      intros y [->|Hy]%insert_desc_elem; [lia|by apply Ha].
Qed.

Lemma order_by_newest_first l : newest_first (order_by_last_modified_desc l).
Proof.
  induction l as [|a l IH]; [done|]. by apply insert_desc_newest_first.
Qed.

End Tables.

(** ** The scan of [ui_rollback] *)

Section Scan.

Lemma first_filter_Some {A} (P : A → Prop) `{∀ a, Decision (P a)}
    (l : list A) (a : A) :
  first (filter P l) = Some a → P a ∧ a ∈ l.
Proof. intros Ha%head_Some_elem_of. by apply list_elem_of_filter in Ha. Qed.

Lemma first_filter_None {A} (P : A → Prop) `{∀ a, Decision (P a)}
    (l : list A) :
  first (filter P l) = None → ∀ a, a ∈ l → ¬ P a.
Proof.
  intros Hnil%head_None a Ha HP. by apply (filter_nil_not_elem_of P l a).
Qed.

Lemma filter_all {A} (P : A → Prop) `{∀ a, Decision (P a)} (l : list A) :
  (∀ a, a ∈ l → P a) → filter P l = l.
Proof.
  induction l as [|a l IH]; intros HP; [done|].
  rewrite filter_cons_True by (apply HP; left).
  rewrite IH; [done|]. intros; apply HP; by right.
Qed.

Implicit Types (l tbl : list ObjectVersion) (x o r : ObjectVersion).

Lemma insert_desc_perm r l : insert_desc r l ≡ₚ r :: l.
Proof.
  induction l as [|a l IH]; cbn [insert_desc]; [done|].
  destruct (last_modified a <=? last_modified r); [done|].
  rewrite IH. apply Permutation_swap.
Qed.

Lemma order_by_perm l : order_by_last_modified_desc l ≡ₚ l.
Proof.
  induction l as [|a l IH]; [done|].
  cbn [order_by_last_modified_desc foldr]. rewrite insert_desc_perm.
  by apply Permutation_skip.
Qed.

Lemma split_first_version v l :
  (∃ x, x ∈ l ∧ version_id x = v) →
  ∃ newer tgt older,
    l = newer ++ tgt :: older ∧ version_id tgt = v
    ∧ ∀ x, x ∈ newer → version_id x ≠ v.
Proof.
  induction l as [|a l IH]; intros (x & Hx & Hv);
    [by apply elem_of_nil in Hx|].
  destruct (decide (version_id a = v)) as [Ha|Ha].
  - exists [], a, l. split; [done|]. split; [done|].
    by intros y Hy%elem_of_nil.
  - apply elem_of_cons in Hx as [->|Hx]; [done|].
    destruct IH as (newer & tgt & older & -> & Ht & Hn); [by exists x|].
    exists (a :: newer), tgt, older. split; [done|]. split; [done|].
    intros y [->|Hy]%elem_of_cons; [done|by apply Hn].
Qed.

Lemma reflag_reflag f g l :
  reflag f <$> (reflag g <$> l) = reflag (λ x, f (reflag g x)) <$> l.
Proof. rewrite <- list_fmap_compose. by apply fmap_ext_elem. Qed.

Lemma reflag_ext f g l :
  (∀ x, x ∈ l → f x = g x) → reflag f <$> l = reflag g <$> l.
Proof.
  intros Hfg. apply fmap_ext_elem. intros x Hx. unfold reflag.
  by rewrite Hfg.
Qed.

Lemma reflag_flag_at_other o c x : x ≠ o → reflag (flag_at o c) x = x.
Proof.
  intros Hne. unfold reflag, flag_at. rewrite decide_False by done.
  apply set_is_latest_same.
Qed.

(** The two [session.add] of the loop set the flag of one fetched row. *)
Lemma rollback_flag_row v o tbl :
  NoDup (id <$> tbl) → is_Some (id o) → o ∈ tbl →
  (if decide (version_id o = v) then added (set_is_latest true o) tbl
   else if is_latest o then added (set_is_latest false o) tbl else tbl)
  = reflag (flag_at o (bool_decide (version_id o = v))) <$> tbl.
Proof.
  intros Hnd Hid Ho.
  destruct (decide (version_id o = v)) as [Hv|Hv].
  - rewrite bool_decide_true by done. by apply added_existing.
  - rewrite bool_decide_false by done.
    destruct (is_latest o) eqn:Hl; [by apply added_existing|].
    rewrite <- (reflag_same tbl) at 1. apply reflag_ext.
    intros x _. unfold flag_at. by case_decide; subst.
Qed.

(** Once the target was met, every row still to come keeps its row and is
    current exactly when it carries the target version id. *)
Lemma rollback_scan_after v l tbl fs :
  NoDup (id <$> tbl) → NoDup l →
  (∀ o, o ∈ l → o ∈ tbl ∧ is_Some (id o)) →
  rollback_scan v true l tbl fs =
    (true,
     reflag (λ x, if decide (x ∈ l) then bool_decide (version_id x = v)
                  else is_latest x) <$> tbl,
     fs).
Proof.
  revert tbl. induction l as [|o l IH]; intros tbl Hnd Hl Hin.
  - cbn [rollback_scan]. by rewrite <- (reflag_same tbl) at 1.
  - apply NoDup_cons in Hl as [Ho Hl].
    destruct (Hin o) as [Hot Hoid]; [left|].
    cbn [rollback_scan negb].
    assert (rollback_scan v true l
              (reflag (flag_at o (bool_decide (version_id o = v))) <$> tbl) fs
            = (true,
               reflag (λ x, if decide (x ∈ o :: l)
                            then bool_decide (version_id x = v)
                            else is_latest x) <$> tbl, fs)) as Hstep.
    { rewrite IH; [|by rewrite fmap_reflag|done|].
      - do 2 f_equal. rewrite reflag_reflag. apply reflag_ext.
        intros x Hx. destruct (decide (x = o)) as [->|Hne].
        + rewrite (decide_True (P := o ∈ o :: l)) by left.
          rewrite decide_False; [by unfold reflag, flag_at; rewrite decide_True|].
          intros Hin'. apply Ho.
          assert (reflag (flag_at o (bool_decide (version_id o = v))) o
                  ∈ o :: l) as Hfur by (by right).
          destruct (Hin _ Hfur) as [Hin'' _].
          pose proof (by_id tbl _ o Hnd Hin'' Hot eq_refl) as Heq.
          by rewrite Heq in Hin'.
        + rewrite reflag_flag_at_other by done.
          destruct (decide (x ∈ l)) as [Hxl|Hxl].
          * by rewrite decide_True by (by right).
          * rewrite decide_False; [done|].
            by intros [?|?]%elem_of_cons.
      - intros o' Ho'. destruct (Hin o') as [Hot' Hid']; [by right|].
        split; [|done].
        apply list_elem_of_fmap. exists o'. split; [|done].
        rewrite reflag_flag_at_other; [done|]. by intros ->. }
    rewrite <- Hstep. rewrite <- (rollback_flag_row v o tbl) by done.
    by destruct (decide (version_id o = v)).
Qed.

(** Until the target is met, every row visited is deleted with its blob. *)
Lemma rollback_scan_before v newer rest tbl fs :
  NoDup (id <$> tbl) → NoDup newer →
  (∀ o, o ∈ newer → o ∈ tbl) →
  (∀ o, o ∈ newer → version_id o ≠ v) →
  rollback_scan v false (newer ++ rest) tbl fs =
    rollback_scan v false rest (filter (λ x, x ∉ newer) tbl)
      (blobs_removed newer fs).
Proof.
  revert tbl fs. induction newer as [|o newer IH]; intros tbl fs Hnd Hn Hin Hv.
  - cbn [app blobs_removed]. rewrite filter_all; [done|].
    intros a _. apply not_elem_of_nil.
  - apply NoDup_cons in Hn as [Ho Hn].
    cbn [app rollback_scan blobs_removed negb].
    rewrite decide_False by (apply Hv; left).
    rewrite delete_row_existing by (done || apply Hin; left).
    rewrite IH.
    + rewrite list_filter_filter. do 2 f_equal.
      apply list_filter_iff. intros x. rewrite not_elem_of_cons. tauto.
    + by apply NoDup_fmap_filter.
    + done.
    + intros o' Ho'. apply list_elem_of_filter. split; [by intros ->|].
      apply Hin. by right.
    + intros o' Ho'. apply Hv. by right.
Qed.

Lemma rollback_scan_found v newer tgt older tbl fs :
  NoDup (id <$> tbl) → NoDup (newer ++ tgt :: older) →
  (∀ o, o ∈ newer ++ tgt :: older → o ∈ tbl ∧ is_Some (id o)) →
  version_id tgt = v → (∀ o, o ∈ newer → version_id o ≠ v) →
  rollback_scan v false (newer ++ tgt :: older) tbl fs =
    (true,
     reflag (λ x, if decide (x ∈ tgt :: older)
                  then bool_decide (version_id x = v)
                  else is_latest x) <$> filter (λ x, x ∉ newer) tbl,
     blobs_removed newer fs).
Proof.
  intros Hnd Hl Hin Ht Hv.
  apply NoDup_app in Hl as (Hn & Hdisj & Hrest).
  rewrite rollback_scan_before;
    [|done|done|intros; apply Hin; apply elem_of_app; by left|done].
  rewrite <- rollback_scan_after.
  - cbn [rollback_scan]. by destruct (decide (version_id tgt = v)).
  - by apply NoDup_fmap_filter.
  - done.
  - intros o Ho. destruct (Hin o) as [Hot Hid]; [apply elem_of_app; by right|].
    split; [|done]. apply list_elem_of_filter. split; [|done].
    intros Hon. by apply (Hdisj o).
Qed.

Lemma rollback_scan_not_found v l tbl fs :
  (∀ o, o ∈ l → version_id o ≠ v) →
  ∃ tbl', rollback_scan v false l tbl fs = (false, tbl', blobs_removed l fs).
Proof.
  revert tbl fs. induction l as [|o l IH]; intros tbl fs Hv.
  - by exists tbl.
  - cbn [rollback_scan blobs_removed negb].
    rewrite decide_False by (apply Hv; left).
    apply IH. intros o' Ho'. apply Hv. by right.
Qed.

End Scan.

(** ** Chains under the routes *)

Section Chains.

Implicit Types (l tbl : list ObjectVersion) (x o r : ObjectVersion).

Lemma length_one_unique {A} (l : list A) (a b : A) :
  List.length l = 1%nat → a ∈ l → b ∈ l → a = b.
Proof.
  destruct l as [|y [|z l]]; try done.
  by intros _ ->%list_elem_of_singleton ->%list_elem_of_singleton.
Qed.

Lemma NoDup_all_equal {A} (l : list A) (a : A) :
  NoDup l → a ∈ l → (∀ y, y ∈ l → y = a) → l = [a].
Proof.
  intros Hnd Ha Hall. destruct l as [|y l]; [by apply elem_of_nil in Ha|].
  assert (y = a) as -> by (apply Hall; left).
  apply NoDup_cons in Hnd as [Hy _]. f_equal.
  destruct l as [|z l]; [done|].
  exfalso. apply Hy. assert (z = a) as -> by (apply Hall; right; left).
  left.
Qed.

Lemma NoDup_rows l : NoDup (id <$> l) → NoDup l.
Proof. apply NoDup_fmap_1. Qed.

(** A chain has one current row, so two current rows of a chain are one. *)
Lemma latest_unique l b k x o :
  one_latest l → x ∈ l → o ∈ l → in_chain b k x → in_chain b k o →
  is_latest x = true → is_latest o = true → x = o.
Proof.
  intros H1 Hx Ho Hcx Hco Hlx Hlo.
  assert (x ∈ filter (in_chain b k) l) as Hxc by (by apply list_elem_of_filter).
  assert (o ∈ filter (in_chain b k) l) as Hoc by (by apply list_elem_of_filter).
  specialize (H1 b k). unfold latest_count in H1.
  apply (length_one_unique (filter (λ r, is_latest r = true)
                              (filter (in_chain b k) l))).
  - apply H1. intros Hnil. rewrite Hnil in Hxc. by apply elem_of_nil in Hxc.
  - by apply list_elem_of_filter.
  - by apply list_elem_of_filter.
Qed.

(** Demotion clears the flag of the whole chain. *)
Lemma demoted_spec l b k :
  NoDup (id <$> l) → Forall (λ r, is_Some (id r)) l → one_latest l →
  demoted b k l =
    reflag (λ x, if decide (in_chain b k x) then false else is_latest x) <$> l.
Proof.
  intros Hnd Hsome H1. unfold demoted, latest_of.
  destruct (first _) as [o|] eqn:Hfirst.
  - apply first_filter_Some in Hfirst as [[Hco Hlo] Ho].
    rewrite added_existing;
      [|done|by apply (proj1 (Forall_forall _ _) Hsome)|done].
    apply reflag_ext. intros x Hx. unfold flag_at.
    destruct (decide (x = o)) as [->|Hne]; [by rewrite decide_True|].
    destruct (decide (in_chain b k x)) as [Hcx|Hcx]; [|done].
    destruct (is_latest x) eqn:Hlx; [|done].
    exfalso. apply Hne. by apply (latest_unique l b k).
  - pose proof (first_filter_None _ _ Hfirst) as Hnone.
    rewrite <- (reflag_same l) at 1. apply reflag_ext. intros x Hx.
    destruct (decide (in_chain b k x)) as [Hcx|Hcx]; [|done].
    destruct (is_latest x) eqn:Hlx; [|done].
    exfalso. by apply (Hnone x).
Qed.

Lemma next_id_reflag f l : next_id (reflag f <$> l) = next_id l.
Proof.
  unfold next_id. f_equal. induction l as [|x l IH]; [done|].
  cbn. by rewrite IH.
Qed.

(** A row pushed on a chain: the chain is demoted and the row appended. *)
Lemma chain_pushed l b k r :
  NoDup (id <$> l) → Forall (λ r, is_Some (id r)) l → one_latest l →
  id r = None → in_chain b k r →
  filter (in_chain b k) (added r (demoted b k l)) =
    (set_is_latest false <$> filter (in_chain b k) l)
      ++ [set_id (Some (next_id l)) r].
Proof.
  intros Hnd Hsome H1 Hid Hr. rewrite demoted_spec by done.
  unfold added. rewrite Hid, next_id_reflag.
  rewrite filter_app, chain_reflag.
  rewrite filter_cons_True by done. f_equal.
  apply fmap_ext_elem. intros x [Hc _]%list_elem_of_filter.
  unfold reflag. by rewrite decide_True.
Qed.

Lemma chain_pushed_other l b k b' k' r :
  NoDup (id <$> l) → Forall (λ r, is_Some (id r)) l → one_latest l →
  id r = None → in_chain b k r → ¬ (b' = b ∧ k' = k) →
  filter (in_chain b' k') (added r (demoted b k l)) =
    filter (in_chain b' k') l.
Proof.
  intros Hnd Hsome H1 Hid [Hrb Hrk] Hne. rewrite demoted_spec by done.
  unfold added. rewrite Hid.
  rewrite filter_app, chain_reflag.
  rewrite filter_cons_False by (intros [? ?]; apply Hne; cbn in *; by subst).
  rewrite filter_nil, app_nil_r.
  rewrite <- (reflag_same (filter _ l)) at 2. apply reflag_ext.
  intros x [[Hb Hk] _]%list_elem_of_filter.
  rewrite decide_False; [done|]. intros [? ?]. apply Hne. by subst.
Qed.

Lemma one_latest_pushed l b k r :
  NoDup (id <$> l) → Forall (λ r, is_Some (id r)) l → one_latest l →
  id r = None → in_chain b k r → is_latest r = true →
  one_latest (added r (demoted b k l)).
Proof.
  intros Hnd Hsome H1 Hid Hr Hl b' k' Hne.
  destruct (decide (b' = b ∧ k' = k)) as [[-> ->]|Hother].
  - rewrite chain_pushed by done.
    rewrite latest_count_app, latest_count_demoted_all.
    unfold latest_count. by rewrite filter_cons_True.
  - rewrite chain_pushed_other in Hne |- * by done. by apply H1.
Qed.

Lemma rows_wf_pushed l b k r :
  rows_wf l → one_latest l → id r = None →
  uuid_shaped (version_id r) = true → version_id r ∉ version_id <$> l →
  storage_path r =
    (if is_delete_marker r then None
     else Some (locator (bucket_name r) (key r) (version_id r))) →
  rows_wf (added r (demoted b k l)).
Proof.
  intros Hwf H1 Hid Hu Hv Hp.
  rewrite demoted_spec by (done || apply Hwf).
  apply rows_wf_added_new; try done.
  - by apply rows_wf_reflag.
  - by rewrite fmap_reflag.
Qed.

(** *** Updates confined to one chain *)

Lemma confined_same l b k F (P : ObjectVersion → Prop)
    `{∀ x, Decision (P x)} :
  filter (in_chain b k) (reflag F <$> filter P l) =
    reflag F <$> filter P (filter (in_chain b k) l).
Proof.
  rewrite chain_reflag. f_equal.
  rewrite !list_filter_filter. apply list_filter_iff. tauto.
Qed.

Lemma confined_other l b k b' k' F (P : ObjectVersion → Prop)
    `{∀ x, Decision (P x)} :
  (∀ x, x ∈ l → ¬ in_chain b k x → P x ∧ F x = is_latest x) →
  ¬ (b' = b ∧ k' = k) →
  filter (in_chain b' k') (reflag F <$> filter P l) =
    filter (in_chain b' k') l.
Proof.
  intros Hconf Hne. rewrite confined_same.
  assert (∀ x, x ∈ filter (in_chain b' k') l → P x ∧ F x = is_latest x)
    as Hout.
  { intros x [[Hb Hk] Hx]%list_elem_of_filter. apply Hconf; [done|].
    intros [? ?]. apply Hne. by subst. }
  rewrite filter_all by (intros; by apply Hout).
  rewrite <- (reflag_same (filter _ l)) at 2. apply reflag_ext.
  intros x Hx. by apply Hout.
Qed.

Lemma one_latest_confined l b k F (P : ObjectVersion → Prop)
    `{∀ x, Decision (P x)} :
  one_latest l →
  (∀ x, x ∈ l → ¬ in_chain b k x → P x ∧ F x = is_latest x) →
  (filter (in_chain b k) (reflag F <$> filter P l) ≠ [] →
   latest_count (filter (in_chain b k) (reflag F <$> filter P l)) = 1%nat) →
  one_latest (reflag F <$> filter P l).
Proof.
  intros H1 Hconf Hsame b' k' Hne.
  destruct (decide (b' = b ∧ k' = k)) as [[-> ->]|Hother]; [by apply Hsame|].
  rewrite (confined_other l b k) in Hne |- * by done. by apply H1.
Qed.

End Chains.

(** ** Deleting a version and rolling back, on the whole table *)

Section Transitions.

Implicit Types (l tbl : list ObjectVersion) (x o r : ObjectVersion).

Lemma count_one {A} (P : A → Prop) `{∀ a, Decision (P a)} (l : list A) a :
  NoDup l → a ∈ l → P a → (∀ y, y ∈ l → P y → y = a) →
  List.length (filter P l) = 1%nat.
Proof.
  intros Hnd Ha HP Huniq.
  rewrite (NoDup_all_equal (filter P l) a); [done|by apply NoDup_filter|..].
  - by apply list_elem_of_filter.
  - intros y [HPy Hy]%list_elem_of_filter. by apply Huniq.
Qed.

Lemma latest_exists l b k :
  one_latest l → filter (in_chain b k) l ≠ [] →
  ∃ y, y ∈ l ∧ in_chain b k y ∧ is_latest y = true.
Proof.
  intros H1 Hne. specialize (H1 b k Hne). unfold latest_count in H1.
  destruct (filter (λ r, is_latest r = true) (filter (in_chain b k) l))
    as [|y rest] eqn:Hf; [done|].
  assert (y ∈ filter (λ r, is_latest r = true) (filter (in_chain b k) l))
    as Hy by (rewrite Hf; left).
  apply list_elem_of_filter in Hy as [Hl Hy].
  apply list_elem_of_filter in Hy as [Hc Hy]. by exists y.
Qed.

Lemma version_of_Some l b k v obj :
  version_of b k v l = Some obj →
  obj ∈ l ∧ in_chain b k obj ∧ version_id obj = v.
Proof. intros [[? ?] ?]%first_filter_Some. done. Qed.

Lemma next_latest_of_Some l b k v n :
  next_latest_of b k v l = Some n →
  n ∈ l ∧ in_chain b k n ∧ version_id n ≠ v
  ∧ ∀ x, x ∈ l → in_chain b k x → version_id x ≠ v →
         last_modified x ≤ last_modified n.
Proof.
  unfold next_latest_of. intros Hn.
  pose proof (order_by_newest_first
                (filter (λ r, in_chain b k r ∧ version_id r ≠ v) l)) as Hs.
  assert (∀ x, x ∈ order_by_last_modified_desc
                     (filter (λ r, in_chain b k r ∧ version_id r ≠ v) l)
               ↔ (in_chain b k x ∧ version_id x ≠ v) ∧ x ∈ l) as Hel
    by (intros x; by rewrite order_by_elem, list_elem_of_filter).
  destruct (order_by_last_modified_desc _) as [|n' rest]; [done|].
  injection Hn as ->. destruct Hs as [Hmax _].
  destruct (proj1 (Hel n)) as [[Hc Hv] Hin]; [left|].
  split; [done|]. split; [done|]. split; [done|].
  intros x Hx Hcx Hvx.
  assert (x ∈ n :: rest) as Hxin by (by apply Hel).
  apply elem_of_cons in Hxin as [->|Hrest]; [lia|by apply Hmax].
Qed.

Lemma next_latest_of_None l b k v x :
  next_latest_of b k v l = None → x ∈ l → in_chain b k x → version_id x = v.
Proof.
  unfold next_latest_of. intros Hn Hx Hc.
  destruct (decide (version_id x = v)) as [|Hv]; [done|]. exfalso.
  assert (x ∈ order_by_last_modified_desc
                (filter (λ r, in_chain b k r ∧ version_id r ≠ v) l)) as Hin
    by (by rewrite order_by_elem, list_elem_of_filter).
  destruct (order_by_last_modified_desc _); [|done].
  by apply elem_of_nil in Hin.
Qed.

(** [delete_object] with a version id removes the row and, when it was
    current, promotes the newest of the others. *)
Lemma delete_version_spec l b k v obj :
  NoDup (id <$> l) → Forall (λ r, is_Some (id r)) l →
  version_of b k v l = Some obj →
  delete_row obj (if is_latest obj then promoted b k v l else l) =
    reflag (promote_flag obj (next_latest_of b k v l))
      <$> filter (λ x, x ≠ obj) l.
Proof.
  intros Hnd Hsome (Ho & Hc & Hv)%version_of_Some.
  assert (delete_row obj l =
          reflag (λ x, is_latest x) <$> filter (λ x, x ≠ obj) l) as Hplain
    by (by rewrite reflag_same, delete_row_existing).
  unfold promoted, promote_flag.
  destruct (is_latest obj) eqn:Hl.
  - destruct (next_latest_of b k v l) as [n|] eqn:Hn.
    + apply next_latest_of_Some in Hn as (Hnl & Hcn & Hvn & _).
      rewrite added_existing;
        [|done|by apply (proj1 (Forall_forall _ _) Hsome)|done].
      rewrite delete_row_reflag, delete_row_existing by done.
      apply reflag_ext. intros x _. unfold flag_at.
      destruct (decide (x = n)) as [->|Hne].
      * by rewrite decide_True.
      * rewrite decide_False; [done|]. intros [_ [= ->]]. done.
    + rewrite Hplain. apply reflag_ext. intros x _.
      by rewrite decide_False by (by intros [_ ?]).
  - rewrite Hplain. apply reflag_ext. intros x _.
    by rewrite decide_False by (by intros [? _]).
Qed.

Lemma delete_version_confined l b k v obj x :
  version_of b k v l = Some obj → x ∈ l → ¬ in_chain b k x →
  x ≠ obj ∧ promote_flag obj (next_latest_of b k v l) x = is_latest x.
Proof.
  intros (Ho & Hc & Hv)%version_of_Some Hx Hcx.
  split; [by intros ->|].
  unfold promote_flag. rewrite decide_False; [done|].
  intros [_ Hn]. by apply next_latest_of_Some in Hn as (_ & ? & _).
Qed.

Lemma one_latest_delete_version l b k v obj :
  rows_wf l → one_latest l → version_of b k v l = Some obj →
  one_latest (reflag (promote_flag obj (next_latest_of b k v l))
                <$> filter (λ x, x ≠ obj) l).
Proof.
  intros Hwf H1 Hobj.
  pose proof (version_of_Some _ _ _ _ _ Hobj) as (Ho & Hc & Hv).
  apply (one_latest_confined l b k); [done|..].
  { intros x Hx Hcx. by apply (delete_version_confined l b k v). }
  rewrite confined_same. intros Hne.
  rewrite latest_count_reflag.
  assert (NoDup (filter (λ x, x ≠ obj) (filter (in_chain b k) l))) as Hnd
    by (do 2 apply NoDup_filter; apply NoDup_rows, Hwf).
  assert (∀ y, y ∈ filter (λ x, x ≠ obj) (filter (in_chain b k) l) ↔
               y ≠ obj ∧ in_chain b k y ∧ y ∈ l) as Hel
    by (intros y; by rewrite !list_elem_of_filter).
  unfold promote_flag.
  destruct (is_latest obj) eqn:Hl.
  - (* the current row goes: the others were not current *)
    assert (∀ y, y ∈ l → in_chain b k y → y ≠ obj → is_latest y = false)
      as Hrest.
    { intros y Hy Hcy Hyo. destruct (is_latest y) eqn:Hly; [|done].
      exfalso. apply Hyo. by apply (latest_unique l b k). }
    destruct (next_latest_of b k v l) as [n|] eqn:Hn.
    + pose proof (next_latest_of_Some _ _ _ _ _ Hn) as (Hnl & Hcn & Hvn & _).
      apply (count_one _ _ n); [done|..].
      * apply Hel. split; [by intros ->|done].
      * by rewrite decide_True.
      * intros y (Hyo & Hcy & Hy)%Hel Hf.
        destruct (decide (true = true ∧ Some n = Some y)) as [[_ [= ->]]|];
          [done|].
        by rewrite Hrest in Hf.
    + exfalso. apply Hne.
      rewrite (elem_of_nil_inv (filter (λ x, x ≠ obj) _)); [done|].
      intros y (Hyo & Hcy & Hy)%Hel. apply Hyo.
      apply (by_version_id l); [apply Hwf|done..|].
      rewrite Hv. by apply (next_latest_of_None l b k).
  - (* a historical row goes: the current row stays *)
    destruct (latest_exists l b k H1) as (y & Hy & Hcy & Hly).
    { intros Hnil. assert (obj ∈ filter (in_chain b k) l) as Hin
        by (by apply list_elem_of_filter).
      rewrite Hnil in Hin. by apply elem_of_nil in Hin. }
    apply (count_one _ _ y); [done|..].
    + apply Hel. split; [intros ->; congruence|done].
    + by rewrite decide_False by (by intros [? _]).
    + intros z (Hzo & Hcz & Hz)%Hel Hf.
      rewrite decide_False in Hf by (by intros [? _]).
      by apply (latest_unique l b k).
Qed.

(** The scan of a chain that holds the target. *)
Lemma chain_scan_split l b k v tgt :
  rows_wf l → tgt ∈ filter (in_chain b k) l → version_id tgt = v →
  ∃ newer older,
    order_by_last_modified_desc (filter (in_chain b k) l)
      = newer ++ tgt :: older
    ∧ NoDup (newer ++ tgt :: older)
    ∧ (∀ x, x ∈ newer → version_id x ≠ v)
    ∧ (∀ x, x ∈ newer ++ tgt :: older ↔ in_chain b k x ∧ x ∈ l).
Proof.
  intros Hwf Ht Hv.
  assert (∀ x, x ∈ order_by_last_modified_desc (filter (in_chain b k) l)
               ↔ in_chain b k x ∧ x ∈ l) as Hel
    by (intros x; by rewrite order_by_elem, list_elem_of_filter).
  assert (NoDup (order_by_last_modified_desc (filter (in_chain b k) l)))
    as Hnd.
  { rewrite order_by_perm. apply NoDup_filter, NoDup_rows, Hwf. }
  destruct (split_first_version v
              (order_by_last_modified_desc (filter (in_chain b k) l)))
    as (newer & tgt' & older & Hsplit & Hv' & Hnewer).
  { exists tgt. split; [|done]. by apply order_by_elem. }
  assert (tgt' = tgt) as ->.
  { apply (by_version_id l); [apply Hwf|..|congruence].
    - apply Hel. rewrite Hsplit. apply elem_of_app. right. left.
    - by apply list_elem_of_filter in Ht as [_ ?]. }
  exists newer, older. rewrite <- Hsplit. done.
Qed.

Lemma serve_rollback_found w b k v tgt :
  rows_wf (rows w) → tgt ∈ chain w b k → version_id tgt = v →
  ∃ newer older,
    order_by_last_modified_desc (chain w b k) = newer ++ tgt :: older
    ∧ NoDup (newer ++ tgt :: older)
    ∧ (∀ x, x ∈ newer ++ tgt :: older ↔ in_chain b k x ∧ x ∈ rows w)
    ∧ serve w (Rollback b k v) =
        (with_blobs
           (with_rows w
              (reflag (rollback_flag v (tgt :: older))
                 <$> filter (λ x, x ∉ newer) (rows w)))
           (blobs_removed newer (w_files w)),
         rollback_ok v).
Proof.
  intros Hwf Ht Hv.
  destruct (chain_scan_split (rows w) b k v tgt Hwf Ht Hv)
    as (newer & older & Hsplit & Hnd & Hnewer & Hel).
  exists newer, older. split; [done|]. split; [done|]. split; [done|].
  rewrite serve_rollback. unfold chain. rewrite Hsplit.
  rewrite rollback_scan_found; [done|apply Hwf|done| |done|done].
  intros o [_ Ho]%Hel. split; [done|].
  by apply (proj1 (Forall_forall _ _) (wf_ids_some _ Hwf)).
Qed.

Lemma serve_rollback_not_found w b k v :
  (∀ x, x ∈ chain w b k → version_id x ≠ v) →
  serve w (Rollback b k v) =
    (with_blobs w
       (blobs_removed (order_by_last_modified_desc (chain w b k)) (w_files w)),
     HTTPException 404 "Target version not found in history").
Proof.
  intros Hv. rewrite serve_rollback.
  destruct (rollback_scan_not_found v
              (order_by_last_modified_desc (chain w b k))
              (rows w) (w_files w)) as [tbl' ->].
  - intros o Ho. apply Hv. by apply order_by_elem.
  - done.
Qed.

Lemma rollback_confined l b k v newer tgt older x :
  (∀ y, y ∈ newer ++ tgt :: older ↔ in_chain b k y ∧ y ∈ l) →
  x ∈ l → ¬ in_chain b k x →
  (x ∉ newer) ∧ rollback_flag v (tgt :: older) x = is_latest x.
Proof.
  intros Hel Hx Hcx.
  assert (x ∉ newer ++ tgt :: older) as Hout by (by intros [? _]%Hel).
  apply not_elem_of_app in Hout as [Hn Ho].
  split; [done|]. unfold rollback_flag. by rewrite decide_False.
Qed.

Lemma one_latest_rollback l b k v newer tgt older :
  rows_wf l → one_latest l →
  NoDup (newer ++ tgt :: older) →
  (∀ y, y ∈ newer ++ tgt :: older ↔ in_chain b k y ∧ y ∈ l) →
  version_id tgt = v →
  one_latest (reflag (rollback_flag v (tgt :: older))
                <$> filter (λ x, x ∉ newer) l).
Proof.
  intros Hwf H1 Hnd Hel Hv.
  apply (one_latest_confined l b k); [done|..].
  { intros x Hx Hcx. by apply (rollback_confined l b k v newer tgt older). }
  rewrite confined_same. intros _. rewrite latest_count_reflag.
  apply NoDup_app in Hnd as (_ & Hdisj & _).
  assert (tgt ∈ newer ++ tgt :: older) as Ht
    by (apply elem_of_app; right; left).
  pose proof (proj1 (Hel tgt) Ht) as [Hct Htl].
  apply (count_one _ _ tgt).
  - do 2 apply NoDup_filter. apply NoDup_rows, Hwf.
  - apply list_elem_of_filter. split.
    + intros Hn. apply (Hdisj tgt Hn). left.
    + by apply list_elem_of_filter.
  - unfold rollback_flag. rewrite decide_True by left.
    by apply bool_decide_eq_true.
  - intros y [Hyn [Hcy Hy]%list_elem_of_filter]%list_elem_of_filter Hf.
    assert (y ∈ newer ++ tgt :: older) as Hyl by (by apply Hel).
    apply elem_of_app in Hyl as [?|Hyk]; [done|].
    unfold rollback_flag in Hf. rewrite decide_True in Hf by done.
    apply bool_decide_eq_true in Hf.
    apply (by_version_id l); [apply Hwf|done..|congruence].
Qed.

(** ** The invariant of the store *)

Lemma store_inv_rows w w' : rows w' = rows w → store_inv w → store_inv w'.
Proof. intros Hr [Hwf H1]. split; by rewrite Hr. Qed.

Lemma store_inv_empty : store_inv empty_world.
Proof.
  split.
  - split; cbn; constructor.
  - by intros b k Hne.
Qed.

Lemma truthy_Some v : truthy v = true → ∃ s, v = Some s ∧ s ≠ "".
Proof.
  destruct v as [s|]; [|done]. cbn. intros Hs%negb_true_iff.
  exists s. split; [done|]. by apply bool_decide_eq_false in Hs.
Qed.

Lemma store_inv_serve w q :
  store_inv w → draws_ok w q → store_inv (serve w q).1.
Proof.
  intros [Hwf H1] Hdraw.
  destruct q as [b t|b k body ct u t|b k v|b k v u t|b k v].
  - rewrite serve_create_bucket.
    destruct (decide (bucket_exists w b)); by apply (store_inv_rows w).
  - destruct (decide (bucket_exists w b)) as [Hb|Hb].
    + rewrite serve_put_object by done. destruct Hdraw as [Hu Hfresh].
      split; cbn [fst rows with_blobs with_rows w_db object_versions].
      * by apply rows_wf_pushed.
      * by apply one_latest_pushed; try apply Hwf.
    + by rewrite serve_put_object_no_bucket.
  - by rewrite serve_get_object.
  - cbn [draws_ok] in Hdraw. destruct (truthy v) eqn:Hv.
    + apply truthy_Some in Hv as (s & -> & Hs).
      rewrite serve_delete_version by done.
      destruct (version_of b k s (rows w)) as [obj|] eqn:Hobj; [|done].
      cbn [fst rows with_blobs with_rows w_db object_versions].
      rewrite (delete_version_spec _ b k s) by (done || apply Hwf).
      split; cbn [rows w_db object_versions].
      * by apply rows_wf_reflag, rows_wf_filter.
      * by apply one_latest_delete_version.
    + destruct (decide (bucket_exists w b)) as [Hb|Hb].
      * rewrite serve_delete_marker by done. destruct Hdraw as [Hu Hfresh].
        split; cbn [fst rows with_rows w_db object_versions].
        -- by apply rows_wf_pushed.
        -- by apply one_latest_pushed; try apply Hwf.
      * by rewrite serve_delete_marker_no_bucket.
  - destruct (decide (v ∈ version_id <$> chain w b k)) as [Hin|Hout].
    + apply list_elem_of_fmap in Hin as (tgt & Hv & Ht).
      destruct (serve_rollback_found w b k v tgt Hwf Ht (eq_sym Hv))
        as (newer & older & Hsplit & Hnd & Hel & ->).
      split; cbn [fst rows with_blobs with_rows w_db object_versions].
      * by apply rows_wf_reflag, rows_wf_filter.
      * by apply (one_latest_rollback _ b k).
    + rewrite serve_rollback_not_found; [by apply (store_inv_rows w)|].
      intros x Hx Hxv. apply Hout. apply list_elem_of_fmap. by exists x.
Qed.

Lemma reachable_inv w : reachable w → store_inv w.
Proof.
  induction 1 as [|w q _ IH Hdraw]; [apply store_inv_empty|].
  by apply store_inv_serve.
Qed.

End Transitions.

(** ** Rows and their blobs *)

Section Blobs.

Implicit Types (l : list ObjectVersion) (x y r : ObjectVersion)
  (fs : filesystem).

Lemma locator_nonempty b k v : uuid_shaped v = true → locator b k v ≠ "".
Proof.
  intros Hu. unfold locator, PosixPath.join. cbn [fold_left].
  rewrite join2_glue by (by apply uuid_shaped_not_sep).
  intros Hnil. apply (f_equal String.length) in Hnil.
  rewrite !string_app_length, (uuid_shaped_length v) in Hnil by done.
  cbn in Hnil. lia.
Qed.

(** The blob of a row of a well-formed table: its path and its owner. *)
Lemma row_blob l r p :
  rows_wf l → r ∈ l → storage_path r = Some p →
  p ≠ "" ∧ uuid_shaped (version_id r) = true
  ∧ get_file_path p = blob_path (bucket_name r) (key r) (version_id r).
Proof.
  intros Hwf Hr Hp.
  pose proof (proj1 (Forall_forall _ _) (wf_blob _ Hwf) r Hr) as Hb.
  pose proof (proj1 (Forall_forall _ _) (wf_uuid _ Hwf) r Hr) as Hu.
  cbn beta in Hb, Hu. rewrite Hp in Hb.
  destruct (is_delete_marker r); [done|]. injection Hb as ->.
  split; [by apply locator_nonempty|]. split; [done|].
  by apply get_file_path_locator, uuid_shaped_not_sep.
Qed.

Lemma row_without_blob l r fs :
  rows_wf l → r ∈ l →
  without_blob r fs =
    if is_delete_marker r then fs
    else delete (blob_path (bucket_name r) (key r) (version_id r)) fs.
Proof.
  intros Hwf Hr. unfold without_blob.
  pose proof (proj1 (Forall_forall _ _) (wf_blob _ Hwf) r Hr) as Hb.
  cbn beta in Hb. destruct (is_delete_marker r) eqn:Hdm.
  - by rewrite Hb.
  - destruct (row_blob l r _ Hwf Hr Hb) as (Hne & _ & Hpath).
    rewrite Hb. cbn [truthy default]. rewrite bool_decide_false by done.
    cbn [negb]. unfold delete_physical_file, Datatypes.id. by rewrite Hpath.
Qed.

(** Two rows of a well-formed table never share a blob. *)
Lemma blobs_disjoint l x y p q :
  rows_wf l → x ∈ l → y ∈ l →
  storage_path x = Some p → storage_path y = Some q →
  get_file_path p = get_file_path q → x = y.
Proof.
  intros Hwf Hx Hy Hp Hq Heq.
  destruct (row_blob l x p Hwf Hx Hp) as (_ & Hux & Hpx).
  destruct (row_blob l y q Hwf Hy Hq) as (_ & Huy & Hqy).
  rewrite Hpx, Hqy in Heq. apply blob_path_inj in Heq; [|done..].
  by apply (by_version_id l); [apply Hwf|..].
Qed.

(** Removing the blobs of the rows [d]: the blob of a row of [d] is gone,
    and a path that is the blob of no row of [d] holds what it held. *)
Lemma blobs_removed_None l d fs q :
  rows_wf l → (∀ x, x ∈ d → x ∈ l) →
  fs !! q = None → blobs_removed d fs !! q = None.
Proof.
  intros Hwf. revert fs. induction d as [|a d IH]; intros fs Hd Hq; [done|].
  cbn [blobs_removed]. apply IH; [intros; apply Hd; by right|].
  rewrite (row_without_blob l) by (done || apply Hd; left).
  destruct (is_delete_marker a); [done|].
  rewrite lookup_delete. by case_decide.
Qed.

Lemma blobs_removed_gone l d fs x p :
  rows_wf l → (∀ y, y ∈ d → y ∈ l) →
  x ∈ d → storage_path x = Some p →
  blobs_removed d fs !! get_file_path p = None.
Proof.
  intros Hwf. revert fs. induction d as [|a d IH]; intros fs Hd Hx Hp;
    [by apply elem_of_nil in Hx|].
  cbn [blobs_removed].
  apply elem_of_cons in Hx as [->|Hx];
    [|apply IH; [intros; apply Hd; by right|done..]].
  assert (a ∈ l) as Ha by (apply Hd; left).
  apply (blobs_removed_None l); [done|intros; apply Hd; by right|].
  rewrite (row_without_blob l) by done.
  destruct (row_blob l a p Hwf Ha Hp) as (_ & _ & ->).
  pose proof (proj1 (Forall_forall _ _) (wf_blob _ Hwf) a Ha) as Hb.
  cbn beta in Hb. rewrite Hp in Hb.
  destruct (is_delete_marker a); [done|]. apply lookup_delete_eq.
Qed.

Lemma blobs_removed_kept l d fs q :
  rows_wf l → (∀ y, y ∈ d → y ∈ l) →
  (∀ x p, x ∈ d → storage_path x = Some p → get_file_path p ≠ q) →
  blobs_removed d fs !! q = fs !! q.
Proof.
  intros Hwf. revert fs. induction d as [|a d IH]; intros fs Hd Hq; [done|].
  cbn [blobs_removed].
  rewrite IH;
    [|intros; apply Hd; by right|intros x p ?; apply Hq; by right].
  assert (a ∈ l) as Ha by (apply Hd; left).
  rewrite (row_without_blob l) by done.
  pose proof (proj1 (Forall_forall _ _) (wf_blob _ Hwf) a Ha) as Hb.
  cbn beta in Hb. destruct (is_delete_marker a); [done|].
  apply lookup_delete_ne.
  destruct (row_blob l a _ Hwf Ha Hb) as (_ & _ & <-).
  apply (Hq a); [left|done].
Qed.

End Blobs.

(** * The claims *)

Section SampleStore.

Ltac draw_ok :=
  split; [reflexivity|apply (bool_decide_unpack _); by vm_compute].

Lemma sample_w0_reachable : reachable sample_w0.
Proof. apply reachable_serve; [apply reachable_empty|exact I]. Qed.

Lemma sample_w1_reachable : reachable sample_w1.
Proof. apply reachable_serve; [apply sample_w0_reachable|draw_ok]. Qed.

Lemma sample_w2_reachable : reachable sample_w2.
Proof. apply reachable_serve; [apply sample_w1_reachable|draw_ok]. Qed.

Lemma sample_w3_reachable : reachable sample_w3.
Proof. apply reachable_serve; [apply sample_w2_reachable|draw_ok]. Qed.

Lemma sample_bucket_exists : bucket_exists sample_w3 "b".
Proof. apply (bool_decide_unpack _). by vm_compute. Qed.

Lemma sample_u4_fresh : uuid_fresh sample_w3 sample_u4.
Proof. draw_ok. Qed.

(** The scenario of the specification: three puts, then a rollback to the
    first version leaves a chain of one row and the key reads ["A"]. *)
Example rollback_scenario :
  let w := (serve sample_w3 (Rollback "b" "k" sample_u1)).1 in
  version_id <$> chain sample_w3 "b" "k" = [sample_u1; sample_u2; sample_u3]
  ∧ is_latest <$> chain sample_w3 "b" "k" = [false; false; true]
  ∧ version_id <$> chain w "b" "k" = [sample_u1]
  ∧ is_latest <$> chain w "b" "k" = [true]
  ∧ map_to_list (w_files w) = [(blob_path "b" "k" sample_u1, bytes_of "A")]
  ∧ (serve w (GetObject "b" "k" None)).2 =
      StreamingResponse (bytes_of "A")
        [("x-amz-version-id", sample_u1);
         ("ETag", etag_of (bytes_of "A"));
         ("Content-Type", "application/octet-stream");
         ("Content-Length", "1")].
Proof. vm_compute. by repeat split. Qed.

(** Deleting the current version promotes the one before it. *)
Example promotion_scenario :
  let w := (serve sample_w3 (DeleteObject "b" "k" (Some sample_u3) "" 9)).1 in
  version_id <$> chain w "b" "k" = [sample_u1; sample_u2]
  ∧ is_latest <$> chain w "b" "k" = [false; true]
  ∧ (serve w (GetObject "b" "k" None)).2 =
      StreamingResponse (bytes_of "B")
        [("x-amz-version-id", sample_u2);
         ("ETag", etag_of (bytes_of "B"));
         ("Content-Type", "application/octet-stream");
         ("Content-Length", "1")].
Proof. vm_compute. by repeat split. Qed.

End SampleStore.

(** ** The digest *)

(** C9. The digest of a byte string is the same whenever it is computed
    (wherever the cursor of the file object stands, and again after a first
    computation, which leaves the cursor at the start); it is a double
    quote, 32 lowercase hexadecimal digits and a double quote; and two
    byte strings have the same digest only when their MD5 hashes collide. *)
Theorem calculate_etag_deterministic_quoted_hex (f g : BytesIO) :
  (buf f = buf g → (calculate_etag f).1 = (calculate_etag g).1)
  ∧ (calculate_etag (calculate_etag f).2).1 = (calculate_etag f).1
  ∧ (∃ h, (calculate_etag f).1 = dquote +:+ h +:+ dquote
          ∧ String.length h = 32%nat
          ∧ Forall (λ c, is_hex_char c = true) (list_ascii_of_string h))
  ∧ ((calculate_etag f).1 = (calculate_etag g).1 →
     Hashlib.md5 (buf f) = Hashlib.md5 (buf g)).
Proof.
  rewrite !calculate_etag_spec. cbn [fst snd buf].
  split; [by intros ->|]. split; [done|]. split.
  - exists (Hashlib.hex (Hashlib.md5 (buf f))). split; [done|]. split.
    + by rewrite hex_length, md5_length.
    + apply hex_chars.
  - intros Heq. apply hex_inj.
    apply (inj (String.app dquote)) in Heq.
    apply string_app_inj_prefix in Heq; [done|].
    by rewrite !hex_length, !md5_length.
Qed.

Lemma calculate_etag_deterministic_quoted_hex_witness :
  (calculate_etag {| buf := bytes_of "A"; pos := 1 |}).1
    = (calculate_etag {| buf := bytes_of "A"; pos := 0 |}).1
  ∧ Hashlib.md5 (bytes_of "A") = Hashlib.md5 (bytes_of "A").
Proof.
  destruct (calculate_etag_deterministic_quoted_hex
              {| buf := bytes_of "A"; pos := 1 |}
              {| buf := bytes_of "A"; pos := 0 |}) as (Hdet & _ & _ & Hinj).
  split; [apply Hdet; reflexivity|apply Hinj, Hdet; reflexivity].
Defined.

(** ** Deleting *)

(** C10. In a bucket that exists, deleting without a version id a key that
    has no row answers 204 and leaves the key with a chain of one row: a
    current delete marker without a blob. No other chain and no blob
    changes. *)
Theorem delete_marker_on_unwritten_key w b k v u t :
  truthy v = false → bucket_exists w b → chain w b k = [] →
  let w' := (serve w (DeleteObject b k v u t)).1 in
  (serve w (DeleteObject b k v u t)).2 =
    Response 204 [("x-amz-version-id", u); ("x-amz-delete-marker", "true")]
  ∧ chain w' b k =
      [ {| id := Some (next_id (rows w)); bucket_name := b; key := k;
           version_id := u; is_latest := true; is_delete_marker := true;
           size := 0; etag := ""; last_modified := t;
           content_type := "application/octet-stream";
           storage_path := None |} ]
  ∧ (∀ b' k', ¬ (b' = b ∧ k' = k) → chain w' b' k' = chain w b' k')
  ∧ w_files w' = w_files w.
Proof.
  intros Hv Hb Hc. rewrite serve_delete_marker by done.
  cbn [fst snd]. split; [done|].
  assert (demoted b k (rows w) = rows w) as Hd.
  { unfold demoted, latest_of.
    destruct (first _) as [o|] eqn:Ho; [|done].
    apply first_filter_Some in Ho as [[Hco _] Ho].
    assert (o ∈ chain w b k) as Hin by (by apply list_elem_of_filter).
    rewrite Hc in Hin. by apply elem_of_nil in Hin. }
  unfold chain in *. cbn [rows with_rows w_db object_versions w_files].
  rewrite Hd. unfold added. cbn [id new_delete_marker].
  split; [|split; [|done]].
  - rewrite filter_app, Hc. by rewrite filter_cons_True.
  - intros b' k' Hne. rewrite filter_app.
    rewrite filter_cons_False, filter_nil, app_nil_r; [done|].
    intros [? ?]. apply Hne. by split.
Qed.

Lemma delete_marker_on_unwritten_key_witness :
  (serve sample_w3 (DeleteObject "b" "other" None sample_u4 9)).2 =
    Response 204
      [("x-amz-version-id", sample_u4); ("x-amz-delete-marker", "true")].
Proof.
  apply (delete_marker_on_unwritten_key sample_w3 "b" "other" None sample_u4 9).
  - reflexivity.
  - apply sample_bucket_exists.
  - by vm_compute.
Defined.

(** C8. Deleting a version id that no row of the chain carries answers 204
    and changes nothing: the tables and the blobs are the same. (A version
    id is given to the route when it is not the empty string.) *)
Theorem delete_absent_version_is_noop w b k v u t :
  v ≠ "" → (∀ r, r ∈ chain w b k → version_id r ≠ v) →
  serve w (DeleteObject b k (Some v) u t) = (w, Response 204 []).
Proof.
  intros Hv Habsent. rewrite serve_delete_version by done.
  destruct (version_of b k v (rows w)) as [obj|] eqn:Hobj; [|done].
  apply version_of_Some in Hobj as (Ho & Hc & Hvo).
  exfalso. apply (Habsent obj); [|done]. by apply list_elem_of_filter.
Qed.

Lemma delete_absent_version_is_noop_witness :
  serve sample_w3 (DeleteObject "b" "k" (Some sample_u4) "" 9)
    = (sample_w3, Response 204 []).
Proof.
  apply delete_absent_version_is_noop.
  - done.
  - apply (proj1 (Forall_forall _ _)).
    apply (bool_decide_unpack _). by vm_compute.
Defined.

(** ** Rolling back to a version that is not there *)

(** What [ui_rollback] does for a version id no row of the chain carries:
    it answers 404 and commits nothing, after the scan has removed the blob
    of every row of the chain. *)
Lemma rollback_unknown_version w b k v :
  (∀ r, r ∈ chain w b k → version_id r ≠ v) →
  let w' := (serve w (Rollback b k v)).1 in
  (serve w (Rollback b k v)).2
    = HTTPException 404 "Target version not found in history"
  ∧ w_db w' = w_db w
  ∧ w_files w' =
      blobs_removed (order_by_last_modified_desc (chain w b k)) (w_files w).
Proof. intros Hv. by rewrite serve_rollback_not_found. Qed.

(** C1, on the store with one object ["A"] under ["b"], ["k"]: rolling
    back to a version id that is not in the chain answers 404 and leaves
    the version row as it was, but the blob of that row is gone, and the
    next read of the key fails with a 500. The claim asks for the blobs to
    be as before. *)
Theorem rollback_unknown_version_loses_blobs :
  let w' := (serve sample_w1 (Rollback "b" "k" sample_u2)).1 in
  (serve sample_w1 (Rollback "b" "k" sample_u2)).2
    = HTTPException 404 "Target version not found in history"
  ∧ rows w' = rows sample_w1
  ∧ w_files sample_w1 !! blob_path "b" "k" sample_u1 = Some (bytes_of "A")
  ∧ w_files w' !! blob_path "b" "k" sample_u1 = None
  ∧ (serve sample_w1 (GetObject "b" "k" None)).2
      = StreamingResponse (bytes_of "A")
          [("x-amz-version-id", sample_u1);
           ("ETag", etag_of (bytes_of "A"));
           ("Content-Type", "application/octet-stream");
           ("Content-Length", "1")]
  ∧ (serve w' (GetObject "b" "k" None)).2
      = HTTPException 500 "InternalError: File missing on disk".
Proof. vm_compute. by repeat split. Qed.

(** ** Writing and reading *)

Lemma latest_of_chain l b k :
  latest_of b k l =
    first (filter (λ r, is_latest r = true) (filter (in_chain b k) l)).
Proof.
  unfold latest_of. f_equal. rewrite list_filter_filter.
  apply list_filter_iff. tauto.
Qed.

Lemma version_of_chain l b k v :
  version_of b k v l =
    first (filter (λ r, version_id r = v) (filter (in_chain b k) l)).
Proof.
  unfold version_of. f_equal. rewrite list_filter_filter.
  apply list_filter_iff. tauto.
Qed.

(** After a row was pushed on a chain it is the row read as current. *)
Lemma latest_of_pushed l b k r :
  NoDup (id <$> l) → Forall (λ r, is_Some (id r)) l → one_latest l →
  id r = None → in_chain b k r → is_latest r = true →
  latest_of b k (added r (demoted b k l)) = Some (set_id (Some (next_id l)) r).
Proof.
  intros Hnd Hsome H1 Hid Hc Hl.
  rewrite latest_of_chain, chain_pushed, filter_app by done.
  pose proof (latest_count_demoted_all (filter (in_chain b k) l)) as H0.
  unfold latest_count in H0. apply nil_length_inv in H0. rewrite H0.
  by rewrite filter_cons_True.
Qed.



(** C6. A get fails with NoSuchKey exactly when the chain has no row that
    the request selects (the row with the version id given, or the current
    row when none is given) or the selected row is a delete marker. So a
    get without version id of a key that was just deleted without version
    id fails with NoSuchKey, which is what it answers for a key without
    rows. *)
Theorem get_object_no_such_key w b k v u t :
  reachable w →
  ((serve w (GetObject b k v)).2 = HTTPException 404 "NoSuchKey"
   ↔ (¬ ∃ r, r ∈ chain w b k ∧ selected v r)
     ∨ (∃ r, r ∈ chain w b k ∧ selected v r ∧ is_delete_marker r = true))
  ∧ (bucket_exists w b → uuid_fresh w u →
     (serve (serve w (DeleteObject b k None u t)).1 (GetObject b k None)).2
       = HTTPException 404 "NoSuchKey")
  ∧ (chain w b k = [] →
     (serve w (GetObject b k v)).2 = HTTPException 404 "NoSuchKey").
Proof.
  intros Hreach. pose proof (reachable_inv w Hreach) as [Hwf H1].
  assert (∀ w0, (if truthy v then version_of b k (default "" v) (rows w0)
                 else latest_of b k (rows w0))
                = first (filter (selected v) (chain w0 b k))) as Hsel.
  { intros w0. unfold chain. destruct (truthy v) eqn:Ht.
    - rewrite version_of_chain. f_equal. apply list_filter_iff.
      intros x. unfold selected. by rewrite Ht.
    - rewrite latest_of_chain. f_equal. apply list_filter_iff.
      intros x. unfold selected. by rewrite Ht. }
  assert (∀ x y, x ∈ chain w b k → y ∈ chain w b k →
                 selected v x → selected v y → x = y) as Huniq.
  { intros x y [Hcx Hx]%list_elem_of_filter [Hcy Hy]%list_elem_of_filter.
    unfold selected. destruct (truthy v).
    - intros Hvx Hvy. apply (by_version_id (rows w)); [apply Hwf|done..|].
      congruence.
    - intros Hlx Hly. by apply (latest_unique (rows w) b k). }
  split; [|split].
  - rewrite serve_get_object. cbn [snd]. rewrite Hsel.
    destruct (first (filter (selected v) (chain w b k))) as [obj|] eqn:Hobj.
    + apply first_filter_Some in Hobj as [Hs Ho].
      destruct (is_delete_marker obj) eqn:Hdm.
      * split; [|done]. intros _. right. by exists obj.
      * split.
        -- destruct (storage_path obj); [|done].
           by destruct (w_files w !! get_file_path s).
        -- intros [Hno|(r & Hr & Hsr & Hdr)].
           ++ exfalso. apply Hno. by exists obj.
           ++ rewrite (Huniq r obj) in Hdr by done. congruence.
    + split; [|done]. intros _. left. intros (r & Hr & Hsr).
      by apply (first_filter_None _ _ Hobj r).
  - intros Hb [Hu Hfresh]. rewrite serve_delete_marker by done.
    rewrite serve_get_object.
    cbn [fst snd truthy rows with_rows w_db object_versions].
    by rewrite latest_of_pushed by (done || apply Hwf).
  - intros Hnil. rewrite serve_get_object. cbn [snd]. rewrite Hsel, Hnil.
    done.
Qed.

Lemma get_object_no_such_key_witness :
  (serve (serve sample_w3 (DeleteObject "b" "k" None sample_u4 9)).1
     (GetObject "b" "k" None)).2
    = HTTPException 404 "NoSuchKey".
Proof.
  apply (get_object_no_such_key sample_w3 "b" "k" None sample_u4 9).
  - apply sample_w3_reachable.
  - apply sample_bucket_exists.
  - apply sample_u4_fresh.
Defined.



(** ** Deleting a version *)

Lemma version_of_member w b k v obj :
  rows_wf (rows w) → obj ∈ chain w b k → version_id obj = v →
  version_of b k v (rows w) = Some obj.
Proof.
  intros Hwf [Hc Ho]%list_elem_of_filter Hv.
  destruct (version_of b k v (rows w)) as [o|] eqn:Hfirst.
  - apply version_of_Some in Hfirst as (Hin & _ & Hvo). f_equal.
    apply (by_version_id (rows w)); [apply Hwf|done..|congruence].
  - exfalso. by apply (first_filter_None _ _ Hfirst obj).
Qed.

(** C5. Deleting a version id that a row of the chain carries answers 204
    and removes that row: no row carries the version id afterwards. The
    blob of the row is removed unless the row is a delete marker, and every
    remaining row still finds at its path what was there. When the row was
    not current the rest of the chain is as it was. When it was current
    and other rows remain, one of them that no other is more recent than
    becomes current and the rest of the chain is as it was; when no row
    remains the chain is empty and the key reads as NoSuchKey. No other
    chain changes. *)
Theorem delete_version_removes_row_and_promotes w b k v obj u t :
  reachable w → obj ∈ chain w b k → version_id obj = v →
  let w' := (serve w (DeleteObject b k (Some v) u t)).1 in
  (serve w (DeleteObject b k (Some v) u t)).2 = Response 204 []
  ∧ (∀ r, r ∈ rows w' → version_id r ≠ v)
  ∧ w_files w' =
      (if is_delete_marker obj then w_files w
       else delete (blob_path b k v) (w_files w))
  ∧ (∀ r p, r ∈ rows w' → storage_path r = Some p →
            w_files w' !! get_file_path p = w_files w !! get_file_path p)
  ∧ (is_latest obj = false →
     chain w' b k = filter (λ x, x ≠ obj) (chain w b k))
  ∧ (is_latest obj = true → (∃ x, x ∈ chain w b k ∧ x ≠ obj) →
     ∃ n, n ∈ chain w b k ∧ n ≠ obj
          ∧ (∀ x, x ∈ chain w b k → x ≠ obj →
                  last_modified x ≤ last_modified n)
          ∧ chain w' b k =
              (λ x, if decide (x = n) then set_is_latest true x else x)
                <$> filter (λ x, x ≠ obj) (chain w b k))
  ∧ ((∀ x, x ∈ chain w b k → x = obj) →
     chain w' b k = []
     ∧ (serve w' (GetObject b k None)).2 = HTTPException 404 "NoSuchKey")
  ∧ (∀ b' k', ¬ (b' = b ∧ k' = k) → chain w' b' k' = chain w b' k').
Proof.
  intros [Hwf H1]%reachable_inv Hobj Hv.
  pose proof Hobj as [[Hob Hok] Ho]%list_elem_of_filter.
  assert (v ≠ "") as Hne.
  { rewrite <- Hv. apply uuid_shaped_nonempty.
    by apply (proj1 (Forall_forall _ _) (wf_uuid _ Hwf)). }
  pose proof (version_of_member w b k v obj Hwf Hobj Hv) as Hfirst.
  rewrite serve_delete_version, Hfirst by done.
  rewrite (delete_version_spec _ b k v) by (done || apply Hwf).
  cbn [fst snd].
  set (rows' := reflag (promote_flag obj (next_latest_of b k v (rows w)))
                  <$> filter (λ x, x ≠ obj) (rows w)).
  set (w' := with_blobs (with_rows w rows') (without_blob obj (w_files w))).
  assert (rows w' = rows') as Hrows' by done.
  assert (w_files w' = without_blob obj (w_files w)) as Hfiles' by done.
  assert (∀ b' k', chain w' b' k' = filter (in_chain b' k') rows') as Hchain'
    by done.
  clearbody w'. rewrite !Hchain', Hrows', Hfiles'. unfold rows'.
  rewrite confined_same. fold (chain w b k).
  assert (∀ r, r ∈ rows' →
               ∃ x, x ∈ rows w ∧ x ≠ obj
                    ∧ version_id r = version_id x
                    ∧ storage_path r = storage_path x) as Hrows.
  { intros r (x & -> & [Hxo Hx]%list_elem_of_filter)%list_elem_of_fmap.
    by exists x. }
  split; [done|]. split; [|split; [|split; [|split; [|split; [|split]]]]].
  - intros r (x & Hx & Hxo & -> & _)%Hrows Hvx. apply Hxo.
    apply (by_version_id (rows w)); [apply Hwf|done..|congruence].
  - rewrite (row_without_blob (rows w)) by done. by rewrite Hob, Hok, Hv.
  - intros r p (x & Hx & Hxo & _ & ->)%Hrows Hp.
    rewrite (row_without_blob (rows w)) by done.
    pose proof (proj1 (Forall_forall _ _) (wf_blob _ Hwf) obj Ho) as Hb.
    cbn beta in Hb. destruct (is_delete_marker obj); [done|].
    apply lookup_delete_ne. intros Heq. apply Hxo.
    apply (blobs_disjoint (rows w) x obj p _ Hwf Hx Ho Hp Hb).
    destruct (row_blob (rows w) obj _ Hwf Ho Hb) as (_ & _ & ->). done.
  - intros Hl. rewrite <- (reflag_same (filter _ (chain w b k))) at 2.
    apply reflag_ext. intros x _. unfold promote_flag.
    rewrite decide_False; [done|]. intros [? _]. congruence.
  - intros Hl (x & [Hcx Hx]%list_elem_of_filter & Hxo).
    destruct (next_latest_of b k v (rows w)) as [n|] eqn:Hn.
    + apply next_latest_of_Some in Hn as (Hnl & Hcn & Hvn & Hmax).
      exists n. split; [by apply list_elem_of_filter|].
      split; [intros ->; congruence|]. split.
      * intros y [Hcy Hy]%list_elem_of_filter Hyo. apply Hmax; [done..|].
        intros Hvy. apply Hyo.
        apply (by_version_id (rows w)); [apply Hwf|done..|congruence].
      * apply fmap_ext_elem. intros y _. unfold reflag, promote_flag.
        destruct (decide (y = n)) as [->|Hyn].
        -- by rewrite decide_True.
        -- rewrite decide_False by (intros [_ [= ->]]; done).
           apply set_is_latest_same.
    + exfalso. apply Hxo.
      apply (by_version_id (rows w)); [apply Hwf|done..|].
      rewrite Hv. by apply (next_latest_of_None (rows w) b k).
  - intros Honly.
    assert (filter (λ x, x ≠ obj) (chain w b k) = []) as Hnil.
    { apply elem_of_nil_inv. intros x [Hxo Hx]%list_elem_of_filter.
      by apply Hxo, Honly. }
    rewrite Hnil. split; [done|].
    rewrite serve_get_object. cbn [snd truthy].
    rewrite latest_of_chain. fold (chain w' b k).
    rewrite Hchain'. unfold rows'. rewrite confined_same. fold (chain w b k).
    by rewrite Hnil.
  - intros b' k' Hother. rewrite Hchain'.
    apply (confined_other _ b k); [|done].
    intros x Hx Hcx. by apply (delete_version_confined _ b k v).
Qed.

Lemma delete_version_removes_row_and_promotes_witness :
  (serve sample_w3 (DeleteObject "b" "k" (Some sample_u3) "" 9)).2
    = Response 204 [].
Proof.
  apply (delete_version_removes_row_and_promotes sample_w3 "b" "k" sample_u3
           {| id := Some 3%nat; bucket_name := "b"; key := "k";
              version_id := sample_u3; is_latest := true;
              is_delete_marker := false; size := 1;
              etag := etag_of (bytes_of "C"); last_modified := 3;
              content_type := "application/octet-stream";
              storage_path := Some (locator "b" "k" sample_u3) |} "" 9).
  - apply sample_w3_reachable.
  - apply (bool_decide_unpack _). by vm_compute.
  - reflexivity.
Defined.

(** ** Rolling back *)

Lemma newest_first_split l1 a l2 :
  newest_first (l1 ++ a :: l2) →
  (∀ x, x ∈ l1 → last_modified a ≤ last_modified x)
  ∧ (∀ x, x ∈ l2 → last_modified x ≤ last_modified a).
Proof.
  induction l1 as [|c l1 IH]; cbn [app newest_first].
  - intros [Hmax _]. split; [by intros x Hx%elem_of_nil|done].
  - intros [Hmax Hrest]. destruct (IH Hrest) as [Hnew Hold].
    split; [|done].
    intros x [->|Hx]%elem_of_cons; [|by apply Hnew].
    apply Hmax. apply elem_of_app. right. left.
Qed.

(** What [ui_rollback] does for a version id that a row of the chain
    carries, told by its scan. The scan of the chain, newest first, meets
    the rows [newer] before the target and the rows [older] after it: no
    row of [newer] is older than the target, no row of [older] is more
    recent, and where the timestamps of the chain all differ [newer] holds
    exactly the rows with a timestamp greater than the target's. Each row
    of [newer] is destroyed: no row carries its version id afterwards and
    nothing is left at the path of its blob. The chain of the key becomes
    the target and the rows of [older], the target current and the others
    not. Every row that remains still finds at its path what was there,
    and no other chain changes. *)
Theorem rollback_keeps_target_and_older w b k v tgt :
  reachable w → tgt ∈ chain w b k → version_id tgt = v →
  let w' := (serve w (Rollback b k v)).1 in
  ∃ newer older,
    order_by_last_modified_desc (chain w b k) = newer ++ tgt :: older
    ∧ NoDup (newer ++ tgt :: older)
    ∧ (∀ x, x ∈ chain w b k ↔ x ∈ newer ++ tgt :: older)
    ∧ (∀ x, x ∈ newer → last_modified tgt ≤ last_modified x)
    ∧ (∀ x, x ∈ older → last_modified x ≤ last_modified tgt)
    ∧ (NoDup (last_modified <$> chain w b k) →
       ∀ x, x ∈ chain w b k →
            x ∈ newer ↔ last_modified tgt < last_modified x)
    ∧ (serve w (Rollback b k v)).2 =
        JSONResponse
          [("status", "success");
           ("message",
            "Rolled back to " +:+ v +:+ ", newer versions deleted.")]
    ∧ chain w' b k =
        (λ x, set_is_latest (bool_decide (x = tgt)) x)
          <$> filter (λ x, x ∉ newer) (chain w b k)
    ∧ (∀ x, x ∈ newer →
         (∀ r, r ∈ rows w' → version_id r ≠ version_id x)
         ∧ (∀ p, storage_path x = Some p →
                 w_files w' !! get_file_path p = None))
    ∧ (∀ r p, r ∈ rows w' → storage_path r = Some p →
              w_files w' !! get_file_path p = w_files w !! get_file_path p)
    ∧ (∀ b' k', ¬ (b' = b ∧ k' = k) → chain w' b' k' = chain w b' k').
Proof.
  intros [Hwf H1]%reachable_inv Ht Hv.
  destruct (serve_rollback_found w b k v tgt Hwf Ht Hv)
    as (newer & older & Hsplit & Hnd & Hel & ->).
  cbn [fst snd]. exists newer, older.
  set (rows' := reflag (rollback_flag v (tgt :: older))
                  <$> filter (λ x, x ∉ newer) (rows w)).
  set (w' := with_blobs (with_rows w rows') (blobs_removed newer (w_files w))).
  assert (rows w' = rows') as Hrows' by done.
  assert (w_files w' = blobs_removed newer (w_files w)) as Hfiles' by done.
  assert (∀ b' k', chain w' b' k' = filter (in_chain b' k') rows') as Hchain'
    by done.
  clearbody w'.
  pose proof (order_by_newest_first (chain w b k)) as Hsorted.
  rewrite Hsplit in Hsorted.
  apply newest_first_split in Hsorted as [Hnew Hold].
  assert (∀ x, x ∈ chain w b k ↔ x ∈ newer ++ tgt :: older) as Hscan
    by (intros x; unfold chain; by rewrite list_elem_of_filter, Hel).
  pose proof (proj1 (NoDup_app _ _) Hnd) as (_ & Hdisj & _).
  assert (∀ x, x ∈ newer → x ∈ rows w) as Hnewer_rows.
  { intros x Hx. apply Hel. apply elem_of_app. by left. }
  assert (∀ r, r ∈ rows' →
               ∃ y, y ∈ rows w ∧ (y ∉ newer)
                    ∧ version_id r = version_id y
                    ∧ storage_path r = storage_path y) as Hkept.
  { intros r (y & -> & [Hyn Hy]%list_elem_of_filter)%list_elem_of_fmap.
    by exists y. }
  split; [done|]. split; [done|]. split; [done|]. split; [done|].
  split; [done|]. split; [|split; [done|split; [|split; [|split]]]].
  - (* distinct timestamps: [newer] is the rows strictly more recent *)
    intros Htimes x Hx. split.
    + intros Hxn. specialize (Hnew x Hxn).
      destruct (decide (last_modified x = last_modified tgt)) as [Heq|]; [|lia].
      apply (by_field last_modified (chain w b k)) in Heq as ->; [|done..].
      exfalso. apply (Hdisj tgt Hxn). left.
    + intros Hlt. apply Hscan in Hx.
      apply elem_of_app in Hx as [?|[->|Hx]%elem_of_cons]; [done|lia|].
      specialize (Hold x Hx). lia.
  - rewrite Hchain'. unfold rows'. rewrite confined_same.
    fold (chain w b k).
    apply fmap_ext_elem. intros x [Hxn Hx]%list_elem_of_filter.
    unfold reflag, rollback_flag. f_equal.
    assert (x ∈ tgt :: older) as Hxk
      by (by pose proof (proj1 (Hscan x) Hx) as [?|?]%elem_of_app).
    rewrite decide_True by done. apply bool_decide_ext. split.
    + intros Hvx.
      apply (by_version_id (rows w)); [apply Hwf|..|congruence].
      * by apply list_elem_of_filter in Hx as [_ ?].
      * by apply list_elem_of_filter in Ht as [_ ?].
    + by intros ->.
  - intros x Hxn. split.
    + intros r Hr Hvr. rewrite Hrows' in Hr.
      apply Hkept in Hr as (y & Hy & Hyn & Hvy & _).
      apply Hyn. assert (y = x) as -> ; [|done].
      apply (by_version_id (rows w)); [apply Hwf|done|by apply Hnewer_rows|].
      congruence.
    + intros p Hp. rewrite Hfiles'.
      by apply (blobs_removed_gone (rows w) newer _ x).
  - intros r p Hr Hp. rewrite Hrows' in Hr.
    apply Hkept in Hr as (y & Hy & Hyn & _ & Hpy). rewrite Hpy in Hp.
    rewrite Hfiles'. apply (blobs_removed_kept (rows w)); [done..|].
    intros x q Hx Hq Heq. apply Hyn.
    by rewrite <- (blobs_disjoint (rows w) x y q p Hwf (Hnewer_rows x Hx) Hy
                     Hq Hp Heq).
  - intros b' k' Hother. rewrite Hchain'.
    apply (confined_other _ b k); [|done].
    intros x Hx Hcx.
    by apply (rollback_confined (rows w) b k v newer tgt older).
Qed.

Lemma rollback_keeps_target_and_older_witness :
  (serve sample_w3 (Rollback "b" "k" sample_u1)).2 =
    JSONResponse
      [("status", "success");
       ("message", "Rolled back to " +:+ sample_u1
                     +:+ ", newer versions deleted.")].
Proof.
  destruct (rollback_keeps_target_and_older sample_w3 "b" "k" sample_u1
              {| id := Some 1%nat; bucket_name := "b"; key := "k";
                 version_id := sample_u1; is_latest := false;
                 is_delete_marker := false; size := 1;
                 etag := etag_of (bytes_of "A"); last_modified := 1;
                 content_type := "application/octet-stream";
                 storage_path := Some (locator "b" "k" sample_u1) |})
    as (newer & older & _ & _ & _ & _ & _ & _ & Hresp & _).
  - apply sample_w3_reachable.
  - apply (bool_decide_unpack _). by vm_compute.
  - reflexivity.
  - exact Hresp.
Defined.

(** C4. Rows written within one tick of the clock carry the same
    [last_modified], and the scan of [ui_rollback] meets them in table
    order, oldest first. For the key written three times in one tick, a
    rollback to the second version answers success, destroys the first
    version, which was written before the target, and keeps the third,
    which was written after it; a rollback to the third version destroys
    both versions written before it. The docstring of the route says that
    it deletes the versions created after the target. *)
Theorem rollback_with_equal_timestamps :
  let w := tied_w in
  let w2 := (serve w (Rollback "b" "k" sample_u2)).1 in
  let w3 := (serve w (Rollback "b" "k" sample_u3)).1 in
  draws_ok_all empty_world tied_requests
  ∧ (λ r, (id r, version_id r, last_modified r)) <$> chain w "b" "k"
      = [ (Some 1%nat, sample_u1, 7); (Some 2%nat, sample_u2, 7);
          (Some 3%nat, sample_u3, 7) ]
  ∧ (serve w (Rollback "b" "k" sample_u2)).2 = rollback_ok sample_u2
  ∧ (λ r, (version_id r, is_latest r)) <$> chain w2 "b" "k"
      = [ (sample_u2, true); (sample_u3, false) ]
  ∧ w_files w2 !! blob_path "b" "k" sample_u1 = None
  ∧ w_files w2 !! blob_path "b" "k" sample_u3 = Some (bytes_of "C")
  ∧ (serve w (Rollback "b" "k" sample_u3)).2 = rollback_ok sample_u3
  ∧ (λ r, (version_id r, is_latest r)) <$> chain w3 "b" "k"
      = [ (sample_u3, true) ]
  ∧ map_to_list (w_files w3) = [ (blob_path "b" "k" sample_u3, bytes_of "C") ].
Proof.
  split; [apply (bool_decide_unpack _); by vm_compute|].
  vm_compute. by repeat split.
Qed.

(** ** The invariant *)

Lemma serve_all_cons w q qs :
  serve_all w (q :: qs) = serve_all (serve w q).1 qs.
Proof. done. Qed.

Lemma reachable_serve_all w qs :
  reachable w → draws_ok_all w qs → reachable (serve_all w qs).
Proof.
  revert w. induction qs as [|q qs IH]; intros w Hw Hqs; [done|].
  destruct Hqs as [Hq Hqs]. rewrite serve_all_cons.
  apply IH; [|done]. by apply reachable_serve.
Qed.

Lemma draws_ok_all_take w qs n :
  draws_ok_all w qs → draws_ok_all w (take n qs).
Proof.
  revert w n. induction qs as [|q qs IH]; intros w [|n] Hqs; try done.
  destruct Hqs as [Hq Hqs]. cbn [take draws_ok_all].
  split; [done|]. by apply IH.
Qed.

(** C2. Start from the empty store and serve any sequence of bucket
    creations, puts, gets, deletes with and without version id, and
    rollbacks, each with a fresh version id where it draws one. After each
    request of the sequence, every chain that has a row has exactly one row
    with [is_latest] set. *)
Theorem one_current_row_after_every_request qs n b k :
  draws_ok_all empty_world qs →
  let w := serve_all empty_world (take n qs) in
  chain w b k ≠ [] →
  latest_count (chain w b k) = 1%nat
  ∧ ∃ r, filter (λ x, is_latest x = true) (chain w b k) = [r].
Proof.
  intros Hqs w Hne.
  assert (store_inv w) as [Hwf H1].
  { apply reachable_inv, reachable_serve_all; [apply reachable_empty|].
    by apply draws_ok_all_take. }
  pose proof (H1 b k Hne) as Hone. split; [done|].
  unfold latest_count in Hone. unfold chain in *.
  destruct (filter (λ x, is_latest x = true) _) as [|r [|r' l]];
    cbn in Hone; [lia|by exists r|lia].
Qed.

Lemma one_current_row_after_every_request_witness :
  latest_count (chain (serve_all empty_world (take 5 sample_requests)) "b" "k")
    = 1%nat.
Proof.
  apply (one_current_row_after_every_request sample_requests 5 "b" "k").
  - apply (bool_decide_unpack _). by vm_compute.
  - by vm_compute.
Defined.

(** * Further properties

    ** backend/storage.py *)

Section Storage.

Import PosixPath.

Lemma join2_restart path b : startswith_sep b = true → join2 path b = b.
Proof. intros Hb. unfold join2. by rewrite Hb. Qed.

(** [os.path.join] is associative once its first argument is fixed. *)
Lemma join2_assoc_any r p x : join2 r (join2 p x) = join2 (join2 r p) x.
Proof.
  destruct (startswith_sep x) eqn:Hx; [|by apply join2_assoc].
  by rewrite !(join2_restart _ x).
Qed.

Lemma get_file_path_locator_any b k v :
  get_file_path (locator b k v) = blob_path b k v.
Proof.
  unfold get_file_path, locator, blob_path, join. cbn [fold_left].
  by rewrite !join2_assoc_any.
Qed.

Lemma save_file_spec f b k v fs :
  save_file f b k v fs =
    ((locator b k v,
      {| buf := buf f; pos := (pos f + List.length (drop (pos f) (buf f)))%nat |}),
     <[blob_path b k v := drop (pos f) (buf f)]> fs).
Proof. done. Qed.

Lemma hex_not_endswith_sep bs : endswith_sep (Hashlib.hex bs) = false.
Proof.
  induction bs as [|b bs IH]; [done|].
  cbn [Hashlib.hex endswith_sep].
  destruct (Hashlib.hex bs) as [|c s] eqn:Hhex.
  - destruct b; reflexivity.
  - done.
Qed.

Lemma hex_md5_nonempty msg : Hashlib.hex (Hashlib.md5 msg) ≠ "".
Proof.
  intros Hnil. apply (f_equal String.length) in Hnil.
  rewrite hex_length, md5_length in Hnil. done.
Qed.

Lemma path_segment_seps b :
  path_segment b = true →
  b ≠ "" ∧ startswith_sep b = false ∧ endswith_sep b = false.
Proof.
  unfold path_segment. intros [Hne Hsep]%andb_prop.
  apply negb_true_iff in Hne, Hsep. apply bool_decide_eq_false in Hne.
  split; [done|]. split.
  - destruct b as [|c b]; [done|]. cbn in Hsep |- *.
    by apply orb_false_elim in Hsep as [? _].
  - clear Hne. induction b as [|c b IH]; [done|].
    cbn in Hsep. apply orb_false_elim in Hsep as [Hc Hb].
    cbn [endswith_sep]. destruct b; [done|]. by apply IH.
Qed.

Lemma join2_segment path b :
  path ≠ "" → endswith_sep path = false → startswith_sep b = false →
  join2 path b = path +:+ "/" +:+ b.
Proof.
  intros Hne Hend Hb. unfold join2. rewrite Hb, Hend.
  by rewrite bool_decide_false.
Qed.

Lemma string_app_nonempty s t : t ≠ "" → s +:+ t ≠ "".
Proof. intros Ht. destruct s; [done|]. by rewrite string_app_cons. Qed.

Lemma endswith_sep_app_nonempty s t :
  t ≠ "" → endswith_sep (s +:+ t) = endswith_sep t.
Proof. intros Ht. rewrite endswith_sep_app. by rewrite bool_decide_false. Qed.

(** The layout of the docstring of [save_file]:
    [data/{bucket}/{key_hash}/{version_id}]. *)
Lemma blob_path_layout b k v :
  path_segment b = true → startswith_sep v = false →
  locator b k v =
    b +:+ "/" +:+ Hashlib.hex (Hashlib.md5 (bytes_of k)) +:+ "/" +:+ v
  ∧ blob_path b k v = STORAGE_ROOT +:+ "/" +:+ locator b k v.
Proof.
  intros (Hne & Hstart & Hend)%path_segment_seps Hv.
  pose proof (hex_md5_nonempty (bytes_of k)) as Hh.
  assert (locator b k v =
          b +:+ "/" +:+ Hashlib.hex (Hashlib.md5 (bytes_of k)) +:+ "/" +:+ v)
    as Hloc.
  { unfold locator, join. cbn [fold_left].
    rewrite (join2_segment b) by (done || apply hex_not_sep).
    rewrite join2_segment; [by rewrite ?string_app_assoc| | |done].
    - by apply string_app_nonempty, string_app_nonempty.
    - rewrite <- string_app_assoc, endswith_sep_app_nonempty by done.
      apply hex_not_endswith_sep. }
  split; [done|].
  rewrite <- get_file_path_locator_any. unfold get_file_path, join.
  cbn [fold_left]. rewrite join2_segment; [done|done|done|].
  rewrite Hloc. rewrite startswith_sep_app. by rewrite bool_decide_false.
Qed.

Lemma string_app_inj_both s1 s2 t1 t2 :
  String.length t1 = String.length t2 → s1 +:+ t1 = s2 +:+ t2 →
  s1 = s2 ∧ t1 = t2.
Proof.
  intros Hlen Heq.
  pose proof (string_app_inj_suffix s1 s2 t1 t2 Hlen Heq) as ->.
  split; [|done].
  apply (string_app_inj_prefix s1 s2 t2 t2); [|done].
  apply (f_equal String.length) in Heq.
  rewrite !string_app_length in Heq. lia.
Qed.

(** Two blobs of the routes are one file only for the same bucket, the
    same hash of the key and the same version id. *)
Lemma blob_path_eq_inv b1 k1 v1 b2 k2 v2 :
  path_segment b1 = true → path_segment b2 = true →
  uuid_shaped v1 = true → uuid_shaped v2 = true →
  blob_path b1 k1 v1 = blob_path b2 k2 v2 →
  b1 = b2 ∧ Hashlib.md5 (bytes_of k1) = Hashlib.md5 (bytes_of k2) ∧ v1 = v2.
Proof.
  intros Hb1 Hb2 Hu1 Hu2.
  destruct (blob_path_layout b1 k1 v1 Hb1) as [Hl1 Hp1];
    [by apply uuid_shaped_not_sep|].
  destruct (blob_path_layout b2 k2 v2 Hb2) as [Hl2 Hp2];
    [by apply uuid_shaped_not_sep|].
  rewrite Hp1, Hp2, Hl1, Hl2.
  intros Heq. rewrite ?string_app_assoc in Heq.
  apply (inj (String.app STORAGE_ROOT)) in Heq.
  apply (inj (String.app "/")) in Heq.
  set (h1 := Hashlib.hex (Hashlib.md5 (bytes_of k1))) in *.
  set (h2 := Hashlib.hex (Hashlib.md5 (bytes_of k2))) in *.
  assert (String.length h1 = 32%nat) as Hh1
    by (unfold h1; by rewrite hex_length, md5_length).
  assert (String.length h2 = 32%nat) as Hh2
    by (unfold h2; by rewrite hex_length, md5_length).
  assert ((b1 +:+ "/") +:+ (h1 +:+ "/" +:+ v1)
          = (b2 +:+ "/") +:+ (h2 +:+ "/" +:+ v2)) as Heq'
    by (by rewrite ?string_app_assoc).
  apply string_app_inj_both in Heq' as [Hb Hrest].
  - assert ((h1 +:+ "/") +:+ v1 = (h2 +:+ "/") +:+ v2) as Hrest'
      by (by rewrite ?string_app_assoc).
    apply string_app_inj_both in Hrest' as [Hh Hv];
      [|by rewrite !uuid_shaped_length].
    apply string_app_inj_both in Hh as [Hh _]; [|done].
    apply string_app_inj_both in Hb as [Hb _]; [|done].
    split; [done|]. split; [by apply hex_inj|done].
  - rewrite !string_app_length, Hh1, Hh2. cbn [String.length String.append].
    rewrite ?string_app_length, !uuid_shaped_length by done. done.
Qed.



(** X2. For a bucket name that is a path segment and a version id that
    does not start with a separator, the blob is the file
    [STORAGE_ROOT/bucket/md5(key)/version_id], as the docstring of
    [save_file] says. So two blobs with UUID version ids are the same file
    only for the same bucket, the same version id and keys with the same
    MD5. *)
Theorem blob_path_layout_injective b1 k1 v1 b2 k2 v2 :
  path_segment b1 = true → path_segment b2 = true →
  uuid_shaped v1 = true → uuid_shaped v2 = true →
  blob_path b1 k1 v1 =
    STORAGE_ROOT +:+ "/" +:+ b1 +:+ "/"
      +:+ Hashlib.hex (Hashlib.md5 (bytes_of k1)) +:+ "/" +:+ v1
  ∧ (blob_path b1 k1 v1 = blob_path b2 k2 v2 →
     b1 = b2 ∧ Hashlib.md5 (bytes_of k1) = Hashlib.md5 (bytes_of k2)
     ∧ v1 = v2).
Proof.
  intros Hb1 Hb2 Hu1 Hu2. split; [|by apply blob_path_eq_inv].
  destruct (blob_path_layout b1 k1 v1 Hb1) as [Hl1 Hp1];
    [by apply uuid_shaped_not_sep|].
  rewrite Hp1, Hl1. by rewrite ?string_app_assoc.
Qed.

Lemma blob_path_layout_injective_witness :
  blob_path "b" "k" sample_u1 =
    STORAGE_ROOT +:+ "/" +:+ "b" +:+ "/"
      +:+ Hashlib.hex (Hashlib.md5 (bytes_of "k")) +:+ "/" +:+ sample_u1.
Proof.
  apply (blob_path_layout_injective "b" "k" sample_u1 "b" "k" sample_u1);
    reflexivity.
Defined.

End Storage.

(** ** Rows, blobs and buckets across requests *)

Section Store.

Implicit Types (w : world) (q : request) (l : list ObjectVersion)
  (x r : ObjectVersion) (fs : filesystem).

Lemma without_blob_subseteq r fs : without_blob r fs ⊆ fs.
Proof.
  unfold without_blob, delete_physical_file.
  destruct (truthy (storage_path r)); [apply delete_subseteq|done].
Qed.

Lemma blobs_removed_subseteq d fs : blobs_removed d fs ⊆ fs.
Proof.
  revert fs. induction d as [|a d IH]; intros fs; [done|].
  cbn [blobs_removed]. etrans; [apply IH|apply without_blob_subseteq].
Qed.

Lemma row_blob_path_reflag F r : row_blob_path (reflag F r) = row_blob_path r.
Proof. done. Qed.

(** The blob of a row that is not a delete marker, in a well-formed
    table. *)
Lemma row_storage_path l r :
  rows_wf l → r ∈ l → is_delete_marker r = false →
  ∃ p, storage_path r = Some p ∧ get_file_path p = row_blob_path r.
Proof.
  intros Hwf Hr Hdm.
  pose proof (proj1 (Forall_forall _ _) (wf_blob _ Hwf) r Hr) as Hb.
  cbn beta in Hb. rewrite Hdm in Hb. eexists. split; [done|].
  by destruct (row_blob l r _ Hwf Hr Hb) as (_ & _ & ?).
Qed.

Lemma row_blob_path_inj l x r :
  rows_wf l → x ∈ l → r ∈ l → row_blob_path x = row_blob_path r → x = r.
Proof.
  intros Hwf Hx Hr Heq. apply (by_version_id l); [apply Hwf|done..|].
  apply blob_path_inj in Heq; [done|..];
    by apply (proj1 (Forall_forall _ _) (wf_uuid _ Hwf)).
Qed.

Lemma row_without_blob_path l r fs :
  rows_wf l → r ∈ l →
  without_blob r fs =
    if is_delete_marker r then fs else delete (row_blob_path r) fs.
Proof. apply row_without_blob. Qed.

(** No route removes a bucket; [create_bucket] alone adds one. *)
Lemma serve_buckets w q :
  buckets (w_db (serve w q).1) = buckets (w_db w)
  ∨ ∃ b t, q = CreateBucket b t ∧ ¬ bucket_exists w b
      ∧ buckets (w_db (serve w q).1) =
          buckets (w_db w) ++ [{| name := b; creation_date := t;
                                  versioning_enabled := true |}].
Proof.
  destruct q as [b t|b k body ct u t|b k v|b k v u t|b k v].
  - rewrite serve_create_bucket.
    destruct (decide (bucket_exists w b)); [by left|].
    right. by exists b, t.
  - left. destruct (decide (bucket_exists w b)) as [Hb|Hb].
    + by rewrite serve_put_object.
    + by rewrite serve_put_object_no_bucket.
  - left. by rewrite serve_get_object.
  - left. destruct (truthy v) eqn:Hv.
    + apply truthy_Some in Hv as (s & -> & Hs).
      rewrite serve_delete_version by done.
      by destruct (version_of b k s (rows w)).
    + destruct (decide (bucket_exists w b)) as [Hb|Hb].
      * by rewrite serve_delete_marker.
      * by rewrite serve_delete_marker_no_bucket.
  - left. rewrite serve_rollback.
    destruct (rollback_scan _ _ _ _ _) as [[fnd tbl] fs]. by destruct fnd.
Qed.

Lemma serve_bucket_exists w q b :
  bucket_exists w b → bucket_exists (serve w q).1 b.
Proof.
  unfold bucket_exists.
  destruct (serve_buckets w q) as [->|(b' & t & _ & _ & ->)]; [done|].
  rewrite fmap_app. intros ?. apply elem_of_app. by left.
Qed.

(** What one request makes of the rows and of the blobs: rows are dropped
    ([gone]), the flags of the others are rewritten, rows are appended
    ([news]); a blob appears for a new row only, the blob of a dropped row
    is removed, and, unless the request is a rollback to a version the
    chain does not have, the blobs of the rows that stay are not touched. *)
Lemma serve_shape w q :
  store_inv w → draws_ok w q →
  ∃ F (gone news : list ObjectVersion),
    rows (serve w q).1 =
      (reflag F <$> filter (λ x, x ∉ gone) (rows w)) ++ news
    ∧ (∀ r, r ∈ news →
         bucket_exists w (bucket_name r)
         ∧ (is_delete_marker r = false →
            ∃ body, w_files (serve w q).1 !! row_blob_path r = Some body
                    ∧ etag r = etag_of body
                    ∧ size r = Z.of_nat (List.length body)))
    ∧ (∀ p body, w_files (serve w q).1 !! p = Some body →
         w_files w !! p = Some body
         ∨ ∃ r, r ∈ news ∧ is_delete_marker r = false ∧ p = row_blob_path r)
    ∧ (∀ r, r ∈ gone → r ∈ rows w)
    ∧ (∀ r, r ∈ gone → is_delete_marker r = false →
         w_files (serve w q).1 !! row_blob_path r = None)
    ∧ (target_known w q →
       ∀ r, r ∈ rows w → r ∉ gone →
         w_files (serve w q).1 !! row_blob_path r
           = w_files w !! row_blob_path r).
Proof.
  intros [Hwf H1] Hdraw.
  assert (∀ w', rows w' = rows w → w_files w' ⊆ w_files w →
            (target_known w q → w_files w' = w_files w) →
            ∃ F (gone news : list ObjectVersion),
              rows w' = (reflag F <$> filter (λ x, x ∉ gone) (rows w)) ++ news
              ∧ (∀ r, r ∈ news →
                   bucket_exists w (bucket_name r)
                   ∧ (is_delete_marker r = false →
                      ∃ body, w_files w' !! row_blob_path r = Some body
                              ∧ etag r = etag_of body
                              ∧ size r = Z.of_nat (List.length body)))
              ∧ (∀ p body, w_files w' !! p = Some body →
                   w_files w !! p = Some body
                   ∨ ∃ r, r ∈ news ∧ is_delete_marker r = false
                          ∧ p = row_blob_path r)
              ∧ (∀ r, r ∈ gone → r ∈ rows w)
              ∧ (∀ r, r ∈ gone → is_delete_marker r = false →
                   w_files w' !! row_blob_path r = None)
              ∧ (target_known w q →
                 ∀ r, r ∈ rows w → r ∉ gone →
                   w_files w' !! row_blob_path r
                     = w_files w !! row_blob_path r)) as Hsame.
  { intros w' Hr Hsub Hfs. exists is_latest, [], [].
    rewrite app_nil_r, reflag_same, filter_all
      by (intros; apply not_elem_of_nil).
    split; [done|]. split; [by intros r ?%elem_of_nil|].
    split; [intros p body Hp; left; by eapply lookup_weaken|].
    split; [by intros r ?%elem_of_nil|].
    split; [by intros r ?%elem_of_nil|].
    intros Hk r _ _. by rewrite Hfs. }
  assert (∀ r u, r ∈ rows w → u ∉ version_id <$> rows w →
            ∀ b k, uuid_shaped u = true →
              row_blob_path r ≠ blob_path b k u) as Hfresh_path.
  { intros r u Hr Hu b k Hshape Heq. apply Hu.
    apply blob_path_inj in Heq as <-; [by apply list_elem_of_fmap_2|..|done].
    by apply (proj1 (Forall_forall _ _) (wf_uuid _ Hwf)). }
  destruct q as [b t|b k body ct u t|b k v|b k v u t|b k v].
  - apply Hsame; rewrite serve_create_bucket;
      by destruct (decide (bucket_exists w b)).
  - destruct (decide (bucket_exists w b)) as [Hb|Hb];
      [|apply Hsame; by rewrite serve_put_object_no_bucket].
    destruct Hdraw as [Hu Hfresh]. rewrite serve_put_object by done.
    cbn [fst rows with_blobs with_rows w_db w_files object_versions].
    rewrite demoted_spec by (done || apply Hwf).
    unfold added. cbn [id new_object]. rewrite next_id_reflag.
    eexists _, [], [_].
    rewrite filter_all by (intros; apply not_elem_of_nil).
    split; [done|]. split; [|split; [|split; [|split]]].
    + intros r ->%list_elem_of_singleton. split; [done|]. intros _.
      exists body. split; [apply lookup_insert_eq|done].
    + intros p body0 [[<- <-]|[Hne Hp]]%lookup_insert_Some; [right|by left].
      eexists. split; [by apply list_elem_of_singleton|done].
    + by intros r ?%elem_of_nil.
    + by intros r ?%elem_of_nil.
    + intros _ r Hr _. apply lookup_insert_ne. intros Heq.
      by apply (Hfresh_path r u Hr Hfresh b k).
  - apply Hsame; by rewrite serve_get_object.
  - cbn [draws_ok] in Hdraw. destruct (truthy v) eqn:Hv.
    + apply truthy_Some in Hv as (s & -> & Hs).
      rewrite serve_delete_version by done.
      destruct (version_of b k s (rows w)) as [obj|] eqn:Hobj;
        [|by apply Hsame].
      pose proof (version_of_Some _ _ _ _ _ Hobj) as (Ho & Hc & Hvo).
      cbn [fst rows with_blobs with_rows w_db w_files object_versions].
      rewrite (delete_version_spec _ b k s) by (done || apply Hwf).
      rewrite (row_without_blob_path (rows w)) by done.
      exists (promote_flag obj (next_latest_of b k s (rows w))), [obj], [].
      rewrite app_nil_r.
      split; [|split; [|split; [|split; [|split]]]].
      * f_equal. apply list_filter_iff. intros x.
        by rewrite list_elem_of_singleton.
      * by intros r ?%elem_of_nil.
      * intros p body Hp. left. revert Hp.
        destruct (is_delete_marker obj); [done|].
        by intros [_ ?]%lookup_delete_Some.
      * by intros r ->%list_elem_of_singleton.
      * intros r ->%list_elem_of_singleton ->. apply lookup_delete_eq.
      * intros _ r Hr Hne. destruct (is_delete_marker obj); [done|].
        apply lookup_delete_ne. intros Heq. apply Hne.
        apply list_elem_of_singleton. symmetry.
        by apply (row_blob_path_inj (rows w)).
    + destruct (decide (bucket_exists w b)) as [Hb|Hb];
        [|apply Hsame; by rewrite serve_delete_marker_no_bucket].
      destruct Hdraw as [Hu Hfresh]. rewrite serve_delete_marker by done.
      cbn [fst rows with_rows w_db w_files object_versions].
      rewrite demoted_spec by (done || apply Hwf).
      unfold added. cbn [id new_delete_marker]. rewrite next_id_reflag.
      eexists _, [], [_].
      rewrite filter_all by (intros; apply not_elem_of_nil).
      split; [done|]. split; [|split; [|split; [|split]]].
      * by intros r ->%list_elem_of_singleton.
      * intros p body0 Hp. by left.
      * by intros r ?%elem_of_nil.
      * by intros r ?%elem_of_nil.
      * done.
  - destruct (decide (v ∈ version_id <$> chain w b k)) as [Hin|Hout].
    + apply list_elem_of_fmap in Hin as (tgt & Hv & Ht).
      destruct (serve_rollback_found w b k v tgt Hwf Ht (eq_sym Hv))
        as (newer & older & Hsplit & Hnd & Hel & ->).
      cbn [fst rows with_blobs with_rows w_db w_files object_versions].
      assert (∀ y, y ∈ newer → y ∈ rows w) as Hnewer.
      { intros y Hy. apply (Hel y). apply elem_of_app. by left. }
      exists (rollback_flag v (tgt :: older)), newer, [].
      rewrite app_nil_r.
      split; [done|]. split; [|split; [|split; [|split]]].
      * by intros r ?%elem_of_nil.
      * intros p body Hp. left.
        by eapply lookup_weaken; [|apply blobs_removed_subseteq].
      * done.
      * intros r Hr Hdm.
        destruct (row_storage_path (rows w) r Hwf (Hnewer r Hr) Hdm)
          as (p & Hp & <-).
        by apply (blobs_removed_gone (rows w) newer _ r).
      * intros _ r Hr Hout.
        apply (blobs_removed_kept (rows w)); [done..|].
        intros x p Hx Hp Heq. apply Hout.
        destruct (row_blob (rows w) x p Hwf (Hnewer x Hx) Hp)
          as (_ & _ & Hpath).
        rewrite Heq in Hpath.
        by rewrite <- (row_blob_path_inj (rows w) x r Hwf (Hnewer x Hx) Hr).
    + rewrite serve_rollback_not_found.
      * apply Hsame; [done|apply blobs_removed_subseteq|done].
      * intros x Hx Hxv. apply Hout. apply list_elem_of_fmap. by exists x.
Qed.

Lemma no_orphans_serve w q :
  store_inv w → draws_ok w q → no_orphans w → no_orphans (serve w q).1.
Proof.
  intros Hinv Hdraw Hno p body Hp.
  destruct (serve_shape w q Hinv Hdraw)
    as (F & gone & news & -> & _ & Hfiles & _ & Hgone & _).
  destruct (Hfiles p body Hp) as [Hold|(r & Hr & Hdm & ->)].
  - destruct (Hno p body Hold) as (r & Hr & Hdm & ->).
    exists (reflag F r). split; [|done].
    apply elem_of_app. left. apply list_elem_of_fmap_2.
    apply list_elem_of_filter. split; [|done].
    intros Hg. by rewrite (Hgone r Hg Hdm) in Hp.
  - exists r. split; [|done]. apply elem_of_app. by right.
Qed.

Lemma blob_intact_serve w q :
  store_inv w → draws_ok w q → target_known w q →
  blob_intact w → blob_intact (serve w q).1.
Proof.
  intros Hinv Hdraw Hknown Hint r'.
  destruct (serve_shape w q Hinv Hdraw)
    as (F & gone & news & -> & Hnews & _ & _ & _ & Hkept).
  intros [Hold|Hnew]%elem_of_app Hdm; [|by apply Hnews].
  apply list_elem_of_fmap in Hold as (r & -> & [Hg Hr]%list_elem_of_filter).
  rewrite row_blob_path_reflag, (Hkept Hknown r Hr Hg).
  by apply (Hint r).
Qed.

Lemma buckets_ok_serve w q :
  store_inv w → draws_ok w q → buckets_ok w → buckets_ok (serve w q).1.
Proof.
  intros Hinv Hdraw [Hnd Hver Hin].
  split.
  - destruct (serve_buckets w q) as [->|(b & t & _ & Hb & ->)]; [done|].
    rewrite fmap_app. apply NoDup_app. split; [done|].
    split; [|apply NoDup_singleton].
    by intros x Hx ->%list_elem_of_singleton.
  - destruct (serve_buckets w q) as [->|(b & t & _ & Hb & ->)]; [done|].
    apply Forall_app. split; [done|]. by repeat constructor.
  - destruct (serve_shape w q Hinv Hdraw)
      as (F & gone & news & -> & Hnews & _).
    apply Forall_forall. intros r' [Hold|Hnew]%elem_of_app.
    + apply list_elem_of_fmap in Hold
        as (r & -> & [_ Hr]%list_elem_of_filter).
      apply serve_bucket_exists.
      exact (proj1 (Forall_forall _ _) Hin r Hr).
    + apply serve_bucket_exists. by apply Hnews.
Qed.

Lemma reachable_buckets w : reachable w → buckets_ok w.
Proof.
  induction 1 as [|w q Hw IH Hdraw].
  - split; cbn; constructor.
  - apply buckets_ok_serve; [by apply reachable_inv|done..].
Qed.

Lemma reachable_no_orphans w : reachable w → no_orphans w.
Proof.
  induction 1 as [|w q Hw IH Hdraw].
  - by intros p body Hp.
  - apply no_orphans_serve; [by apply reachable_inv|done..].
Qed.

Lemma blob_intact_serve_all w qs :
  reachable w → blob_intact w →
  draws_ok_all w qs → targets_known_all w qs →
  blob_intact (serve_all w qs).
Proof.
  revert w. induction qs as [|q qs IH]; intros w Hw Hint Hd Hk; [done|].
  destruct Hd as [Hd Hds], Hk as [Hk Hks]. rewrite serve_all_cons.
  apply IH; [by apply reachable_serve| |done..].
  apply blob_intact_serve; [by apply reachable_inv|done..].
Qed.

End Store.
(** ** Buckets *)

Section StoreProperties.

Implicit Types (w : world) (q : request) (l : list ObjectVersion)
  (x r : ObjectVersion) (fs : filesystem).

(** X3. [create_bucket] answers 200 exactly when no bucket has the name and
    409 BucketAlreadyExists exactly when one has; either way the bucket
    exists afterwards and no row and no blob has changed. A name that is
    taken leaves the store as it was, so creating the same bucket a second
    time always answers 409. *)
Theorem create_bucket_then_conflict w b t t' :
  let w1 := (serve w (CreateBucket b t)).1 in
  bucket_exists w1 b
  ∧ rows w1 = rows w ∧ w_files w1 = w_files w
  ∧ ((serve w (CreateBucket b t)).2 = Response 200 [] ↔ ¬ bucket_exists w b)
  ∧ ((serve w (CreateBucket b t)).2 = HTTPException 409 "BucketAlreadyExists"
     ↔ bucket_exists w b)
  ∧ (bucket_exists w b → w1 = w)
  ∧ serve w1 (CreateBucket b t') =
      (w1, HTTPException 409 "BucketAlreadyExists").
Proof.
  intros w1.
  assert (bucket_exists w1 b) as Hb1.
  { unfold w1. rewrite serve_create_bucket.
    destruct (decide (bucket_exists w b)) as [Hb|Hb]; [done|].
    unfold bucket_exists. cbn [fst w_db buckets]. rewrite fmap_app.
    apply elem_of_app. right. by apply list_elem_of_singleton. }
  split; [done|].
  split; [|split; [|split; [|split; [|split]]]].
  - unfold w1. rewrite serve_create_bucket.
    by destruct (decide (bucket_exists w b)).
  - unfold w1. rewrite serve_create_bucket.
    by destruct (decide (bucket_exists w b)).
  - rewrite serve_create_bucket.
    destruct (decide (bucket_exists w b)); cbn [snd]; by split.
  - rewrite serve_create_bucket.
    destruct (decide (bucket_exists w b)); cbn [snd]; by split.
  - intros Hb. unfold w1. rewrite serve_create_bucket.
    by rewrite decide_True.
  - rewrite (serve_create_bucket w1). by rewrite decide_True.
Qed.

(** X4. In every store the routes can produce from the empty store, no two
    buckets share a name, every bucket has versioning enabled, and every
    version row belongs to a bucket of the bucket table. *)
Theorem bucket_table_consistent w : reachable w → buckets_ok w.
Proof. apply reachable_buckets. Qed.

Lemma bucket_table_consistent_witness : buckets_ok sample_w3.
Proof. apply (bucket_table_consistent sample_w3), sample_w3_reachable. Defined.

Lemma chain_no_bucket w b k :
  buckets_ok w → ¬ bucket_exists w b → chain w b k = [].
Proof.
  intros [_ _ Hin] Hb. apply elem_of_nil_inv.
  intros x [[<- _] Hx]%list_elem_of_filter. apply Hb.
  exact (proj1 (Forall_forall _ _) Hin x Hx).
Qed.

(** X5. What each route answers for a bucket that does not exist, and that
    none of them changes the store. A put and a delete without version id
    answer 404 NoSuchBucket; a get answers 404 NoSuchKey, with or without
    version id; a delete with a version id answers 204; a rollback answers
    404 and, the chain being empty, removes no blob. *)
Theorem requests_on_missing_bucket w b k v v' body ct u t :
  reachable w → ¬ bucket_exists w b →
  serve w (PutObject b k body ct u t) = (w, HTTPException 404 "NoSuchBucket")
  ∧ serve w (DeleteObject b k None u t)
      = (w, HTTPException 404 "NoSuchBucket")
  ∧ serve w (GetObject b k v) = (w, HTTPException 404 "NoSuchKey")
  ∧ (truthy v = true → serve w (DeleteObject b k v u t) = (w, Response 204 []))
  ∧ serve w (Rollback b k v')
      = (w, HTTPException 404 "Target version not found in history").
Proof.
  intros Hw Hb.
  pose proof (chain_no_bucket w b k (reachable_buckets w Hw) Hb) as Hnil.
  split; [by apply serve_put_object_no_bucket|].
  split; [by apply serve_delete_marker_no_bucket|].
  assert (∀ s, version_of b k s (rows w) = None) as Hver.
  { intros s. rewrite version_of_chain. fold (chain w b k). by rewrite Hnil. }
  split; [|split].
  - rewrite serve_get_object, latest_of_chain. fold (chain w b k).
    rewrite Hver, Hnil. by destruct (truthy v).
  - intros (s & -> & Hs)%truthy_Some.
    rewrite serve_delete_version by done. by rewrite Hver.
  - rewrite serve_rollback_not_found by (rewrite Hnil; by intros x ?%elem_of_nil).
    rewrite Hnil. cbn. by destruct w.
Qed.

Lemma requests_on_missing_bucket_witness :
  serve sample_w3 (PutObject "nope" "k" (bytes_of "A") None sample_u4 9)
    = (sample_w3, HTTPException 404 "NoSuchBucket").
Proof.
  apply (requests_on_missing_bucket sample_w3 "nope" "k" None "" (bytes_of "A")
           None sample_u4 9).
  - apply sample_w3_reachable.
  - apply (bool_decide_unpack _). by vm_compute.
Defined.

(** ** Rows and blobs *)

(** X22. In every store the routes can produce from the empty store, no
    two rows share a version id or a primary key, every version id has
    the shape of a UUID, a delete marker has no storage path, and every
    other row has the storage path that [save_file] derives from its
    bucket, its key and its version id. *)
Theorem rows_well_formed w r :
  reachable w → r ∈ rows w →
  NoDup (version_id <$> rows w) ∧ NoDup (id <$> rows w)
  ∧ is_Some (id r) ∧ uuid_shaped (version_id r) = true
  ∧ storage_path r =
      (if is_delete_marker r then None
       else Some (save_file {| buf := []; pos := 0 |} (bucket_name r) (key r)
                    (version_id r) ∅).1.1).
Proof.
  intros Hw Hr. destruct (reachable_inv w Hw) as [[H1 H2 H3 H4 H5] _].
  split; [done|]. split; [done|].
  split; [exact (proj1 (Forall_forall _ _) H2 r Hr)|].
  split; [exact (proj1 (Forall_forall _ _) H4 r Hr)|].
  rewrite save_file_spec. cbn [fst].
  exact (proj1 (Forall_forall _ _) H5 r Hr).
Qed.

Lemma rows_well_formed_witness :
  NoDup (version_id <$> rows sample_w3) ∧ NoDup (id <$> rows sample_w3).
Proof.
  destruct (rows_well_formed sample_w3
              {| id := Some 1%nat; bucket_name := "b"; key := "k";
                 version_id := sample_u1; is_latest := false;
                 is_delete_marker := false; size := 1;
                 etag := etag_of (bytes_of "A"); last_modified := 1;
                 content_type := "application/octet-stream";
                 storage_path := Some (locator "b" "k" sample_u1) |})
    as (Hv & Hi & _).
  - apply sample_w3_reachable.
  - apply (bool_decide_unpack _). by vm_compute.
  - by split.
Defined.

(** X6. No blob without a row: in every store the routes can produce from
    the empty store, every file of the blob medium is the blob of a row
    that is not a delete marker. *)
Theorem no_blob_without_row w p body :
  reachable w → w_files w !! p = Some body →
  ∃ r, r ∈ rows w ∧ is_delete_marker r = false
       ∧ p = blob_path (bucket_name r) (key r) (version_id r).
Proof. intros Hw Hp. by apply (reachable_no_orphans w Hw p body). Qed.

Lemma no_blob_without_row_witness :
  ∃ r, r ∈ rows sample_w3 ∧ is_delete_marker r = false
       ∧ blob_path "b" "k" sample_u2
           = blob_path (bucket_name r) (key r) (version_id r).
Proof.
  apply (no_blob_without_row sample_w3 (blob_path "b" "k" sample_u2)
           (bytes_of "B")).
  - apply sample_w3_reachable.
  - by vm_compute.
Defined.

(** X7. No row without its blob: after any sequence of requests from the
    empty store in which every rollback names a version of the chain it
    rolls back, every row that is not a delete marker finds its content at
    its path, and its [etag] and [size] are the digest and the length of
    that content. *)
Theorem every_row_keeps_its_blob qs r :
  draws_ok_all empty_world qs → targets_known_all empty_world qs →
  let w := serve_all empty_world qs in
  r ∈ rows w → is_delete_marker r = false →
  ∃ body,
    w_files w !! blob_path (bucket_name r) (key r) (version_id r) = Some body
    ∧ etag r = etag_of body
    ∧ size r = Z.of_nat (List.length body).
Proof.
  intros Hd Hk w Hr Hdm.
  apply (blob_intact_serve_all empty_world qs); try done.
  - apply reachable_empty.
  - by intros x ?%elem_of_nil.
Qed.

Lemma every_row_keeps_its_blob_witness :
  ∃ body,
    w_files (serve_all empty_world (take 3 sample_requests))
      !! blob_path "b" "k" sample_u1 = Some body
    ∧ etag_of (bytes_of "A") = etag_of body
    ∧ 1 = Z.of_nat (List.length body).
Proof.
  apply (every_row_keeps_its_blob (take 3 sample_requests)
           {| id := Some 1%nat; bucket_name := "b"; key := "k";
              version_id := sample_u1; is_latest := false;
              is_delete_marker := false; size := 1;
              etag := etag_of (bytes_of "A"); last_modified := 1;
              content_type := "application/octet-stream";
              storage_path := Some (locator "b" "k" sample_u1) |}).
  - apply (bool_decide_unpack _). by vm_compute.
  - apply (bool_decide_unpack _). by vm_compute.
  - apply (bool_decide_unpack _). by vm_compute.
  - reflexivity.
Defined.

(** X8. After any sequence of requests from the empty store in which
    every rollback names a version of the chain it rolls back, a get never
    answers 500. It answers 404 NoSuchKey, or it streams the content
    stored for the row it selected, which is a row of the chain and not a
    delete marker, and the ETag and Content-Length headers are the digest
    and the length of the bytes streamed. *)
Theorem get_object_streams_the_blob qs b k v :
  draws_ok_all empty_world qs → targets_known_all empty_world qs →
  let w := serve_all empty_world qs in
  (serve w (GetObject b k v)).2 = HTTPException 404 "NoSuchKey"
  ∨ ∃ obj body,
      obj ∈ chain w b k ∧ selected v obj ∧ is_delete_marker obj = false
      ∧ w_files w !! row_blob_path obj = Some body
      ∧ (serve w (GetObject b k v)).2 =
          StreamingResponse body
            [("x-amz-version-id", version_id obj);
             ("ETag", etag_of body);
             ("Content-Type", content_type obj);
             ("Content-Length", pretty (Z.of_nat (List.length body)))].
Proof.
  intros Hd Hk w.
  assert (reachable w) as Hw
    by (apply reachable_serve_all; [apply reachable_empty|done]).
  assert (blob_intact w) as Hint.
  { apply blob_intact_serve_all; try done; [apply reachable_empty|].
    by intros x ?%elem_of_nil. }
  destruct (reachable_inv w Hw) as [Hwf _].
  rewrite serve_get_object. cbn [snd].
  assert (∀ obj, obj ∈ rows w → in_chain b k obj → selected v obj →
            (if is_delete_marker obj then HTTPException 404 "NoSuchKey"
             else match storage_path obj with
                  | None => HTTPException 500 "Internal Server Error"
                  | Some p =>
                      match w_files w !! get_file_path p with
                      | None =>
                          HTTPException 500
                            "InternalError: File missing on disk"
                      | Some content =>
                          StreamingResponse content
                            [("x-amz-version-id", version_id obj);
                             ("ETag", etag obj);
                             ("Content-Type", content_type obj);
                             ("Content-Length", pretty (size obj))]
                      end
                  end) = HTTPException 404 "NoSuchKey"
            ∨ ∃ obj0 body,
                obj0 ∈ chain w b k ∧ selected v obj0
                ∧ is_delete_marker obj0 = false
                ∧ w_files w !! row_blob_path obj0 = Some body
                ∧ (if is_delete_marker obj then HTTPException 404 "NoSuchKey"
                   else match storage_path obj with
                        | None => HTTPException 500 "Internal Server Error"
                        | Some p =>
                            match w_files w !! get_file_path p with
                            | None =>
                                HTTPException 500
                                  "InternalError: File missing on disk"
                            | Some content =>
                                StreamingResponse content
                                  [("x-amz-version-id", version_id obj);
                                   ("ETag", etag obj);
                                   ("Content-Type", content_type obj);
                                   ("Content-Length", pretty (size obj))]
                            end
                        end) =
                    StreamingResponse body
                      [("x-amz-version-id", version_id obj0);
                       ("ETag", etag_of body);
                       ("Content-Type", content_type obj0);
                       ("Content-Length",
                        pretty (Z.of_nat (List.length body)))]) as Hrow.
  { intros obj Ho Hc Hsel.
    destruct (is_delete_marker obj) eqn:Hdm; [by left|]. right.
    destruct (row_storage_path (rows w) obj Hwf Ho Hdm) as (p & Hp & Hpath).
    destruct (Hint obj Ho Hdm) as (body & Hbody & Hetag & Hsize).
    exists obj, body. rewrite Hp, Hpath, Hbody, Hetag, Hsize.
    split; [by apply list_elem_of_filter|done]. }
  unfold selected in Hrow |- *. destruct (truthy v).
  - destruct (version_of b k (default "" v) (rows w)) as [obj|] eqn:Hobj;
      [|by left].
    apply version_of_Some in Hobj as (Ho & Hc & Hv). by apply Hrow.
  - destruct (latest_of b k (rows w)) as [obj|] eqn:Hobj; [|by left].
    apply first_filter_Some in Hobj as [[Hc Hl] Ho]. by apply Hrow.
Qed.

Lemma get_object_streams_the_blob_witness :
  (serve (serve_all empty_world (take 3 sample_requests))
     (GetObject "b" "k" None)).2 = HTTPException 404 "NoSuchKey"
  ∨ ∃ obj body,
      obj ∈ chain (serve_all empty_world (take 3 sample_requests)) "b" "k"
      ∧ selected None obj ∧ is_delete_marker obj = false
      ∧ w_files (serve_all empty_world (take 3 sample_requests))
          !! row_blob_path obj = Some body
      ∧ (serve (serve_all empty_world (take 3 sample_requests))
           (GetObject "b" "k" None)).2 =
          StreamingResponse body
            [("x-amz-version-id", version_id obj);
             ("ETag", etag_of body);
             ("Content-Type", content_type obj);
             ("Content-Length", pretty (Z.of_nat (List.length body)))].
Proof.
  apply (get_object_streams_the_blob (take 3 sample_requests) "b" "k" None).
  - apply (bool_decide_unpack _). by vm_compute.
  - apply (bool_decide_unpack _). by vm_compute.
Defined.

(** X9. After any sequence of requests from the empty store in which
    every rollback names a version of the chain it rolls back, every
    version that is stored can be read back by its version id: for each
    row that is not a delete marker, a get of its key with its version id
    streams the content at its path. For a delete marker the same get
    answers 404 NoSuchKey. *)
Theorem every_version_is_readable qs r :
  draws_ok_all empty_world qs → targets_known_all empty_world qs →
  let w := serve_all empty_world qs in
  r ∈ rows w →
  ((serve w (GetObject (bucket_name r) (key r) (Some (version_id r)))).2 =
     if is_delete_marker r then HTTPException 404 "NoSuchKey"
     else
       match w_files w !! row_blob_path r with
       | Some body =>
           StreamingResponse body
             [("x-amz-version-id", version_id r);
              ("ETag", etag_of body);
              ("Content-Type", content_type r);
              ("Content-Length", pretty (Z.of_nat (List.length body)))]
       | None => HTTPException 500 "InternalError: File missing on disk"
       end)
  ∧ (is_delete_marker r = false → is_Some (w_files w !! row_blob_path r)).
Proof.
  intros Hd Hk w Hr.
  assert (reachable w) as Hw
    by (apply reachable_serve_all; [apply reachable_empty|done]).
  assert (blob_intact w) as Hint.
  { apply blob_intact_serve_all; try done; [apply reachable_empty|].
    by intros x ?%elem_of_nil. }
  destruct (reachable_inv w Hw) as [Hwf _].
  assert (version_id r ≠ "") as Hne.
  { apply uuid_shaped_nonempty.
    exact (proj1 (Forall_forall _ _) (wf_uuid _ Hwf) r Hr). }
  rewrite serve_get_object. cbn [snd truthy default].
  rewrite bool_decide_false by done. cbn [negb].
  rewrite (version_of_member w _ _ (version_id r) r Hwf);
    [|by apply list_elem_of_filter|done].
  destruct (is_delete_marker r) eqn:Hdm; [done|].
  destruct (row_storage_path (rows w) r Hwf Hr Hdm) as (p & Hp & Hpath).
  destruct (Hint r Hr Hdm) as (body & Hbody & Hetag & Hsize).
  rewrite Hp, Hpath, Hbody, Hetag, Hsize. by split.
Qed.

Lemma every_version_is_readable_witness :
  (serve (serve_all empty_world (take 3 sample_requests))
     (GetObject "b" "k" (Some sample_u1))).2 =
    match w_files (serve_all empty_world (take 3 sample_requests))
            !! blob_path "b" "k" sample_u1 with
    | Some body =>
        StreamingResponse body
          [("x-amz-version-id", sample_u1);
           ("ETag", etag_of body);
           ("Content-Type", "application/octet-stream");
           ("Content-Length", pretty (Z.of_nat (List.length body)))]
    | None => HTTPException 500 "InternalError: File missing on disk"
    end.
Proof.
  refine (proj1 (every_version_is_readable (take 3 sample_requests)
           {| id := Some 1%nat; bucket_name := "b"; key := "k";
              version_id := sample_u1; is_latest := false;
              is_delete_marker := false; size := 1;
              etag := etag_of (bytes_of "A"); last_modified := 1;
              content_type := "application/octet-stream";
              storage_path := Some (locator "b" "k" sample_u1) |} _ _ _)).
  - apply (bool_decide_unpack _). by vm_compute.
  - apply (bool_decide_unpack _). by vm_compute.
  - apply (bool_decide_unpack _). by vm_compute.
Defined.

End StoreProperties.
(** ** Undoing a write *)

Section History.

Implicit Types (w : world) (q : request) (l : list ObjectVersion)
  (x o r : ObjectVersion) (fs : filesystem).

Lemma version_of_in l b k v obj :
  rows_wf l → obj ∈ l → in_chain b k obj → version_id obj = v →
  version_of b k v l = Some obj.
Proof.
  intros Hwf Ho Hc Hv.
  destruct (version_of b k v l) as [o|] eqn:Hfirst.
  - apply version_of_Some in Hfirst as (Hin & _ & Hvo). f_equal.
    apply (by_version_id l); [apply Hwf|done..|congruence].
  - exfalso. by apply (first_filter_None _ _ Hfirst obj).
Qed.

(** A row pushed on a chain whose current row is its most recent one, then
    deleted by its version id: the table is what it was. *)
Lemma push_then_delete l b k r :
  rows_wf l → one_latest l →
  (∀ o x, o ∈ l → in_chain b k o → is_latest o = true →
          x ∈ l → in_chain b k x → x ≠ o →
          last_modified x < last_modified o) →
  id r = None → in_chain b k r → is_latest r = true →
  uuid_shaped (version_id r) = true → version_id r ∉ version_id <$> l →
  storage_path r =
    (if is_delete_marker r then None
     else Some (locator (bucket_name r) (key r) (version_id r))) →
  rows_wf (added r (demoted b k l))
  ∧ set_id (Some (next_id l)) r ∈ added r (demoted b k l)
  ∧ version_of b k (version_id r) (added r (demoted b k l))
      = Some (set_id (Some (next_id l)) r)
  ∧ delete_row (set_id (Some (next_id l)) r)
      (promoted b k (version_id r) (added r (demoted b k l))) = l.
Proof.
  intros Hwf H1 Hnewest Hid Hc Hl Hu Hv Hp.
  pose proof (rows_wf_pushed l b k r Hwf H1 Hid Hu Hv Hp) as Hwf1.
  set (F := λ x, if decide (in_chain b k x) then false else is_latest x).
  set (obj := set_id (Some (next_id l)) r).
  assert (added r (demoted b k l) = (reflag F <$> l) ++ [obj]) as Hl1.
  { rewrite demoted_spec by (done || apply Hwf).
    unfold added. rewrite Hid. by rewrite next_id_reflag. }
  rewrite Hl1 in Hwf1 |- *.
  set (l1 := (reflag F <$> l) ++ [obj]) in *.
  assert (obj ∈ l1) as Ho
    by (apply elem_of_app; right; by apply list_elem_of_singleton).
  assert (in_chain b k obj) as Hco by done.
  assert (is_latest obj = true) as Hlo by done.
  assert (version_id obj = version_id r) as Hvo by done.
  assert (version_of b k (version_id r) l1 = Some obj) as Hver
    by (by apply version_of_in).
  split; [done|]. split; [done|]. split; [done|].
  pose proof (delete_version_spec l1 b k (version_id r) obj
                (wf_ids _ Hwf1) (wf_ids_some _ Hwf1) Hver) as Hspec.
  rewrite Hlo in Hspec. rewrite Hspec.
  assert (∀ y, y ∈ l → reflag F y ∈ l1) as Hold.
  { intros y Hy. apply elem_of_app. left. by apply list_elem_of_fmap_2. }
  assert (∀ y, y ∈ l → version_id (reflag F y) ≠ version_id r) as Hvold.
  { intros y Hy Heq. apply Hv. rewrite <- Heq.
    change (version_id (reflag F y)) with (version_id y).
    by apply list_elem_of_fmap_2. }
  assert (filter (λ x, x ≠ obj) l1 = reflag F <$> l) as ->.
  { unfold l1. rewrite filter_app, filter_all.
    - rewrite filter_cons_False by (by intros ?).
      by rewrite filter_nil, app_nil_r.
    - intros a (y & -> & Hy)%list_elem_of_fmap Heq.
      apply (Hvold y Hy). by rewrite Heq. }
  rewrite reflag_reflag.
  transitivity (reflag is_latest <$> l); [|apply reflag_same].
  apply reflag_ext. intros x Hx. unfold promote_flag.
  destruct (decide (in_chain b k x)) as [Hcx|Hcx].
  - assert (is_latest (reflag F x) = false) as HFx
      by (cbn; unfold F; by rewrite decide_True).
    destruct (is_latest x) eqn:Hlx.
    + rewrite decide_True; [done|]. split; [done|].
      destruct (next_latest_of b k (version_id r) l1) as [n0|] eqn:Hn0.
      * apply next_latest_of_Some in Hn0 as (Hn_in & Hn_c & Hn_v & Hn_max).
        f_equal. unfold l1 in Hn_in.
        apply elem_of_app in Hn_in as [Hn_in|Hn_in%list_elem_of_singleton];
          [|by rewrite Hn_in in Hn_v].
        apply list_elem_of_fmap in Hn_in as (y & -> & Hy).
        destruct (decide (y = x)) as [->|Hyx]; [done|]. exfalso.
        pose proof (Hnewest x y Hx Hcx Hlx Hy Hn_c Hyx) as Hlt.
        specialize (Hn_max (reflag F x) (Hold x Hx) Hcx (Hvold x Hx)).
        cbn in Hn_max. lia.
      * exfalso. apply (Hvold x Hx).
        by apply (next_latest_of_None l1 b k _ (reflag F x) Hn0);
          [apply Hold|].
    + rewrite decide_False; [done|].
      intros [_ Hn].
      apply next_latest_of_Some in Hn as (_ & _ & _ & Hmax).
      destruct (latest_exists l b k H1) as (o & Ho_in & Hco' & Hlo').
      { intros Hnil.
        assert (x ∈ filter (in_chain b k) l) as Hin
          by (by apply list_elem_of_filter).
        rewrite Hnil in Hin. by apply elem_of_nil in Hin. }
      assert (x ≠ o) as Hxo by congruence.
      pose proof (Hnewest o x Ho_in Hco' Hlo' Hx Hcx Hxo) as Hlt.
      specialize (Hmax (reflag F o) (Hold o Ho_in) Hco' (Hvold o Ho_in)).
      cbn in Hmax. lia.
  - rewrite decide_False.
    + cbn. unfold F. by rewrite decide_False.
    + intros [_ Hn].
      by apply next_latest_of_Some in Hn as (_ & Hn_c & _).
Qed.

Lemma current_is_newest_rows w b k :
  current_is_newest w b k →
  ∀ o x, o ∈ rows w → in_chain b k o → is_latest o = true →
         x ∈ rows w → in_chain b k x → x ≠ o →
         last_modified x < last_modified o.
Proof.
  intros Hn o x Ho Hco Hlo Hx Hcx Hxo.
  apply (Hn o x); [by apply list_elem_of_filter|done|
                   by apply list_elem_of_filter|done].
Qed.

Lemma fresh_path_unused w b k u :
  reachable w → uuid_fresh w u → w_files w !! blob_path b k u = None.
Proof.
  intros Hw [Hu Hfresh].
  destruct (w_files w !! blob_path b k u) as [body|] eqn:Hp; [|done].
  exfalso.
  destruct (reachable_no_orphans w Hw _ _ Hp) as (r & Hr & _ & Heq).
  apply Hfresh. apply blob_path_inj in Heq as ->;
    [by apply list_elem_of_fmap_2|done|].
  destruct (reachable_inv w Hw) as [Hwf _].
  exact (proj1 (Forall_forall _ _) (wf_uuid _ Hwf) r Hr).
Qed.

(** X10. In a store whose current row of the key is its most recent row,
    a put followed by the delete of the version the put created leaves the
    store exactly as it was before the put: tables and blobs. So does a
    delete without version id followed by the delete of the delete marker
    it wrote, which is how a deleted object is restored. *)
Theorem delete_of_new_version_restores w b k body ct u t u' t' :
  reachable w → bucket_exists w b → uuid_fresh w u →
  current_is_newest w b k →
  serve (serve w (PutObject b k body ct u t)).1
        (DeleteObject b k (Some u) u' t') = (w, Response 204 [])
  ∧ serve (serve w (DeleteObject b k None u t)).1
          (DeleteObject b k (Some u) u' t') = (w, Response 204 []).
Proof.
  intros Hw Hb Hfresh Hnew.
  pose proof (fresh_path_unused w b k u Hw Hfresh) as Hpath.
  destruct (reachable_inv w Hw) as [Hwf H1].
  destruct Hfresh as [Hu Hfresh].
  pose proof (uuid_shaped_nonempty u Hu) as Hne.
  pose proof (current_is_newest_rows w b k Hnew) as Hnewest.
  split.
  - destruct (push_then_delete (rows w) b k (new_object b k body ct u t))
      as (Hwf1 & Hin & Hver & Hdel); try done.
    rewrite serve_put_object, serve_delete_version by done.
    cbn [fst rows with_blobs with_rows w_db w_files object_versions].
    cbn [version_id new_object] in Hver, Hdel. rewrite Hver.
    cbn [is_latest set_id new_object]. rewrite Hdel.
    rewrite (row_without_blob_path _ _ _ Hwf1 Hin).
    cbn [is_delete_marker set_id new_object].
    unfold row_blob_path. cbn [bucket_name key version_id set_id new_object].
    rewrite delete_insert_id by done. clear. by destruct w as [[bs rs] fs].
  - destruct (push_then_delete (rows w) b k (new_delete_marker b k u t))
      as (Hwf1 & Hin & Hver & Hdel); try done.
    rewrite (serve_delete_marker w b k None u t eq_refl Hb).
    rewrite serve_delete_version by done.
    cbn [fst rows with_blobs with_rows w_db w_files object_versions].
    cbn [version_id new_delete_marker] in Hver, Hdel. rewrite Hver.
    cbn [is_latest set_id new_delete_marker]. rewrite Hdel.
    clear. by destruct w as [[bs rs] fs].
Qed.

Lemma delete_of_new_version_restores_witness :
  serve (serve sample_w3 (DeleteObject "b" "k" None sample_u4 4)).1
        (DeleteObject "b" "k" (Some sample_u4) "" 5)
    = (sample_w3, Response 204 []).
Proof.
  apply (delete_of_new_version_restores sample_w3 "b" "k" [] None
           sample_u4 4 "" 5).
  - apply sample_w3_reachable.
  - apply sample_bucket_exists.
  - apply sample_u4_fresh.
  - apply (bool_decide_unpack _). by vm_compute.
Defined.

(** ** Rolling back twice *)

Lemma without_blob_comm a c fs :
  without_blob a (without_blob c fs) = without_blob c (without_blob a fs).
Proof.
  unfold without_blob, delete_physical_file.
  destruct (truthy (storage_path a)), (truthy (storage_path c)); try done.
  apply delete_delete.
Qed.

Lemma without_blob_idemp a fs :
  without_blob a (without_blob a fs) = without_blob a fs.
Proof.
  unfold without_blob, delete_physical_file.
  destruct (truthy (storage_path a)); [apply delete_delete_eq|done].
Qed.

Lemma blobs_removed_without d a fs :
  blobs_removed d (without_blob a fs) = without_blob a (blobs_removed d fs).
Proof.
  revert fs. induction d as [|c d IH]; intros fs; [done|].
  cbn [blobs_removed]. by rewrite without_blob_comm, IH.
Qed.

Lemma blobs_removed_idemp d fs :
  blobs_removed d (blobs_removed d fs) = blobs_removed d fs.
Proof.
  revert fs. induction d as [|a d IH]; intros fs; [done|].
  cbn [blobs_removed].
  rewrite (blobs_removed_without d a fs), without_blob_idemp.
  rewrite <- blobs_removed_without. by rewrite IH, blobs_removed_without.
Qed.

(** The ordered scan of a filtered table is the filtered ordered scan, and
    the scan does not look at the flags. *)
Lemma insert_desc_head a l :
  (∀ y, y ∈ l → last_modified y ≤ last_modified a) →
  insert_desc a l = a :: l.
Proof.
  destruct l as [|x l]; [done|]. intros Hmax. cbn [insert_desc].
  assert ((last_modified x <=? last_modified a) = true) as ->; [|done].
  apply Z.leb_le, Hmax. left.
Qed.

Lemma insert_desc_filter (P : ObjectVersion → Prop)
    `{∀ x, Decision (P x)} a l :
  newest_first l →
  filter P (insert_desc a l) =
    if decide (P a) then insert_desc a (filter P l) else filter P l.
Proof.
  induction l as [|x l IH]; intros Hs.
  - cbn [insert_desc]. rewrite filter_cons, filter_nil.
    by destruct (decide (P a)).
  - destruct Hs as [Hmax Hs]. cbn [insert_desc].
    destruct (last_modified x <=? last_modified a) eqn:Hle.
    + apply Z.leb_le in Hle. rewrite (filter_cons P a).
      destruct (decide (P a)); [|done].
      rewrite insert_desc_head; [done|].
      intros y [_ [->|Hy]%elem_of_cons]%list_elem_of_filter; [done|].
      specialize (Hmax y Hy). lia.
    + rewrite (filter_cons P x), IH by done. rewrite (filter_cons P x).
      destruct (decide (P a)), (decide (P x)); try done.
      cbn [insert_desc]. by rewrite Hle.
Qed.

Lemma order_by_filter (P : ObjectVersion → Prop) `{∀ x, Decision (P x)} l :
  order_by_last_modified_desc (filter P l) =
    filter P (order_by_last_modified_desc l).
Proof.
  induction l as [|a l IH]; [done|].
  cbn [order_by_last_modified_desc foldr].
  fold (order_by_last_modified_desc l).
  rewrite insert_desc_filter by apply order_by_newest_first.
  rewrite filter_cons. destruct (decide (P a)); [|done].
  cbn [order_by_last_modified_desc foldr].
  fold (order_by_last_modified_desc (filter P l)). by rewrite IH.
Qed.

Lemma insert_desc_reflag f a l :
  insert_desc (reflag f a) (reflag f <$> l) = reflag f <$> insert_desc a l.
Proof.
  induction l as [|x l IH]; [done|].
  cbn [fmap list_fmap insert_desc].
  change (last_modified (reflag f x)) with (last_modified x).
  change (last_modified (reflag f a)) with (last_modified a).
  destruct (last_modified x <=? last_modified a); [done|].
  cbn [fmap list_fmap]. f_equal. apply IH.
Qed.

Lemma order_by_reflag f l :
  order_by_last_modified_desc (reflag f <$> l) =
    reflag f <$> order_by_last_modified_desc l.
Proof.
  induction l as [|a l IH]; [done|].
  cbn [fmap list_fmap order_by_last_modified_desc foldr].
  fold (order_by_last_modified_desc (reflag f <$> l)).
  fold (order_by_last_modified_desc l).
  by rewrite IH, insert_desc_reflag.
Qed.

(** X11. A rollback carried out a second time changes nothing and answers
    what it answered the first time: success when the chain has the target
    version, 404 when it has not. *)
Theorem rollback_twice w b k v :
  reachable w →
  serve (serve w (Rollback b k v)).1 (Rollback b k v) =
    ((serve w (Rollback b k v)).1, (serve w (Rollback b k v)).2).
Proof.
  intros Hw. destruct (reachable_inv w Hw) as [Hwf H1].
  assert (reachable (serve w (Rollback b k v)).1) as Hw1
    by (by apply reachable_serve).
  destruct (reachable_inv _ Hw1) as [Hwf1 _]. revert Hwf1.
  destruct (decide (v ∈ version_id <$> chain w b k)) as [Hin|Hout].
  - apply list_elem_of_fmap in Hin as (tgt & Hv & Ht).
    destruct (serve_rollback_found w b k v tgt Hwf Ht (eq_sym Hv))
      as (newer & older & Hsplit & Hnd & Hel & ->).
    cbn [fst snd]. intros Hwf1.
    set (R := rollback_flag v (tgt :: older)).
    set (w1 := with_blobs (with_rows w (reflag R <$> filter (λ x, x ∉ newer)
                                           (rows w)))
                 (blobs_removed newer (w_files w))).
    assert (order_by_last_modified_desc (chain w1 b k)
            = reflag R <$> (tgt :: older)) as Hscan.
    { unfold chain, w1.
      cbn [rows with_blobs with_rows w_db object_versions].
      rewrite confined_same, order_by_reflag, order_by_filter.
      fold (chain w b k). rewrite Hsplit. f_equal.
      apply NoDup_app in Hnd as (_ & Hdisj & _).
      rewrite filter_app.
      rewrite (filter_all _ (tgt :: older))
        by (intros a Ha Hn; by apply (Hdisj a)).
      rewrite (elem_of_nil_inv (filter _ newer)); [done|].
      by intros a [? ?]%list_elem_of_filter. }
    assert (reflag R tgt ∈ chain w1 b k) as Ht1
      by (apply order_by_elem; rewrite Hscan; left).
    destruct (serve_rollback_found w1 b k v (reflag R tgt) Hwf1 Ht1
                (eq_sym Hv))
      as (newer1 & older1 & Hsplit1 & Hnd1 & Hel1 & ->).
    rewrite Hscan in Hsplit1. cbn [fmap list_fmap] in Hsplit1.
    destruct newer1 as [|y newer1].
    + cbn [app] in Hsplit1. injection Hsplit1 as Holder.
      cbn [blobs_removed].
      rewrite filter_all by (intros; apply not_elem_of_nil).
      assert (reflag (rollback_flag v (reflag R tgt :: older1)) <$> rows w1
              = rows w1) as ->; [|done].
      transitivity (reflag is_latest <$> rows w1); [|apply reflag_same].
      apply reflag_ext. intros x _. unfold rollback_flag at 1.
      destruct (decide (x ∈ reflag R tgt :: older1)) as [Hx|Hx]; [|done].
      rewrite <- Holder in Hx.
      change (reflag R tgt :: (reflag R <$> older))
        with (reflag R <$> tgt :: older) in Hx.
      apply list_elem_of_fmap in Hx as (r & -> & Hr).
      change (version_id (reflag R r)) with (version_id r).
      change (is_latest (reflag R r)) with (R r).
      unfold R, rollback_flag. by rewrite decide_True.
    + exfalso. cbn [app] in Hsplit1. injection Hsplit1 as Hy Hrest.
      apply NoDup_cons in Hnd1 as [Hnot _]. apply Hnot. rewrite <- Hy.
      apply elem_of_app. right. left.
  - assert (∀ x, x ∈ chain w b k → version_id x ≠ v) as Hno.
    { intros x Hx Hxv. apply Hout. apply list_elem_of_fmap. by exists x. }
    rewrite (serve_rollback_not_found w) by done. cbn [fst snd]. intros _.
    rewrite serve_rollback_not_found by done.
    unfold chain, with_blobs. cbn [rows w_db w_files].
    fold (rows w). by rewrite blobs_removed_idemp.
Qed.

Lemma rollback_twice_witness :
  serve (serve sample_w3 (Rollback "b" "k" sample_u1)).1
        (Rollback "b" "k" sample_u1) =
    ((serve sample_w3 (Rollback "b" "k" sample_u1)).1,
     (serve sample_w3 (Rollback "b" "k" sample_u1)).2).
Proof. apply (rollback_twice sample_w3), sample_w3_reachable. Defined.

End History.
(** ** The current row and the clock *)

Section Clock.

Implicit Types (w : world) (q : request) (l : list ObjectVersion)
  (x o r : ObjectVersion).

Lemma by_stamp l x o :
  NoDup (last_modified <$> l) → x ∈ l → o ∈ l → x ≠ o →
  last_modified x ≠ last_modified o.
Proof. intros Hnd Hx Ho Hne Heq. apply Hne. by apply (by_field last_modified l). Qed.

Lemma clock_inv_pushed l b k r :
  rows_wf l → one_latest l → clock_inv l →
  id r = None → in_chain b k r → is_latest r = true →
  Forall (λ x, last_modified x < last_modified r) l →
  clock_inv (added r (demoted b k l)).
Proof.
  intros Hwf H1 [Hnd Hnew] Hid [Hb Hk] Hl Hlt.
  rewrite demoted_spec by (done || apply Hwf).
  unfold added. rewrite Hid, next_id_reflag.
  set (F := λ x, if decide (in_chain b k x) then false else is_latest x).
  set (obj := set_id (Some (next_id l)) r).
  rewrite Forall_forall in Hlt.
  split.
  - rewrite fmap_app, fmap_reflag by done. apply NoDup_app.
    split; [done|]. split; [|apply NoDup_singleton].
    intros t (x & -> & Hx)%list_elem_of_fmap Hin.
    apply list_elem_of_singleton in Hin. specialize (Hlt x Hx).
    change (last_modified obj) with (last_modified r) in Hin. lia.
  - intros o x [Ho|Ho%list_elem_of_singleton]%elem_of_app
             [Hx|Hx%list_elem_of_singleton]%elem_of_app Hxb Hxk Hlo Hne.
    + apply list_elem_of_fmap in Ho as (o0 & -> & Ho).
      apply list_elem_of_fmap in Hx as (x0 & -> & Hx).
      change (is_latest (reflag F o0)) with (F o0) in Hlo. unfold F in Hlo.
      destruct (decide (in_chain b k o0)); [done|].
      apply (Hnew o0 x0); try done. by intros ->.
    + apply list_elem_of_fmap in Ho as (o0 & -> & Ho).
      change (is_latest (reflag F o0)) with (F o0) in Hlo. unfold F in Hlo.
      destruct (decide (in_chain b k o0)) as [|Hout]; [done|].
      exfalso. apply Hout. rewrite Hx in Hxb, Hxk. split.
      * change (bucket_name o0 = b). rewrite <- Hb. by symmetry.
      * change (key o0 = k). rewrite <- Hk. by symmetry.
    + apply list_elem_of_fmap in Hx as (x0 & -> & Hx). rewrite Ho.
      exact (Hlt x0 Hx).
    + by rewrite Ho, Hx in Hne.
Qed.

Lemma clock_inv_delete_version l b k v obj :
  rows_wf l → clock_inv l → version_of b k v l = Some obj →
  clock_inv (reflag (promote_flag obj (next_latest_of b k v l))
               <$> filter (λ x, x ≠ obj) l).
Proof.
  intros Hwf [Hnd Hnew] (Hobj & Hc & Hv)%version_of_Some.
  split.
  - rewrite fmap_reflag by done. by apply NoDup_fmap_filter.
  - intros o x (o0 & -> & [Hoo Ho]%list_elem_of_filter)%list_elem_of_fmap
             (x0 & -> & [Hxo Hx]%list_elem_of_filter)%list_elem_of_fmap
             Hxb Hxk Hlo Hne.
    assert (x0 ≠ o0) as Hne0 by (by intros ->).
    change (last_modified x0 < last_modified o0).
    change (bucket_name x0 = bucket_name o0) in Hxb.
    change (key x0 = key o0) in Hxk.
    change (promote_flag obj (next_latest_of b k v l) o0 = true) in Hlo.
    unfold promote_flag in Hlo.
    destruct (decide (is_latest obj = true
                      ∧ next_latest_of b k v l = Some o0)) as [[_ Hn]|_];
      [|by apply (Hnew o0 x0)].
    apply next_latest_of_Some in Hn as (_ & [Hob Hok] & _ & Hmax).
    assert (last_modified x0 ≤ last_modified o0) as Hle.
    { apply Hmax; [done|split; congruence|].
      intros Hvx. apply Hxo.
      apply (by_version_id l); [apply Hwf|done..|congruence]. }
    pose proof (by_stamp l x0 o0 Hnd Hx Ho Hne0). lia.
Qed.

Lemma clock_inv_rollback l b k v newer tgt older :
  rows_wf l → clock_inv l →
  newest_first (newer ++ tgt :: older) →
  (∀ y, y ∈ newer ++ tgt :: older ↔ in_chain b k y ∧ y ∈ l) →
  version_id tgt = v →
  clock_inv (reflag (rollback_flag v (tgt :: older))
               <$> filter (λ x, x ∉ newer) l).
Proof.
  intros Hwf [Hnd Hnew] Hsorted Hel Hv.
  assert (tgt ∈ newer ++ tgt :: older) as Ht
    by (apply elem_of_app; right; left).
  pose proof (proj1 (Hel tgt) Ht) as [[Htb Htk] Htl].
  split.
  - rewrite fmap_reflag by done. by apply NoDup_fmap_filter.
  - intros o x (o0 & -> & [Hoo Ho]%list_elem_of_filter)%list_elem_of_fmap
             (x0 & -> & [Hxo Hx]%list_elem_of_filter)%list_elem_of_fmap
             Hxb Hxk Hlo Hne.
    assert (x0 ≠ o0) as Hne0 by (by intros ->).
    change (last_modified x0 < last_modified o0).
    change (bucket_name x0 = bucket_name o0) in Hxb.
    change (key x0 = key o0) in Hxk.
    change (rollback_flag v (tgt :: older) o0 = true) in Hlo.
    unfold rollback_flag in Hlo.
    destruct (decide (o0 ∈ tgt :: older)) as [Hkept|_];
      [|by apply (Hnew o0 x0)].
    apply bool_decide_eq_true in Hlo.
    assert (o0 = tgt) as ->
      by (apply (by_version_id l); [apply Hwf|done..|congruence]).
    assert (x0 ∈ newer ++ tgt :: older) as Hxin
      by (apply Hel; split; [split; congruence|done]).
    apply elem_of_app in Hxin as [?|[->|Hold]%elem_of_cons]; [done|done|].
    destruct (newest_first_split _ _ _ Hsorted) as [_ Hle].
    specialize (Hle x0 Hold).
    pose proof (by_stamp l x0 tgt Hnd Hx Ho Hne0). lia.
Qed.

Lemma clock_inv_serve w q :
  store_inv w → draws_ok w q → clock_ok w q →
  clock_inv (rows w) → clock_inv (rows (serve w q).1).
Proof.
  intros [Hwf H1] Hdraw Hclock Hinv.
  destruct q as [b t|b k body ct u t|b k v|b k v u t|b k v].
  - rewrite serve_create_bucket. by destruct (decide (bucket_exists w b)).
  - destruct (decide (bucket_exists w b)) as [Hb|Hb];
      [|by rewrite serve_put_object_no_bucket].
    rewrite serve_put_object by done.
    cbn [fst rows with_blobs with_rows w_db object_versions].
    by apply clock_inv_pushed.
  - by rewrite serve_get_object.
  - cbn [draws_ok clock_ok] in Hdraw, Hclock. destruct (truthy v) eqn:Hv.
    + apply truthy_Some in Hv as (s & -> & Hs).
      rewrite serve_delete_version by done.
      destruct (version_of b k s (rows w)) as [obj|] eqn:Hobj; [|done].
      cbn [fst rows with_blobs with_rows w_db object_versions].
      rewrite (delete_version_spec _ b k s) by (done || apply Hwf).
      by apply clock_inv_delete_version.
    + destruct (decide (bucket_exists w b)) as [Hb|Hb];
        [|by rewrite serve_delete_marker_no_bucket].
      rewrite serve_delete_marker by done.
      cbn [fst rows with_rows w_db object_versions].
      by apply clock_inv_pushed.
  - destruct (decide (v ∈ version_id <$> chain w b k)) as [Hin|Hout].
    + apply list_elem_of_fmap in Hin as (tgt & Hv & Ht).
      destruct (serve_rollback_found w b k v tgt Hwf Ht (eq_sym Hv))
        as (newer & older & Hsplit & Hnd & Hel & ->).
      cbn [fst rows with_blobs with_rows w_db object_versions].
      apply (clock_inv_rollback _ b k); try done.
      rewrite <- Hsplit. apply order_by_newest_first.
    + rewrite serve_rollback_not_found; [done|].
      intros x Hx Hxv. apply Hout. apply list_elem_of_fmap. by exists x.
Qed.

Lemma clock_inv_serve_all w qs :
  reachable w → clock_inv (rows w) →
  draws_ok_all w qs → clocks_ok_all w qs →
  clock_inv (rows (serve_all w qs)).
Proof.
  revert w. induction qs as [|q qs IH]; intros w Hw Hinv Hd Hc; [done|].
  destruct Hd as [Hd Hds], Hc as [Hc Hcs]. rewrite serve_all_cons.
  apply IH; [by apply reachable_serve| |done..].
  apply clock_inv_serve; [by apply reachable_inv|done..].
Qed.

Lemma clock_inv_nil : clock_inv [].
Proof. split; [constructor|]. by intros o x ?%elem_of_nil. Qed.

(** When the current row is the most recent row of its chain, the row a
    get without version id selects is the row the scan of the chain,
    newest first, meets first. *)
Lemma latest_of_newest w b k :
  store_inv w → clock_inv (rows w) →
  latest_of b k (rows w) = first (order_by_last_modified_desc (chain w b k)).
Proof.
  intros [Hwf H1] [Hnd Hnew].
  pose proof (order_by_newest_first (chain w b k)) as Hsorted.
  assert (∀ x, x ∈ order_by_last_modified_desc (chain w b k)
               ↔ in_chain b k x ∧ x ∈ rows w) as Hel
    by (intros x; unfold chain; by rewrite order_by_elem, list_elem_of_filter).
  destruct (order_by_last_modified_desc (chain w b k)) as [|n rest] eqn:Hscan.
  - cbn. destruct (latest_of b k (rows w)) as [o|] eqn:Ho; [|done].
    apply first_filter_Some in Ho as [[Hc _] Ho].
    exfalso. by apply (elem_of_nil o), Hel.
  - cbn [first head]. destruct Hsorted as [Hmax _].
    destruct (proj1 (Hel n)) as [Hcn Hn]; [left|].
    destruct (latest_exists (rows w) b k H1) as (o & Ho & Hco & Hlo).
    { intros Hnil.
      assert (n ∈ filter (in_chain b k) (rows w)) as Hin
        by (by apply list_elem_of_filter).
      rewrite Hnil in Hin. by apply elem_of_nil in Hin. }
    assert (n = o) as ->.
    { destruct (decide (n = o)) as [|Hne]; [done|]. exfalso.
      destruct Hcn as [Hnb Hnk], Hco as [Hob Hok].
      assert (last_modified n < last_modified o) as Hlt
        by (apply (Hnew o n); congruence).
      assert (o ∈ n :: rest) as Hin by (by apply Hel).
      apply elem_of_cons in Hin as [->|Hin]; [done|].
      specialize (Hmax o Hin). lia. }
    destruct (latest_of b k (rows w)) as [o'|] eqn:Ho'.
    + apply first_filter_Some in Ho' as [[Hc' Hl'] Hin'].
      f_equal. by apply (latest_unique (rows w) b k).
    + exfalso. by apply (first_filter_None _ _ Ho' o).
Qed.

(** X12. With a clock that moves forward from one write to the next, after
    any sequence of requests from the empty store the current row of every
    key is the most recent row of its chain, and no two rows of the table
    carry the same time. So the version a get without version id selects
    is the first one the versions of the key show, newest first. *)
Theorem current_version_is_newest qs b k :
  draws_ok_all empty_world qs → clocks_ok_all empty_world qs →
  let w := serve_all empty_world qs in
  current_is_newest w b k
  ∧ NoDup (last_modified <$> rows w)
  ∧ latest_of b k (rows w)
      = first (order_by_last_modified_desc (chain w b k)).
Proof.
  intros Hd Hc w.
  assert (reachable w) as Hw
    by (apply reachable_serve_all; [apply reachable_empty|done]).
  assert (clock_inv (rows w)) as Hinv.
  { apply clock_inv_serve_all; try done;
      [apply reachable_empty|apply clock_inv_nil]. }
  split; [|split; [apply Hinv|]].
  - intros o x [[Hob Hok] Ho]%list_elem_of_filter Hl
             [[Hxb Hxk] Hx]%list_elem_of_filter Hne.
    apply (current_newest _ Hinv o x); congruence.
  - apply latest_of_newest; [by apply reachable_inv|done].
Qed.

Lemma current_version_is_newest_witness :
  let w := serve_all empty_world (take 4 sample_requests) in
  current_is_newest w "b" "k"
  ∧ NoDup (last_modified <$> rows w)
  ∧ latest_of "b" "k" (rows w)
      = first (order_by_last_modified_desc (chain w "b" "k")).
Proof.
  apply (current_version_is_newest (take 4 sample_requests) "b" "k").
  - apply (bool_decide_unpack _). by vm_compute.
  - apply (bool_decide_unpack _). by vm_compute.
Defined.

(** The store of that witness: the key was written twice and then deleted,
    so its chain has three rows; the delete marker is the current row, the
    most recent one and the first of the scan. *)
Example current_version_is_newest_sample :
  let w := serve_all empty_world (take 4 sample_requests) in
  (λ r, (version_id r, is_latest r, last_modified r)) <$> chain w "b" "k"
    = [ (sample_u1, false, 1); (sample_u2, false, 2); (sample_u3, true, 3) ]
  ∧ version_id <$> latest_of "b" "k" (rows w) = Some sample_u3
  ∧ version_id <$> order_by_last_modified_desc (chain w "b" "k")
      = [ sample_u3; sample_u2; sample_u1 ].
Proof. vm_compute. by repeat split. Qed.

End Clock.
(** ** Listings *)

Section Listings.

Implicit Types (w : world) (l : list ObjectVersion) (x a r : ObjectVersion)
  (k : string).

Ltac run_listing :=
  unfold run_handler, mbind, handler_bind, mret, handler_ret,
    select_buckets, select_versions, raise_http, open_session;
  cbn [committed session files commits fst snd buckets object_versions].

(** *** The ordered scan by key *)

Lemma insert_key_desc_perm a l : insert_key_desc a l ≡ₚ a :: l.
Proof.
  induction l as [|x l IH]; [done|]. cbn [insert_key_desc].
  destruct (sorts_before a x); [done|].
  rewrite IH. apply Permutation_swap.
Qed.

Lemma order_by_key_perm l : order_by_key_last_modified_desc l ≡ₚ l.
Proof.
  induction l as [|a l IH]; [done|].
  cbn [order_by_key_last_modified_desc foldr].
  fold (order_by_key_last_modified_desc l).
  by rewrite insert_key_desc_perm, IH.
Qed.

Lemma key_sorted_insert a l :
  key_sorted l → key_sorted (insert_key_desc a l).
Proof.
  induction l as [|x l IH]; intros Hs.
  - cbn. split; [|done]. by intros y ?%elem_of_nil.
  - destruct Hs as [Hx Hs]. cbn [insert_key_desc].
    unfold sorts_before.
    destruct (decide (key a = key x)) as [Heq|Hne].
    + destruct (last_modified x <=? last_modified a).
      * cbn [key_sorted]. split; [|by split].
        intros y [->|Hy]%elem_of_cons; [by rewrite Heq|].
        rewrite Heq. by apply Hx.
      * cbn [key_sorted]. split; [|by apply IH].
        intros y Hy. rewrite insert_key_desc_perm in Hy.
        apply elem_of_cons in Hy as [->|Hy]; [by rewrite Heq|by apply Hx].
    + destruct (bool_decide (String.le (key a) (key x))) eqn:Hle.
      * apply bool_decide_eq_true in Hle.
        cbn [key_sorted]. split; [|by split].
        intros y [->|Hy]%elem_of_cons; [done|].
        etrans; [exact Hle|by apply Hx].
      * apply bool_decide_eq_false in Hle.
        cbn [key_sorted]. split; [|by apply IH].
        intros y Hy. rewrite insert_key_desc_perm in Hy.
        apply elem_of_cons in Hy as [->|Hy]; [|by apply Hx].
        by destruct (total String.le (key x) (key a)).
Qed.

Lemma order_by_key_sorted l : key_sorted (order_by_key_last_modified_desc l).
Proof.
  induction l as [|a l IH]; [done|].
  cbn [order_by_key_last_modified_desc foldr]. by apply key_sorted_insert.
Qed.

Lemma insert_key_desc_filter_other k a l :
  key a ≠ k →
  filter (λ r, key r = k) (insert_key_desc a l) = filter (λ r, key r = k) l.
Proof.
  intros Hne. induction l as [|x l IH].
  - cbn [insert_key_desc]. by rewrite filter_cons_False.
  - cbn [insert_key_desc]. destruct (sorts_before a x).
    + by rewrite filter_cons_False.
    + rewrite !(filter_cons _ x). by rewrite IH.
Qed.

Lemma insert_key_desc_filter_same k a l :
  key_sorted l → key a = k →
  filter (λ r, key r = k) (insert_key_desc a l) =
    insert_desc a (filter (λ r, key r = k) l).
Proof.
  intros Hs Hk. induction l as [|x l IH].
  - cbn [insert_key_desc]. by rewrite filter_cons_True.
  - destruct Hs as [Hx Hs]. cbn [insert_key_desc]. unfold sorts_before.
    destruct (decide (key a = key x)) as [Heq|Hne].
    + assert (key x = k) as Hxk by congruence.
      destruct (last_modified x <=? last_modified a) eqn:Hle.
      * rewrite (filter_cons_True _ a) by done.
        rewrite (filter_cons_True _ x) by done.
        cbn [insert_desc]. by rewrite Hle.
      * rewrite !(filter_cons_True _ x) by done.
        cbn [insert_desc]. rewrite Hle. by rewrite IH.
    + assert (key x ≠ k) as Hxk by congruence.
      destruct (bool_decide (String.le (key a) (key x))) eqn:Hle.
      * apply bool_decide_eq_true in Hle.
        rewrite (filter_cons_True _ a) by done.
        rewrite (elem_of_nil_inv (filter _ (x :: l))); [done|].
        intros y [Hy [->|Hin]%elem_of_cons]%list_elem_of_filter; [done|].
        apply Hxk. apply (anti_symm String.le).
        -- rewrite <- Hy. by apply Hx.
        -- by rewrite <- Hk.
      * rewrite !(filter_cons_False _ x) by done. by apply IH.
Qed.

(** Under one key the scan by key is the scan of the chain, newest first. *)
Lemma order_by_key_filter k l :
  filter (λ r, key r = k) (order_by_key_last_modified_desc l) =
    order_by_last_modified_desc (filter (λ r, key r = k) l).
Proof.
  induction l as [|a l IH]; [done|].
  cbn [order_by_key_last_modified_desc foldr].
  fold (order_by_key_last_modified_desc l).
  rewrite (filter_cons _ a). destruct (decide (key a = k)) as [Hk|Hk].
  - rewrite insert_key_desc_filter_same by (apply order_by_key_sorted || done).
    cbn [order_by_last_modified_desc foldr].
    fold (order_by_last_modified_desc (filter (λ r, key r = k) l)).
    by rewrite IH.
  - by rewrite insert_key_desc_filter_other.
Qed.

Lemma chain_by_key w b k :
  filter (λ r, key r = k) (filter (λ r, bucket_name r = b) (rows w))
    = chain w b k.
Proof.
  unfold chain. rewrite list_filter_filter. apply list_filter_iff.
  intros x. unfold in_chain. tauto.
Qed.

(** *** The loop of [ui_list_objects] *)

Lemma ui_list_objects_body_lookup data a k :
  ui_list_objects_body data a !! k =
    if decide (key a = k)
    then Some (default [] (data !! k) ++ [version_info_of a])
    else data !! k.
Proof.
  unfold ui_list_objects_body.
  destruct (decide (key a = k)) as [<-|Hne].
  - destruct (decide (data !! key a = None)) as [Hn|Hn].
    + rewrite lookup_alter_eq, lookup_insert_eq. by rewrite Hn.
    + rewrite lookup_alter_eq. by destruct (data !! key a).
  - destruct (decide (data !! key a = None)).
    + by rewrite lookup_alter_ne, lookup_insert_ne.
    + by rewrite lookup_alter_ne.
Qed.

Lemma ui_list_objects_fold l data k :
  fold_left ui_list_objects_body l data !! k =
    match filter (λ r, key r = k) l with
    | [] => data !! k
    | m => Some (default [] (data !! k) ++ (version_info_of <$> m))
    end.
Proof.
  revert data. induction l as [|a l IH]; intros data; [done|].
  cbn [fold_left]. rewrite IH, ui_list_objects_body_lookup.
  rewrite (filter_cons _ a).
  destruct (decide (key a = k)) as [Hk|Hk]; [|done].
  cbn [default]. unfold Datatypes.id.
  destruct (filter (λ r, key r = k) l) as [|y m].
  - done.
  - cbn [fmap list_fmap]. by rewrite <- app_assoc.
Qed.

(** X13. [ui_list_objects] changes nothing and answers a dictionary that
    has an entry for exactly the keys of the bucket that have a row. The
    entry of a key lists every row of its chain once, newest first: the
    order in which [ui_rollback] scans the chain, so the entries listed
    above a version are the rows a rollback to that version destroys. A
    bucket that does not exist is not refused: the answer is the
    dictionary of its rows. *)
Theorem ui_list_objects_groups_chains w b :
  ∃ data,
    run_handler (ui_list_objects b) w = (w, Return data)
    ∧ (∀ k, chain w b k = [] → data !! k = None)
    ∧ (∀ k, chain w b k ≠ [] →
         data !! k =
           Some (version_info_of <$>
                   order_by_last_modified_desc (chain w b k)))
    ∧ (∀ k infos, data !! k = Some infos →
         info_version_id <$> infos ≡ₚ version_id <$> chain w b k).
Proof.
  set (data := fold_left ui_list_objects_body
                 (order_by_key_last_modified_desc
                    (filter (λ r, bucket_name r = b) (rows w))) ∅).
  assert (∀ k, data !! k =
            match order_by_last_modified_desc (chain w b k) with
            | [] => None
            | m => Some (version_info_of <$> m)
            end) as Hdata.
  { intros k. unfold data.
    rewrite ui_list_objects_fold, order_by_key_filter, chain_by_key.
    rewrite lookup_empty.
    by destruct (order_by_last_modified_desc (chain w b k)). }
  assert (∀ k, chain w b k ≠ [] →
            data !! k = Some (version_info_of <$>
                                order_by_last_modified_desc (chain w b k)))
    as Hsome.
  { intros k Hk. rewrite Hdata.
    assert (order_by_last_modified_desc (chain w b k) ≠ []) as Hne.
    { intros Hnil. apply Hk. apply Permutation_nil_r.
      by rewrite <- Hnil, order_by_perm. }
    by destruct (order_by_last_modified_desc (chain w b k)). }
  assert (∀ k, chain w b k = [] → data !! k = None) as Hnone.
  { intros k Hk. by rewrite Hdata, Hk. }
  exists data. split; [|split; [done|split; [done|]]].
  - unfold ui_list_objects. run_listing. by rewrite world_eta.
  - intros k infos Hk.
    destruct (decide (chain w b k = [])) as [Hnil|Hne];
      [by rewrite Hnone in Hk|].
    rewrite Hsome in Hk by done. injection Hk as <-.
    rewrite <- list_fmap_compose, order_by_perm.
    done.
Qed.

(** *** The listings of the S3 interface *)

Variable strftime : Z → string → string.

Lemma rows_no_bucket w b :
  buckets_ok w → ¬ bucket_exists w b →
  filter (λ r, bucket_name r = b) (rows w) = [].
Proof.
  intros [_ _ Hin] Hb. apply elem_of_nil_inv.
  intros x [<- Hx]%list_elem_of_filter. apply Hb.
  exact (proj1 (Forall_forall _ _) Hin x Hx).
Qed.

(** X14. For a bucket that exists, [list_objects] without [versions]
    changes nothing and answers 200 with one [Contents] element for each
    row of the bucket that is current and not a delete marker, between the
    fixed head and tail of the document. No key is listed twice, and a key
    is listed exactly when a get of the key without version id does not
    answer 404 NoSuchKey. *)
Theorem list_objects_shows_readable_keys w b :
  reachable w → bucket_exists w b →
  ∃ results,
    run_handler (list_objects strftime b false) w =
      (w, Return (generate_xml_response
                    (join_parts
                       ([ "<ListBucketResult" +:+ xmlns +:+ ">";
                          "<Name>" +:+ b +:+ "</Name>";
                          "<Prefix></Prefix>";
                          "<Marker></Marker>";
                          "<MaxKeys>1000</MaxKeys>";
                          "<IsTruncated>false</IsTruncated>" ]
                        ++ (contents_xml strftime <$> results)
                        ++ [ "</ListBucketResult>" ])) 200))
    ∧ NoDup (key <$> results)
    ∧ (∀ r, r ∈ results ↔
         r ∈ rows w ∧ bucket_name r = b ∧ is_latest r = true
         ∧ is_delete_marker r = false)
    ∧ (∀ k, k ∈ key <$> results ↔
         (serve w (GetObject b k None)).2 ≠ HTTPException 404 "NoSuchKey").
Proof.
  intros Hw Hb. destruct (reachable_inv w Hw) as [Hwf H1].
  set (results := filter (λ r, bucket_name r = b ∧ is_latest r = true
                               ∧ is_delete_marker r = false) (rows w)).
  assert (∀ r, r ∈ results ↔
            r ∈ rows w ∧ bucket_name r = b ∧ is_latest r = true
            ∧ is_delete_marker r = false) as Hel.
  { intros r. unfold results. rewrite list_elem_of_filter. tauto. }
  exists results. split; [|split; [|split; [done|]]].
  - destruct (first_bucket_Some w b Hb) as [bk Hbk].
    unfold list_objects. run_listing. rewrite Hbk. run_listing.
    by rewrite world_eta.
  - apply NoDup_fmap_2_strong.
    + intros x y (Hx & Hxb & Hxl & _)%Hel (Hy & Hyb & Hyl & _)%Hel Hk.
      by apply (latest_unique (rows w) b (key x)).
    + apply NoDup_filter, NoDup_rows, Hwf.
  - intros k. rewrite serve_get_object. cbn [snd truthy].
    split.
    + intros (r & -> & (Hr & Hrb & Hrl & Hdm)%Hel)%list_elem_of_fmap.
      assert (latest_of b (key r) (rows w) = Some r) as ->.
      { destruct (latest_of b (key r) (rows w)) as [o|] eqn:Ho.
        - apply first_filter_Some in Ho as [[Hc Hl] Hin]. f_equal.
          by apply (latest_unique (rows w) b (key r)).
        - exfalso. by apply (first_filter_None _ _ Ho r). }
      rewrite Hdm. destruct (storage_path r); [|done].
      by destruct (w_files w !! get_file_path s).
    + destruct (latest_of b k (rows w)) as [o|] eqn:Ho; [|done].
      apply first_filter_Some in Ho as [[[Hob Hok] Hl] Hin].
      destruct (is_delete_marker o) eqn:Hdm; [done|]. intros _.
      apply list_elem_of_fmap. exists o. split; [done|]. by apply Hel.
Qed.

(** X15. For a bucket that exists, [list_objects] with [versions] changes
    nothing and answers 200 with one element for each row of the bucket, a
    [DeleteMarker] element for a delete marker and a [Version] element
    otherwise: every row once, the keys in order, and under each key the
    rows of its chain newest first. *)
Theorem list_objects_versions_shows_every_row w b :
  bucket_exists w b →
  ∃ results,
    run_handler (list_objects strftime b true) w =
      (w, Return (generate_xml_response
                    (join_parts
                       ([ "<ListVersionsResult" +:+ xmlns +:+ ">";
                          "<Name>" +:+ b +:+ "</Name>";
                          "<Prefix></Prefix>";
                          "<KeyMarker></KeyMarker>";
                          "<VersionIdMarker></VersionIdMarker>";
                          "<IsTruncated>false</IsTruncated>" ]
                        ++ ((λ ver, if is_delete_marker ver
                                    then delete_marker_xml strftime ver
                                    else version_xml strftime ver)
                              <$> results)
                        ++ [ "</ListVersionsResult>" ])) 200))
    ∧ results ≡ₚ filter (λ r, bucket_name r = b) (rows w)
    ∧ key_sorted results
    ∧ (∀ k, filter (λ r, key r = k) results
            = order_by_last_modified_desc (chain w b k)).
Proof.
  intros Hb.
  exists (order_by_key_last_modified_desc
            (filter (λ r, bucket_name r = b) (rows w))).
  split; [|split; [|split]].
  - destruct (first_bucket_Some w b Hb) as [bk Hbk].
    unfold list_objects. run_listing. rewrite Hbk. run_listing.
    by rewrite world_eta.
  - apply order_by_key_perm.
  - apply order_by_key_sorted.
  - intros k. by rewrite order_by_key_filter, chain_by_key.
Qed.

(** X16. For a bucket that does not exist, [list_objects] answers 404
    NoSuchBucket with and without [versions], while [ui_list_objects]
    answers an empty dictionary; none of them changes the store. *)
Theorem listings_of_missing_bucket w b versions :
  reachable w → ¬ bucket_exists w b →
  run_handler (list_objects strftime b versions) w
    = (w, Raise 404 "NoSuchBucket")
  ∧ run_handler (ui_list_objects b) w = (w, Return ∅).
Proof.
  intros Hw Hb. split.
  - pose proof (first_bucket_None w b Hb) as Hnone.
    unfold list_objects. run_listing. rewrite Hnone. run_listing.
    by rewrite world_eta.
  - unfold ui_list_objects. run_listing. fold (rows w).
    rewrite (rows_no_bucket w b (reachable_buckets w Hw) Hb).
    cbn. by rewrite world_eta.
Qed.

End Listings.

Lemma list_objects_shows_readable_keys_witness :
  ∃ results,
    NoDup (key <$> results)
    ∧ (∀ k, k ∈ key <$> results ↔
         (serve sample_w3 (GetObject "b" k None)).2
           ≠ HTTPException 404 "NoSuchKey").
Proof.
  destruct (list_objects_shows_readable_keys (λ _ _, EmptyString)
              sample_w3 "b")
    as (results & _ & Hnd & _ & Hkeys).
  - apply sample_w3_reachable.
  - apply sample_bucket_exists.
  - by exists results.
Defined.

Lemma list_objects_versions_shows_every_row_witness :
  ∃ results,
    results ≡ₚ filter (λ r, bucket_name r = "b") (rows sample_w3)
    ∧ key_sorted results.
Proof.
  destruct (list_objects_versions_shows_every_row (λ _ _, EmptyString)
              sample_w3 "b")
    as (results & _ & Hperm & Hsorted & _).
  - apply sample_bucket_exists.
  - by exists results.
Defined.

Lemma listings_of_missing_bucket_witness :
  run_handler (list_objects (λ _ _, EmptyString) "nope" true) sample_w3
    = (sample_w3, Raise 404 "NoSuchBucket").
Proof.
  apply (listings_of_missing_bucket (λ _ _, EmptyString) sample_w3 "nope"
           true).
  - apply sample_w3_reachable.
  - apply (bool_decide_unpack _). by vm_compute.
Defined.
(** ** backend/auth.py and the routes behind it *)

Section Authentication.

Implicit Types (toks : Auth.token_store) (tok : string) (t : Z).

Lemma login_cases creds token_hex utcnow toks :
  login creds token_hex utcnow toks =
    if decide (username creds = "admin" ∧ password creds = "password")
    then (Return [("token", token_hex)],
          <[token_hex := {| Auth.username := "admin";
                            Auth.expires := utcnow + 3600000000 |}]> toks)
    else (Raise 401 "Invalid credentials", toks).
Proof.
  destruct creds as [u p].
  unfold login, Auth.VALID_CREDENTIALS, Auth.create_token,
    Auth.timedelta_hours.
  cbn [username password]. rewrite lookup_singleton.
  destruct (decide ("admin" = u)) as [<-|Hu].
  - destruct (decide (p = "password")) as [->|Hp].
    + rewrite bool_decide_true by done. rewrite decide_True by done.
      do 3 f_equal; lia.
    + rewrite bool_decide_false by congruence.
      by rewrite decide_False by (by intros [_ ?]).
  - by rewrite decide_False by (by intros [? _]).
Qed.

(** X17. [login] accepts the pair admin/password and no other. When it
    accepts, it answers the token drawn and records it for the user with
    an expiry one hour ahead; when it refuses, it answers 401 and the
    token store is what it was. *)
Theorem login_accepts_only_admin creds token_hex utcnow toks :
  login creds token_hex utcnow toks =
    if decide (username creds = "admin"
               ∧ password creds = "password")
    then (Return [("token", token_hex)],
          <[token_hex := {| Auth.username := "admin";
                            Auth.expires := utcnow + 3600000000 |}]> toks)
    else (Raise 401 "Invalid credentials", toks).
Proof. apply login_cases. Qed.

Lemma validate_token_cases tok t toks :
  Auth.validate_token tok t toks =
    match toks !! tok with
    | Some s =>
        if bool_decide (tok = "") then (false, toks)
        else if Auth.expires s <? t then (false, delete tok toks)
        else (true, toks)
    | None => (false, toks)
    end.
Proof.
  unfold Auth.validate_token.
  destruct (bool_decide (tok = "")); by destruct (toks !! tok).
Qed.

(** X18. What [get_current_user] can answer. It answers the user of the
    session when the header carries a non-empty token that the store holds
    and that has not expired, and leaves the store as it is. In every
    other case it answers 401, and the store is as it was except that an
    expired token has been removed. The lookup after the validation never
    fails. *)
Theorem get_current_user_outcomes x t toks :
  (∃ tok s,
     x = Some tok ∧ tok ≠ "" ∧ toks !! tok = Some s ∧ t ≤ Auth.expires s
     ∧ Auth.get_current_user x t toks = (Return (Auth.username s), toks))
  ∨ ((x = None ∨ x = Some "" ∨ ∃ tok, x = Some tok ∧ toks !! tok = None)
     ∧ Auth.get_current_user x t toks
         = (Raise 401 "Invalid or expired token", toks))
  ∨ (∃ tok s,
       x = Some tok ∧ tok ≠ "" ∧ toks !! tok = Some s ∧ Auth.expires s < t
       ∧ Auth.get_current_user x t toks
           = (Raise 401 "Invalid or expired token", delete tok toks)).
Proof.
  unfold Auth.get_current_user. destruct x as [tok|]; [|right; left; by auto].
  cbn [truthy default]. unfold Datatypes.id.
  destruct (decide (tok = "")) as [->|Hne]; [right; left; by auto|].
  rewrite bool_decide_false by done. cbn [negb].
  rewrite validate_token_cases.
  destruct (toks !! tok) as [s|] eqn:Hs.
  - rewrite bool_decide_false by done.
    destruct (Auth.expires s <? t) eqn:Hexp.
    + apply Z.ltb_lt in Hexp. right; right. by exists tok, s.
    + apply Z.ltb_ge in Hexp. left. exists tok, s. cbn [negb].
      by rewrite Hs.
  - right; left. split; [|done]. right; right. by exists tok.
Qed.

Lemma issued_token_valid user tok t0 t toks :
  tok ≠ "" → t ≤ t0 + 3600000000 →
  Auth.get_current_user (Some tok) t
    (<[tok := {| Auth.username := user;
                 Auth.expires := t0 + 3600000000 |}]> toks)
  = (Return user,
     <[tok := {| Auth.username := user;
                 Auth.expires := t0 + 3600000000 |}]> toks).
Proof.
  intros Hne Ht. unfold Auth.get_current_user.
  cbn [truthy default]. unfold Datatypes.id.
  rewrite bool_decide_false by done. cbn [negb].
  rewrite validate_token_cases, lookup_insert_eq.
  rewrite bool_decide_false by done. cbn [Auth.expires].
  assert ((t0 + 3600000000 <? t) = false) as -> by (apply Z.ltb_ge; lia).
  cbn [negb]. by rewrite lookup_insert_eq.
Qed.

(** X19. A token that [create_token] issued opens [get_current_user] for
    its user until one hour has passed, and the store keeps it. The first
    request after that hour answers 401 and removes the token, and from
    then on the token is refused at any time. *)
Theorem issued_token_lasts_one_hour user tok t0 t t' toks :
  tok ≠ "" →
  let issued := (Auth.create_token user tok t0 toks).2 in
  (Auth.create_token user tok t0 toks).1 = tok
  ∧ (t ≤ t0 + 3600000000 →
     Auth.get_current_user (Some tok) t issued = (Return user, issued))
  ∧ (t0 + 3600000000 < t →
     Auth.get_current_user (Some tok) t issued
       = (Raise 401 "Invalid or expired token", delete tok toks)
     ∧ Auth.get_current_user (Some tok) t' (delete tok toks)
         = (Raise 401 "Invalid or expired token", delete tok toks)).
Proof.
  intros Hne issued. split; [done|].
  unfold issued, Auth.create_token, Auth.get_current_user, Auth.timedelta_hours.
  cbn [snd truthy default]. unfold Datatypes.id.
  rewrite bool_decide_false by done. cbn [negb].
  rewrite !validate_token_cases, lookup_insert_eq, lookup_delete_eq.
  rewrite bool_decide_false by done. cbn [Auth.expires].
  split.
  - intros Ht. assert ((t0 + 1 * 3600000000 <? t) = false) as ->
      by (apply Z.ltb_ge; lia).
    cbn [negb]. by rewrite lookup_insert_eq.
  - intros Ht. assert ((t0 + 1 * 3600000000 <? t) = true) as ->
      by (apply Z.ltb_lt; lia).
    cbn [negb]. by rewrite delete_insert_eq.
Qed.

Lemma issued_token_lasts_one_hour_witness :
  Auth.get_current_user (Some "t0ken") 3600000005
    (Auth.create_token "admin" "t0ken" 5 ∅).2
  = (Return "admin", (Auth.create_token "admin" "t0ken" 5 ∅).2).
Proof.
  refine (proj1 (proj2 (issued_token_lasts_one_hour "admin" "t0ken" 5
                          3600000005 0 ∅ _)) _).
  - done.
  - lia.
Defined.

(** X20. A route behind [Depends(get_current_user)] is not run for a
    request without a token, with an empty token, with a token the store
    does not hold or with an expired one: the answer is 401 and the
    tables and the blobs are what they were. For a token that is held and
    has not expired the route runs as it would unguarded, and the token
    store is what it was. *)
Theorem guarded_route_needs_token {A} x t (h : handler A) sv :
  (∀ tok s, x = Some tok → tok ≠ "" → TOKENS sv !! tok = Some s →
     t ≤ Auth.expires s →
     authenticated x t h sv =
       ({| store := (run_handler h (store sv)).1; TOKENS := TOKENS sv |},
        (run_handler h (store sv)).2))
  ∧ ((x = None ∨ x = Some ""
      ∨ ∃ tok, x = Some tok
               ∧ (TOKENS sv !! tok = None
                  ∨ ∃ s, TOKENS sv !! tok = Some s ∧ Auth.expires s < t)) →
     store (authenticated x t h sv).1 = store sv
     ∧ (authenticated x t h sv).2 = Raise 401 "Invalid or expired token").
Proof.
  unfold authenticated.
  destruct (get_current_user_outcomes x t (TOKENS sv))
    as [(tok & s & -> & Hne & Hs & Ht & ->)
       |[[Hx ->]|(tok & s & -> & Hne & Hs & Ht & ->)]].
  - split.
    + intros tok' s' [= <-] _ Hs' _.
      by destruct (run_handler h (store sv)).
    + intros [?|[[= ->]|(tok' & [= <-] & [Hn|(s' & Hs' & Ht')])]];
        [done|done|congruence|].
      rewrite Hs in Hs'. injection Hs' as <-. lia.
  - split; [|done].
    intros tok s -> Hne Hs Ht.
    destruct Hx as [?|[[= ->]|(tok' & [= <-] & Hn)]]; [done|done|congruence].
  - split; [|done].
    intros tok' s' [= <-] _ Hs' Ht'.
    rewrite Hs in Hs'. injection Hs' as <-. lia.
Qed.

Lemma guarded_route_needs_token_witness :
  store (authenticated None 0 (ui_rollback "b" "k" sample_u4)
           {| store := sample_w3; TOKENS := ∅ |}).1 = sample_w3.
Proof.
  refine (proj1 (proj2 (guarded_route_needs_token None 0
                          (ui_rollback "b" "k" sample_u4)
                          {| store := sample_w3; TOKENS := ∅ |}) _)).
  by left.
Defined.

(** X21. After a login with admin/password, the token it answered opens
    [ui_list_buckets] for one hour: the route answers the name and the
    creation date of every bucket, in table order, and changes neither
    the store nor the tokens. *)
Theorem login_opens_ui_list_buckets w tok t0 t toks :
  tok ≠ "" → t ≤ t0 + 3600000000 →
  let answer :=
    login {| username := "admin"; password := "password" |} tok t0 toks in
  answer.1 = Return [("token", tok)]
  ∧ authenticated (Some tok) t ui_list_buckets
      {| store := w; TOKENS := answer.2 |}
    = ({| store := w; TOKENS := answer.2 |},
       Return ((λ b, (name b, creation_date b)) <$> buckets (w_db w))).
Proof.
  intros Hne Ht answer. unfold answer.
  rewrite login_cases. cbn [username password].
  rewrite decide_True by done. cbn [fst snd].
  split; [done|].
  unfold authenticated. cbn [TOKENS store].
  rewrite (issued_token_valid "admin" tok t0 t toks Hne Ht).
  unfold run_handler, ui_list_buckets, mbind, handler_bind, mret,
    handler_ret, select_buckets, open_session.
  cbn [committed session files commits fst snd buckets].
  rewrite filter_all by done. by rewrite world_eta.
Qed.

Lemma login_opens_ui_list_buckets_witness :
  authenticated (Some "t0ken") 10 ui_list_buckets
    {| store := sample_w3;
       TOKENS := (login {| username := "admin"; password := "password" |}
                    "t0ken" 5 ∅).2 |}
  = ({| store := sample_w3;
        TOKENS := (login {| username := "admin"; password := "password" |}
                     "t0ken" 5 ∅).2 |},
     Return ((λ b, (name b, creation_date b)) <$> buckets (w_db sample_w3))).
Proof.
  refine (proj2 (login_opens_ui_list_buckets sample_w3 "t0ken" 5 10 ∅ _ _)).
  - done.
  - lia.
Defined.

End Authentication.
